(** * Mincovka: banknote and coin breakdown of EUR amounts

    A shallow embedding of [app.py] (helpers, the session with its form and
    buttons, and the calculation block) and the properties of its core:
    amount parsing, greedy breakdown, label round trip, aggregation and
    person codes, and of the session over the runs of the script.

    Python values are modelled as follows.
    - [int] is [Z] (unbounded); [//] and [divmod] by a positive divisor are
      [Z.div] and [Z.modulo] (both floor).
    - [float] is IEEE 754 binary64, given by [spec_float] with the
      operations of [SpecFloat] at precision 53.
    - [str] is a list of Unicode code points.
    - [dict] is an association list in insertion order with unique keys.
    - a raised exception is a [Raise] result. *)

From Stdlib Require Import ZArith List Bool Lia String Ascii Permutation.
From Stdlib Require Import Floats.SpecFloat.
From Stdlib Require Import Recdef.
From Stdlib Require Import DecimalZ DecimalPos.
Import ListNotations.
Local Open Scope Z_scope.

(* ================================================================== *)
(** * The Python runtime the program relies on *)
(* ================================================================== *)

Module Py.

(** ** Exceptions *)

Inductive exn := ValueError | OverflowError | ZeroDivisionError | KeyError.

Inductive result (A : Type) :=
| Ok (a : A)
| Raise (e : exn).
Arguments Ok {A} a.
Arguments Raise {A} e.

Definition bind {A B} (c : result A) (k : A -> result B) : result B :=
  match c with
  | Ok a => k a
  | Raise e => Raise e
  end.

(** A [for] loop whose body can raise. *)
Fixpoint for_each {S X} (body : S -> X -> result S) (xs : list X) (s : S)
  : result S :=
  match xs with
  | [] => Ok s
  | x :: xs' => bind (body s x) (for_each body xs')
  end.

(** A list comprehension whose element expression can raise. *)
Fixpoint comprehension {X Y} (f : X -> result Y) (xs : list X)
  : result (list Y) :=
  match xs with
  | [] => Ok []
  | x :: xs' =>
      bind (f x) (fun y => bind (comprehension f xs') (fun ys => Ok (y :: ys)))
  end.

(** ** Strings *)

Definition char := Z.
Definition str := list char.

(** Source literals are written in UTF-8 and decoded to code points. *)
Fixpoint utf8_decode (bs : list Z) : str :=
  match bs with
  | [] => []
  | b0 :: r0 =>
      if b0 <? 128 then b0 :: utf8_decode r0
      else
        match r0 with
        | [] => [b0]
        | b1 :: r1 =>
            if b0 <? 224 then ((b0 - 192) * 64 + (b1 - 128)) :: utf8_decode r1
            else
              match r1 with
              | [] => [b0; b1]
              | b2 :: r2 =>
                  if b0 <? 240
                  then ((b0 - 224) * 4096 + (b1 - 128) * 64 + (b2 - 128))
                         :: utf8_decode r2
                  else
                    match r2 with
                    | [] => [b0; b1; b2]
                    | b3 :: r3 =>
                        ((b0 - 240) * 262144 + (b1 - 128) * 4096
                         + (b2 - 128) * 64 + (b3 - 128)) :: utf8_decode r3
                    end
              end
        end
  end.

Definition lit (s : string) : str :=
  utf8_decode (map (fun a => Z.of_nat (nat_of_ascii a)) (list_ascii_of_string s)).

Fixpoint str_eqb (a b : str) : bool :=
  match a, b with
  | [], [] => true
  | x :: a', y :: b' => (x =? y) && str_eqb a' b'
  | _, _ => false
  end.

(** [c in s] for a one-character [c]. *)
Definition contains (c : char) (s : str) : bool := existsb (Z.eqb c) s.

(** [s.replace(old, new)] for a one-character [old]. *)
Definition replace (old : char) (new : str) (s : str) : str :=
  flat_map (fun c => if c =? old then new else [c]) s.

(** [str.isspace] on one character: the white space of Unicode together
    with the four ASCII separators 0x1C to 0x1F. *)
Definition isspace (c : char) : bool :=
  ((9 <=? c) && (c <=? 13)) || ((28 <=? c) && (c <=? 32))
  || (c =? 133) || (c =? 160) || (c =? 5760)
  || ((8192 <=? c) && (c <=? 8202))
  || (c =? 8232) || (c =? 8233) || (c =? 8239) || (c =? 8287) || (c =? 12288).

Fixpoint lstrip (s : str) : str :=
  match s with
  | c :: s' => if isspace c then lstrip s' else s
  | [] => []
  end.

Definition rstrip (s : str) : str := rev (lstrip (rev s)).

(** [s.strip()] *)
Definition strip (s : str) : str := rstrip (lstrip s).

(** Decimal rendering of an integer, as in [f"{n}"] (the integers the
    program renders have a few digits). *)
Fixpoint uint_chars (d : Decimal.uint) : str :=
  match d with
  | Decimal.Nil => []
  | Decimal.D0 d => 48 :: uint_chars d
  | Decimal.D1 d => 49 :: uint_chars d
  | Decimal.D2 d => 50 :: uint_chars d
  | Decimal.D3 d => 51 :: uint_chars d
  | Decimal.D4 d => 52 :: uint_chars d
  | Decimal.D5 d => 53 :: uint_chars d
  | Decimal.D6 d => 54 :: uint_chars d
  | Decimal.D7 d => 55 :: uint_chars d
  | Decimal.D8 d => 56 :: uint_chars d
  | Decimal.D9 d => 57 :: uint_chars d
  end.

Definition format_int (z : Z) : str :=
  match Z.to_int z with
  | Decimal.Pos d => uint_chars d
  | Decimal.Neg d => 45 :: uint_chars d
  end.

(** ** Floats (binary64) *)

Definition float := spec_float.
Definition prec : Z := 53.
Definition emax : Z := 1024.

(** The float nearest to [n / 10^k] (ties to even) for [n >= 0], signed
    by [neg]: the value of a decimal numeral whose digits make the number
    [n], [k] of them after the point. *)
Definition strtod (neg : bool) (n : Z) (k : nat) : float :=
  match n with
  | Z0 => S754_zero neg
  | _ =>
      let '(m, e, l) := SFdiv_core_binary prec emax n 0 (10 ^ Z.of_nat k) 0 in
      binary_round_aux prec emax neg m e l
  end.

Definition fmul : float -> float -> float := SFmul prec emax.
Definition fadd : float -> float -> float := SFadd prec emax.
Definition flt : float -> float -> bool := SFltb.
Definition fle : float -> float -> bool := SFleb.

(** [float(n)] of an integer literal. *)
Definition float_of_int (n : Z) : float := binary_normalize prec emax n 0 false.

(** Nearest integer to [m / d] for [d > 0], ties to even. *)
Definition div_half_even (m d : Z) : Z :=
  let q := m / d in
  let r := m mod d in
  match 2 * r ?= d with
  | Lt => q
  | Gt => q + 1
  | Eq => if Z.even q then q else q + 1
  end.

(** [x * c] rounded to an integer, exactly, for a finite magnitude
    [m * 2^e] and an integer factor [c > 0]. *)
Definition scaled_half_even (c : Z) (m : positive) (e : Z) : Z :=
  if 0 <=? e then c * Zpos m * 2 ^ e
  else div_half_even (c * Zpos m) (2 ^ (- e)).

(** [round(x)] of a float: an [int], half to even. *)
Definition round_float (x : float) : result Z :=
  match x with
  | S754_zero _ => Ok 0
  | S754_infinity _ => Raise OverflowError
  | S754_nan => Raise ValueError
  | S754_finite s m e =>
      let n := scaled_half_even 1 m e in
      Ok (if s then - n else n)
  end.

(** [int(x)] of a float: truncation toward zero. *)
Definition int_float (x : float) : result Z :=
  match x with
  | S754_zero _ => Ok 0
  | S754_infinity _ => Raise OverflowError
  | S754_nan => Raise ValueError
  | S754_finite s m e =>
      let n := if 0 <=? e then Zpos m * 2 ^ e else Zpos m / 2 ^ (- e) in
      Ok (if s then - n else n)
  end.

(** [round(x, 2)]: the exact value of [x] is rounded to two decimals
    (half to even) and the decimal result converted back to a float. *)
Definition round2 (x : float) : float :=
  match x with
  | S754_finite s m e => strtod s (scaled_half_even 100 m e) 2
  | _ => x
  end.

(** ** Numbers: the list of denominations mixes [int] and [float] *)

Inductive number :=
| Int (z : Z)
| Float (f : float).

(** [n >= k] for an integer literal [k]. *)
Definition ge_int (n : number) (k : Z) : bool :=
  match n with
  | Int z => k <=? z
  | Float f => fle (float_of_int k) f
  end.

(** [n * k] for an integer literal [k]. *)
Definition mul_int (n : number) (k : Z) : number :=
  match n with
  | Int z => Int (z * k)
  | Float f => Float (fmul f (float_of_int k))
  end.

(** [round(n)] *)
Definition round (n : number) : result Z :=
  match n with
  | Int z => Ok z
  | Float f => round_float f
  end.

(** [int(n)] *)
Definition int (n : number) : result Z :=
  match n with
  | Int z => Ok z
  | Float f => int_float f
  end.

(** [a // b] on integers. *)
Definition floordiv (a b : Z) : result Z :=
  if b =? 0 then Raise ZeroDivisionError else Ok (a / b).

(** ** Dictionaries keyed by strings, in insertion order *)

Definition dict (V : Type) := list (str * V).

(** [d[k] = v] *)
Fixpoint setitem {V} (d : dict V) (k : str) (v : V) : dict V :=
  match d with
  | [] => [(k, v)]
  | (k', v') :: d' =>
      if str_eqb k' k then (k', v) :: d' else (k', v') :: setitem d' k v
  end.

(** [d.get(k, default)] *)
Fixpoint get {V} (d : dict V) (k : str) (default : V) : V :=
  match d with
  | [] => default
  | (k', v') :: d' => if str_eqb k' k then v' else get d' k default
  end.

(** [d[k]] *)
Fixpoint getitem {V} (d : dict V) (k : str) : result V :=
  match d with
  | [] => Raise KeyError
  | (k', v') :: d' => if str_eqb k' k then Ok v' else getitem d' k
  end.

End Py.

Import Py.

Notation "x <- c ;; k" := (bind c (fun x => k))
  (at level 61, c at next level, right associativity).

(* ================================================================== *)
(** * app.py: helpers that do not read user text *)
(* ================================================================== *)

(** [DENOMS_EUR = [100, 50, 20, 10, 5, 2, 1, 0.50, 0.20, 0.10, 0.05, 0.02, 0.01]] *)
Definition DENOMS_EUR : list number :=
  [ Int 100; Int 50; Int 20; Int 10; Int 5; Int 2; Int 1;
    Float (strtod false 50 2); Float (strtod false 20 2);
    Float (strtod false 10 2); Float (strtod false 5 2);
    Float (strtod false 2 2); Float (strtod false 1 2) ].

Definition euro_label (n : number) : result str :=
  if ge_int n 1 then
    i <- int n ;;
    Ok (format_int i ++ lit " €")
  else
    cents <- round (mul_int n 100) ;;
    Ok (format_int cents ++ lit " c").

(** [DENOM_LABELS = [euro_label(d) for d in DENOMS_EUR]], evaluated when
    the module is loaded ([DENOM_LABELS_loaded] below: nothing is raised). *)
Definition DENOM_LABELS : list str :=
  match comprehension euro_label DENOMS_EUR with
  | Ok labels => labels
  | Raise _ => []
  end.

(** [to_cents]: [int(round(amount_eur * 100))] *)
Definition to_cents (amount_eur : float) : result Z :=
  round_float (fmul amount_eur (float_of_int 100)).

(** The body of the loop of [compute_breakdown], on the pair
    [(remainder, out)]. *)
Definition compute_breakdown_body (st : Z * dict Z) (denom : number)
  : result (Z * dict Z) :=
  let '(remainder, out) := st in
  denom_cents <- round (mul_int denom 100) ;;
  cnt <- floordiv remainder denom_cents ;;
  lbl <- euro_label denom ;;
  let out := setitem out lbl cnt in
  Ok (remainder - cnt * denom_cents, out).

(** The loop of [compute_breakdown] with the remainder it ends on. *)
Definition compute_breakdown_loop (amount_cents : Z) : result (Z * dict Z) :=
  for_each compute_breakdown_body DENOMS_EUR (amount_cents, []).

Definition compute_breakdown (amount_cents : Z) : result (dict Z) :=
  st <- compute_breakdown_loop amount_cents ;;
  Ok (snd st).

(** [idx_to_person_code]: the [while idx > 0] loop on [(idx, s)].
    [chr(65 + rem)] is the code point [65 + rem]. *)
Function idx_to_person_code_loop (idx : Z) (s : str) {measure Z.to_nat idx}
  : str :=
  if 0 <? idx then
    let q := (idx - 1) / 26 in
    let rem := (idx - 1) mod 26 in
    idx_to_person_code_loop q ((65 + rem) :: s)
  else s.
Proof.
  intros idx _ Hpos.
  apply Z.ltb_lt in Hpos.
  assert ((idx - 1) / 26 < idx) by (apply Z.div_lt_upper_bound; lia).
  lia.
Defined.

Definition idx_to_person_code (idx : Z) : str :=
  let idx := idx + 1 in
  idx_to_person_code_loop idx [].

(* ================================================================== *)
(** * Regular expressions: the fragment of [re] the program uses *)
(* ================================================================== *)

Module Re.

Inductive regex :=
| Never
| Empty
| Class (p : char -> bool)
| Seq (a b : regex)
| Or (a b : regex)
| Star (a : regex).

(** [a?], [a+] and [a{0,n}] *)
Definition Opt (a : regex) : regex := Or a Empty.
Definition Plus (a : regex) : regex := Seq a (Star a).
Fixpoint UpTo (n : nat) (a : regex) : regex :=
  match n with
  | O => Empty
  | S n' => Opt (Seq a (UpTo n' a))
  end.

Fixpoint nullable (r : regex) : bool :=
  match r with
  | Never => false
  | Empty => true
  | Class _ => false
  | Seq a b => nullable a && nullable b
  | Or a b => nullable a || nullable b
  | Star _ => true
  end.

Fixpoint deriv (c : char) (r : regex) : regex :=
  match r with
  | Never => Never
  | Empty => Never
  | Class p => if p c then Empty else Never
  | Seq a b =>
      if nullable a then Or (Seq (deriv c a) b) (deriv c b)
      else Seq (deriv c a) b
  | Or a b => Or (deriv c a) (deriv c b)
  | Star a => Seq (deriv c a) (Star a)
  end.

(** [re.fullmatch(r, s)] is not [None]. *)
Fixpoint fullmatch (r : regex) (s : str) : bool :=
  match s with
  | [] => nullable r
  | c :: s' => fullmatch (deriv c r) s'
  end.

(** The strings a pattern denotes. *)
Inductive matches : regex -> str -> Prop :=
| m_empty : matches Empty []
| m_class p c : p c = true -> matches (Class p) [c]
| m_seq a b s t : matches a s -> matches b t -> matches (Seq a b) (s ++ t)
| m_or_l a b s : matches a s -> matches (Or a b) s
| m_or_r a b s : matches b s -> matches (Or a b) s
| m_star_nil a : matches (Star a) []
| m_star_cons a s t :
    matches a s -> matches (Star a) t -> matches (Star a) (s ++ t).

End Re.

Import Re.

(* ================================================================== *)
(** * The Unicode data and numeral parsing of the runtime *)
(* ================================================================== *)

(** What the program needs of the interpreter's character database and
    of [int(str)] and [float(str)].  [to_decimal c] is the digit value of
    the decimal digit [c] (it decides [\d], and the digits that [int] and
    [float] read).  [int_rest] and [float_rest] stand for the two
    conversions on the strings that are not plain decimal numerals
    (digit grouping, exponents, [inf], [nan]); nothing is assumed of
    them. *)
Record runtime := {
  to_decimal : char -> option Z;
  to_decimal_ascii : forall c, 0 <= c < 128 ->
    to_decimal c = if (48 <=? c) && (c <=? 57) then Some (c - 48) else None;
  to_decimal_range : forall c v, to_decimal c = Some v -> 0 <= v <= 9;
  to_decimal_space : forall c, isspace c = true -> to_decimal c = None;
  int_rest : str -> result Z;
  float_rest : str -> result float
}.

Section Numerals.

Context (U : runtime).

Definition isdecimal (c : char) : bool :=
  match to_decimal U c with
  | Some _ => true
  | None => false
  end.

(** The longest prefix of decimal digits, as digit values, and the rest. *)
Fixpoint digits (s : str) : list Z * str :=
  match s with
  | [] => ([], [])
  | c :: s' =>
      match to_decimal U c with
      | Some v => let '(vs, r) := digits s' in (v :: vs, r)
      | None => ([], s)
      end
  end.

Definition digits_value (vs : list Z) : Z :=
  fold_left (fun acc v => acc * 10 + v) vs 0.

(** An optional leading sign: [-] (45) or [+] (43). *)
Definition sign_of (s : str) : bool * str :=
  match s with
  | c :: r =>
      if c =? 45 then (true, r)
      else if c =? 43 then (false, r)
      else (false, s)
  | [] => (false, s)
  end.

(** [int(s)] for a string: an optional sign and decimal digits, white
    space around them aside.  The interpreter can refuse numerals beyond a
    number of digits that is never set below 640; those are left to
    [int_rest] too. *)
Definition int_of_str (s : str) : result Z :=
  let '(neg, body) := sign_of (strip s) in
  match digits body with
  | (v :: vs, []) =>
      if (List.length (v :: vs) <=? 640)%nat then
        let n := digits_value (v :: vs) in
        Ok (if neg then - n else n)
      else int_rest U s
  | _ => int_rest U s
  end.

(** [float(s)] for a string: an optional sign, digits, and optionally a
    point and digits, with a digit on one side of the point at least. *)
Definition float_of_str (s : str) : result float :=
  let '(neg, body) := sign_of (strip s) in
  let '(ip, r) := digits body in
  match r with
  | [] =>
      match ip with
      | [] => float_rest U s
      | _ => Ok (strtod neg (digits_value ip) 0)
      end
  | c :: r' =>
      if c =? 46 then
        let '(fp, r'') := digits r' in
        match r'', ip ++ fp with
        | [], _ :: _ =>
            Ok (strtod neg (digits_value (ip ++ fp)) (List.length fp))
        | _, _ => float_rest U s
        end
      else float_rest U s
  end.

End Numerals.

(* ================================================================== *)
(** * app.py: parsing, reconstruction and the calculation block *)
(* ================================================================== *)

Definition MSG_FORMAT : str :=
  lit "Zadajte číslo vo formáte napr. 12,34 (max. 2 desatinné miesta).".
Definition MSG_INVALID : str := lit "Neplatná suma.".
Definition MSG_NEGATIVE : str := lit "Suma nemôže byť záporná.".

(** A person of the session list: [{"id": int, "code": str, "amount": float}] *)
Record person := {
  person_id : Z;
  person_code : str;
  person_amount : float
}.

Section App.

Context (U : runtime).

(** [r"\d+([,.]\d{0,2})?"] (44 is the comma, 46 the full stop) *)
Definition AMOUNT_PATTERN : regex :=
  Seq (Plus (Class (isdecimal U)))
      (Opt (Seq (Class (fun c => (c =? 44) || (c =? 46)))
                (UpTo 2 (Class (isdecimal U))))).

Definition parse_amount_sk (raw : option str) : result (bool * float * str) :=
  match raw with
  | None => Ok (true, S754_zero false, [])
  | Some raw =>
      let s := replace 32 [] (strip raw) in
      if str_eqb s [] then Ok (true, S754_zero false, [])
      else if negb (fullmatch AMOUNT_PATTERN s) then
        Ok (false, S754_zero false, MSG_FORMAT)
      else
        let s := replace 44 [46] s in
        match float_of_str U s with
        | Raise ValueError => Ok (false, S754_zero false, MSG_INVALID)
        | Raise e => Raise e
        | Ok val =>
            if flt val (float_of_int 0) then
              Ok (false, S754_zero false, MSG_NEGATIVE)
            else
              let val := round2 (fadd val (strtod false 1 12)) in
              Ok (true, val, [])
        end
  end.

(** The body of the loop of [breakdown_value_cents] (8364 is the euro
    sign, 99 the letter c). *)
Definition breakdown_value_cents_body (total : Z) (item : str * Z)
  : result Z :=
  let '(denom, cnt) := item in
  if contains 8364 denom then
    v <- int_of_str U (strip (replace 8364 [] denom)) ;;
    Ok (total + v * 100 * cnt)
  else
    v <- int_of_str U (strip (replace 99 [] denom)) ;;
    Ok (total + v * cnt).

Definition breakdown_value_cents (breakdown : dict Z) : result Z :=
  for_each breakdown_value_cents_body breakdown 0.

(** The inner loop [for lbl in DENOM_LABELS] of the calculation, on the
    pair of the row under construction and [summary_counts]. *)
Definition calc_label_body (breakdown : dict Z) (st : dict Z * dict Z)
  (lbl : str) : result (dict Z * dict Z) :=
  let '(row, counts) := st in
  let row := setitem row lbl (get breakdown lbl 0) in
  old <- getitem counts lbl ;;
  let counts := setitem counts lbl (old + get breakdown lbl 0) in
  Ok (row, counts).

(** [parse_amount] of the specification: what the form keeps of
    [parse_amount_sk], in cents as the calculation reads it. *)
Inductive parsed :=
| Amount (cents : Z)
| Invalid (message : str).

Definition parse_amount (raw : str) : result parsed :=
  r <- parse_amount_sk (Some raw) ;;
  let '(ok, val, err) := r in
  if ok then cents <- to_cents val ;; Ok (Amount cents)
  else Ok (Invalid err).

End App.

(** ** What the form and the tables show *)

(** [cents / 100.0] converts the integer to a float first: the nearest
    float, ties to even, and [OverflowError] beyond the range of floats.
    [f"{amount:.2f}"] prints the sign, the value rounded to hundredths
    (the exact value, ties to even) with two digits after the point, and
    [inf] or [nan] for the values that are not finite. *)

(** [float(n)] of an integer: the nearest float, or [OverflowError]. *)
Definition float_of_Z (n : Z) : result float :=
  match binary_normalize prec emax n 0 false with
  | S754_infinity _ => Raise OverflowError
  | f => Ok f
  end.

(** [cents_to_eur]: [cents / 100.0] *)
Definition cents_to_eur (cents : Z) : result float :=
  c <- float_of_Z cents ;;
  Ok (SFdiv prec emax c (float_of_int 100)).

(** [f"{x:.2f}"]: the exact value of [x] rounded to two decimals (half
    to even), with the sign of [x]. *)
Definition format_2f (x : float) : str :=
  match x with
  | S754_nan => lit "nan"
  | S754_infinity s => (if s then [45] else []) ++ lit "inf"
  | S754_zero s => (if s then [45] else []) ++ lit "0.00"
  | S754_finite s m e =>
      let n := scaled_half_even 100 m e in
      (if s then [45] else [])
        ++ format_int (n / 100)
        ++ [46; 48 + (n mod 100) / 10; 48 + n mod 10]
  end.

(** [format_eur_sk]: [f"{amount:.2f}".replace(".", ",")] *)
Definition format_eur_sk (amount : float) : str :=
  replace 46 [44] (format_2f amount).

(** [round(cents_to_eur(cents), 2)], the way money is shown in the tables. *)
Definition shown_eur (cents : Z) : result float :=
  x <- cents_to_eur cents ;;
  Ok (round2 x).

(** A row of the sheet of persons as the calculation builds it. *)
Record shown_row := {
  shown_code : str;
  shown_amount : float;
  shown_counts : dict Z;
  shown_check : float;
  shown_difference : float
}.

(** A row of the summary as the calculation builds it. *)
Record shown_summary_row := {
  shown_label : str;
  shown_pieces : Z;
  shown_value : float
}.

Record shown_state := {
  shown_rows : list shown_row;
  shown_summary_counts : dict Z;
  shown_total_cents : Z
}.

(** What the calculation hands to the two tables: the rows of the
    persons, the rows of the summary and the value of the [SPOLU] row
    (its count of pieces is summed by the table library from the column
    and is left out). *)
Record shown_result := {
  shown_persons : list shown_row;
  shown_summary : list shown_summary_row;
  shown_total : float
}.

(** The state before the loop: [rows = []], [summary_counts] is
    [{lbl: 0 for lbl in DENOM_LABELS}] and [summary_total_cents = 0]. *)
Definition calc_init : shown_state :=
  {| shown_rows := [];
     shown_summary_counts :=
       fold_left (fun d lbl => setitem d lbl 0) DENOM_LABELS [];
     shown_total_cents := 0 |}.

(** The body of [for p in st.session_state.persons] in the calculation,
    statement by statement. *)
Definition shown_person (U : runtime) (st : shown_state) (p : person)
  : result shown_state :=
  amt_cents <- to_cents (person_amount p) ;;
  breakdown <- compute_breakdown amt_cents ;;
  computed_cents <- breakdown_value_cents U breakdown ;;
  suma <- shown_eur amt_cents ;;
  rc <- for_each (calc_label_body breakdown) DENOM_LABELS
          ([], shown_summary_counts st) ;;
  kontrola <- shown_eur computed_cents ;;
  rozdiel <- shown_eur (amt_cents - computed_cents) ;;
  let row := {| shown_code := person_code p;
                shown_amount := suma;
                shown_counts := fst rc;
                shown_check := kontrola;
                shown_difference := rozdiel |} in
  Ok {| shown_rows := shown_rows st ++ [row];
        shown_summary_counts := snd rc;
        shown_total_cents := shown_total_cents st + computed_cents |}.

(** The same body from [computed_cents] on, for a given code, amount in
    cents and breakdown: what the loop does with the breakdown of one
    person. *)
Definition calc_entry (U : runtime) (st : shown_state)
  (entry : str * Z * dict Z) : result shown_state :=
  let '(code, amt_cents, breakdown) := entry in
  computed_cents <- breakdown_value_cents U breakdown ;;
  suma <- shown_eur amt_cents ;;
  rc <- for_each (calc_label_body breakdown) DENOM_LABELS
          ([], shown_summary_counts st) ;;
  kontrola <- shown_eur computed_cents ;;
  rozdiel <- shown_eur (amt_cents - computed_cents) ;;
  let row := {| shown_code := code;
                shown_amount := suma;
                shown_counts := fst rc;
                shown_check := kontrola;
                shown_difference := rozdiel |} in
  Ok {| shown_rows := shown_rows st ++ [row];
        shown_summary_counts := snd rc;
        shown_total_cents := shown_total_cents st + computed_cents |}.

(** The body of [for denom, lbl in zip(DENOMS_EUR, DENOM_LABELS)]. *)
Definition shown_summary_body (counts : dict Z)
  (sum_rows : list shown_summary_row) (dl : number * str)
  : result (list shown_summary_row) :=
  let '(denom, lbl) := dl in
  cnt <- getitem counts lbl ;;
  denom_cents <- round (mul_int denom 100) ;;
  let value_cents := cnt * denom_cents in
  value <- shown_eur value_cents ;;
  Ok (sum_rows ++ [ {| shown_label := lbl;
                       shown_pieces := cnt;
                       shown_value := value |} ]).

(** The statements after the loop over the persons: the summary table
    and the value of its [SPOLU] row. *)
Definition calc_finish (st : shown_state) : result shown_result :=
  sum_rows <- for_each (shown_summary_body (shown_summary_counts st))
                (combine DENOMS_EUR DENOM_LABELS) [] ;;
  total <- shown_eur (shown_total_cents st) ;;
  Ok {| shown_persons := shown_rows st;
        shown_summary := sum_rows;
        shown_total := total |}.

(** The calculation on given breakdowns of the persons: the block with
    [calc_entry] for the body of its first loop. *)
Definition aggregate (U : runtime) (entries : list (str * Z * dict Z))
  : result shown_result :=
  st <- for_each (calc_entry U) entries calc_init ;;
  calc_finish st.

(** The block run on [do_calc], with the money as it is shown. *)
Definition calculate_shown (U : runtime) (persons : list person)
  : result shown_result :=
  st <- for_each (shown_person U) persons calc_init ;;
  sum_rows <- for_each (shown_summary_body (shown_summary_counts st))
                (combine DENOMS_EUR DENOM_LABELS) [] ;;
  total <- shown_eur (shown_total_cents st) ;;
  Ok {| shown_persons := shown_rows st;
        shown_summary := sum_rows;
        shown_total := total |}.

(** A runtime whose only decimal digits are the ASCII ones, and that
    accepts nothing but plain numerals. *)
Definition ascii_decimal (c : char) : option Z :=
  if (48 <=? c) && (c <=? 57) then Some (c - 48) else None.

Lemma ascii_decimal_range c v : ascii_decimal c = Some v -> 0 <= v <= 9.
Proof.
  unfold ascii_decimal.
  destruct (48 <=? c) eqn:H1; destruct (c <=? 57) eqn:H2; simpl; try discriminate.
  intros [= <-]. apply Z.leb_le in H1, H2. lia.
Qed.

Lemma ascii_decimal_space c : isspace c = true -> ascii_decimal c = None.
Proof.
  unfold ascii_decimal, isspace. intros H.
  destruct (48 <=? c) eqn:H1; destruct (c <=? 57) eqn:H2; simpl; try reflexivity.
  apply Z.leb_le in H1, H2.
  repeat (apply orb_prop in H; destruct H as [H | H]);
    repeat match goal with
      | H : (_ && _)%bool = true |- _ => apply andb_prop in H; destruct H
      | H : (_ <=? _) = true |- _ => apply Z.leb_le in H
      | H : (_ =? _) = true |- _ => apply Z.eqb_eq in H
      end; lia.
Qed.

Definition ascii_runtime : runtime :=
  {| to_decimal := ascii_decimal;
     to_decimal_ascii := fun c _ => eq_refl;
     to_decimal_range := ascii_decimal_range;
     to_decimal_space := ascii_decimal_space;
     int_rest := fun _ => Raise ValueError;
     float_rest := fun _ => Raise ValueError |}.

(* ================================================================== *)
(** * Definitions worded after the specification *)
(* ================================================================== *)

(** The minor-unit values of the 13 denominations, in their fixed order. *)
Definition MINOR_UNITS : list Z :=
  [10000; 5000; 2000; 1000; 500; 200; 100; 50; 20; 10; 5; 2; 1].

(** The greedy algorithm as the specification words it: at each
    denomination the count is the floor of remainder / value, and
    count * value is taken off the remainder, which is carried on.
    The result is the counts and the remainder left at the end. *)
Fixpoint greedy (values : list Z) (remainder : Z) : list Z * Z :=
  match values with
  | [] => ([], remainder)
  | value :: smaller =>
      let count := remainder / value in
      let '(counts, leftover) := greedy smaller (remainder - count * value) in
      (count :: counts, leftover)
  end.

(** Strictly descending. *)
Fixpoint descending (values : list Z) : Prop :=
  match values with
  | a :: (b :: _) as rest => b < a /\ descending rest
  | _ => True
  end.

(** Sum of count * value. *)
Fixpoint weighted_sum (counts values : list Z) : Z :=
  match counts, values with
  | c :: counts', v :: values' => c * v + weighted_sum counts' values'
  | _, _ => 0
  end.

Definition sum (xs : list Z) : Z := fold_right Z.add 0 xs.

(** The number of pieces a breakdown hands out. *)
Definition total_pieces (breakdown : dict Z) : Z := sum (map snd breakdown).

(** A decomposition of [amount] over the denominations: one count per
    denomination, none negative, of the right total value. *)
Definition decomposition (counts : list Z) (amount : Z) : Prop :=
  List.length counts = List.length MINOR_UNITS
  /\ Forall (fun c => 0 <= c) counts
  /\ weighted_sum counts MINOR_UNITS = amount.

(** The accepted shape of an amount: one or more digits, optionally
    followed by a separator (comma or full stop) and at most two digits. *)
Definition amount_shape (U : runtime) (s : str) : Prop :=
  exists whole,
    whole <> [] /\ Forall (fun c => isdecimal U c = true) whole
    /\ (s = whole
        \/ exists sep decimals,
             (sep = 44 \/ sep = 46)
             /\ Forall (fun c => isdecimal U c = true) decimals
             /\ (List.length decimals <= 2)%nat
             /\ s = whole ++ sep :: decimals).


(** The counts of a dictionary in the order of the labels, and what they
    are worth. *)
Definition counts_of (d : dict Z) : list Z :=
  map (fun lbl => get d lbl 0) DENOM_LABELS.
Definition worth (d : dict Z) : Z := weighted_sum (counts_of d) MINOR_UNITS.

(** ** Auxiliary definitions of the proofs *)

Definition is_ascii (c : char) : bool := (0 <=? c) && (c <? 128).

(** Each label is read back as the minor-unit value next to it. *)
Definition reads_as (U : runtime) (lv : str * Z) : Prop :=
  forall total cnt,
    breakdown_value_cents_body U total (fst lv, cnt)
    = Ok (total + snd lv * cnt).

(** The number a code word stands for in bijective base 26 (the letter A,
    code point 65, is the digit 1). *)
Definition letters_value (s : str) : Z :=
  fold_left (fun acc c => acc * 26 + (c - 64)) s 0.

Definition greedy_count (values : list Z) (amount : Z) : Z :=
  sum (fst (greedy values amount)).

(** The denominations below 100 euros. *)
Definition SMALLER_UNITS : list Z :=
  [5000; 2000; 1000; 500; 200; 100; 50; 20; 10; 5; 2; 1].

(** One more piece of value [d] on top of [r] cents below 100 euros:
    greedy needs at most one piece more, and no more at all when the
    sum reaches 100 euros. *)
Definition one_more_piece_ok (r : Z) : bool :=
  forallb
    (fun d =>
       if r + d <? 10000
       then greedy_count SMALLER_UNITS (r + d)
            <=? greedy_count SMALLER_UNITS r + 1
       else greedy_count SMALLER_UNITS (r + d - 10000)
            <=? greedy_count SMALLER_UNITS r)
    SMALLER_UNITS.

(** The amounts 0 to 9999. *)
Definition below_100_euros : list Z := map Z.of_nat (seq 0 (Z.to_nat 10000)).

(** The pile of pieces that counts describe. *)
Fixpoint pile_of (counts values : list Z) : list Z :=
  match counts, values with
  | c :: counts', v :: values' =>
      repeat v (Z.to_nat c) ++ pile_of counts' values'
  | _, _ => []
  end.

(** Counts added denomination by denomination. *)
Fixpoint add_counts (xs ys : list Z) : list Z :=
  match xs, ys with
  | x :: xs', y :: ys' => (x + y) :: add_counts xs' ys'
  | _, _ => []
  end.

(** Count rows added, one after the other, to the counts so far. *)
Definition add_all_counts (rows : list (list Z)) (so_far : list Z) : list Z :=
  fold_left (fun acc row => add_counts row acc) rows so_far.

(** The aggregate counts of a list of count rows: their sum from zero. *)
Definition aggregate_counts (rows : list (list Z)) : list Z :=
  add_all_counts rows (map (fun _ => 0) MINOR_UNITS).


(* ================================================================== *)
(** * app.py: the session and the runs of the script *)
(* ================================================================== *)

(** Streamlit runs the script from top to bottom on every interaction.
    The session state is what one run hands to the next; what the widgets
    return in a run is the input of that run.  Drawing the page and
    writing the spreadsheet file are left to the libraries. *)

(** The session: [st.session_state].  [per_person_df] and [summary_df]
    are kept as the one result of the calculation they are built from,
    [None] for both before the first calculation. *)
Record session := {
  persons : list person;
  next_id : Z;
  calculated : bool;
  results : option shown_result
}.

(** The state of a new session. *)
Definition session_init : session :=
  {| persons := []; next_id := 1; calculated := false; results := None |}.

(** What the widgets return in one run of the script: the two buttons that
    add persons, for each person (by id) the text of the amount field and
    the delete button, and the button that calculates. *)
Record widgets := {
  add_clicked : bool;
  add_ten_clicked : bool;
  amount_text : Z -> option str;
  delete_clicked : Z -> bool;
  calc_clicked : bool
}.

(** The three statements that append a person. *)
Definition append_person (st : session) : session :=
  let code := idx_to_person_code (Z.of_nat (List.length (persons st))) in
  {| persons := persons st
                ++ [ {| person_id := next_id st;
                        person_code := code;
                        person_amount := S754_zero false |} ];
     next_id := next_id st + 1;
     calculated := calculated st;
     results := results st |}.

Definition set_calculated (b : bool) (st : session) : session :=
  {| persons := persons st; next_id := next_id st;
     calculated := b; results := results st |}.

(** The button that adds one person. *)
Definition add_person (st : session) : session :=
  if Z.of_nat (List.length (persons st)) <? 100
  then set_calculated false (append_person st)
  else st.

(** [for _ in range(n)] around the three statements. *)
Fixpoint append_persons (n : nat) (st : session) : session :=
  match n with
  | O => st
  | S n' => append_persons n' (append_person st)
  end.

(** The button that adds ten persons. *)
Definition add_ten_persons (st : session) : session :=
  let remaining := 100 - Z.of_nat (List.length (persons st)) in
  let add_n := Z.min 10 remaining in
  if add_n <=? 0 then st
  else set_calculated false (append_persons (Z.to_nat add_n) st).

(** What the loop over the persons has gathered. *)
Record form := {
  form_persons : list person;
  form_calculated : bool;
  to_delete_ids : list Z;
  validation_errors : list (str * str);
  form_raised : option exn
}.

(** [for p in st.session_state.persons]: the amount field is parsed and
    kept when it differs, the errors and the deletions are noted.  An
    exception leaves the persons as they are at that point. *)
Fixpoint form_loop (U : runtime) (w : widgets) (ps : list person)
  (calc : bool) (dels : list Z) (errs : list (str * str)) : form :=
  match ps with
  | [] =>
      {| form_persons := []; form_calculated := calc; to_delete_ids := dels;
         validation_errors := errs; form_raised := None |}
  | p :: ps' =>
      match parse_amount_sk U (amount_text w (person_id p)) with
      | Raise e =>
          {| form_persons := p :: ps'; form_calculated := calc;
             to_delete_ids := dels; validation_errors := errs;
             form_raised := Some e |}
      | Ok (ok, val, err) =>
          let changed := ok && negb (SFeqb val (person_amount p)) in
          let p' := if changed
                    then {| person_id := person_id p;
                            person_code := person_code p;
                            person_amount := val |}
                    else p in
          let calc' := if changed then false else calc in
          let errs' := if ok then errs else errs ++ [(person_code p, err)] in
          let dels' := if delete_clicked w (person_id p)
                       then dels ++ [person_id p] else dels in
          let f := form_loop U w ps' calc' dels' errs' in
          {| form_persons := p' :: form_persons f;
             form_calculated := form_calculated f;
             to_delete_ids := to_delete_ids f;
             validation_errors := validation_errors f;
             form_raised := form_raised f |}
      end
  end.

(** [x in ids] *)
Definition id_in (ids : list Z) (x : Z) : bool := existsb (Z.eqb x) ids.

(** One run of the script on the session: the state it leaves, and the
    exception that ended it if one did. *)
Definition run (U : runtime) (w : widgets) (st : session)
  : session * option exn :=
  let st := if add_clicked w then add_person st else st in
  let st := if add_ten_clicked w then add_ten_persons st else st in
  match persons st with
  | [] => (st, None)
  | _ :: _ =>
      let f := form_loop U w (persons st) (calculated st) [] [] in
      let st := {| persons := form_persons f; next_id := next_id st;
                   calculated := form_calculated f; results := results st |} in
      match form_raised f with
      | Some e => (st, Some e)
      | None =>
          match to_delete_ids f with
          | _ :: _ =>
              ({| persons :=
                    filter (fun p => negb (id_in (to_delete_ids f) (person_id p)))
                      (persons st);
                  next_id := next_id st;
                  calculated := false;
                  results := results st |}, None)
          | [] =>
              let disabled :=
                match validation_errors f with [] => false | _ => true end in
              if calc_clicked w && negb disabled then
                match calculate_shown U (persons st) with
                | Raise e => (st, Some e)
                | Ok res =>
                    ({| persons := persons st; next_id := next_id st;
                        calculated := true; results := Some res |}, None)
                end
              else (st, None)
          end
      end
  end.

(** The states a session goes through. *)
Inductive reachable (U : runtime) : session -> Prop :=
| reach_init : reachable U session_init
| reach_run w st : reachable U st -> reachable U (fst (run U w st)).

(** The session once the two buttons that add persons are handled. *)
Definition after_buttons (w : widgets) (st : session) : session :=
  let st := if add_clicked w then add_person st else st in
  if add_ten_clicked w then add_ten_persons st else st.

(* ================================================================== *)
(** * Auxiliary definitions of the further properties *)
(* ================================================================== *)

(** A run in which the button that adds one person is clicked and the
    amounts, all zero, are left as they are shown. *)
Definition click_add : widgets :=
  {| add_clicked := true;
     add_ten_clicked := false;
     amount_text := fun _ => Some (format_eur_sk (S754_zero false));
     delete_clicked := fun _ => false;
     calc_clicked := false |}.

(** A run in which the person with id [k] is deleted. *)
Definition click_delete (k : Z) : widgets :=
  {| add_clicked := false;
     add_ten_clicked := false;
     amount_text := fun _ => Some (format_eur_sk (S754_zero false));
     delete_clicked := Z.eqb k;
     calc_clicked := false |}.

(** The session after [n] clicks on the button that adds one person. *)
Fixpoint added (U : runtime) (n : nat) : session :=
  match n with
  | O => session_init
  | S n' => fst (run U click_add (added U n'))
  end.

(** The person that the [i]-th click adds, counting from 0. *)
Definition fresh_person (i : nat) : person :=
  {| person_id := Z.of_nat i + 1;
     person_code := idx_to_person_code (Z.of_nat i);
     person_amount := S754_zero false |}.

(** A run in which nothing is clicked and the amounts, all zero, are left
    as they are shown. *)
Definition leave_as_shown : widgets :=
  {| add_clicked := false;
     add_ten_clicked := false;
     amount_text := fun _ => Some (format_eur_sk (S754_zero false));
     delete_clicked := fun _ => false;
     calc_clicked := false |}.

(** A run in which every amount field holds [text] and the button that
    calculates is clicked. *)
Definition click_calc (text : str) : widgets :=
  {| add_clicked := false;
     add_ten_clicked := false;
     amount_text := fun _ => Some text;
     delete_clicked := fun _ => false;
     calc_clicked := true |}.

(** The digit values of a decimal numeral. *)
Fixpoint uint_values (d : Decimal.uint) : list Z :=
  match d with
  | Decimal.Nil => []
  | Decimal.D0 d => 0 :: uint_values d
  | Decimal.D1 d => 1 :: uint_values d
  | Decimal.D2 d => 2 :: uint_values d
  | Decimal.D3 d => 3 :: uint_values d
  | Decimal.D4 d => 4 :: uint_values d
  | Decimal.D5 d => 5 :: uint_values d
  | Decimal.D6 d => 6 :: uint_values d
  | Decimal.D7 d => 7 :: uint_values d
  | Decimal.D8 d => 8 :: uint_values d
  | Decimal.D9 d => 9 :: uint_values d
  end.

(** The amount in hundredths, rounded half to even: the digits that
    [format_2f] prints. *)
Definition hundredths (x : float) : Z :=
  match x with
  | S754_finite _ m e => scaled_half_even 100 m e
  | _ => 0
  end.

(** Finite and without a minus sign. *)
Definition unsigned_finite (x : float) : bool :=
  match x with
  | S754_zero false | S754_finite false _ _ => true
  | _ => false
  end.

(** Equality of floats as data. *)
Definition float_same (x y : float) : bool :=
  match x, y with
  | S754_zero s, S754_zero s' => Bool.eqb s s'
  | S754_infinity s, S754_infinity s' => Bool.eqb s s'
  | S754_nan, S754_nan => true
  | S754_finite s m e, S754_finite s' m' e' =>
      Bool.eqb s s' && Pos.eqb m m' && Z.eqb e e'
  | _, _ => false
  end.

(** An amount of [n] cents is kept as it is by the form and converts back
    to [n] cents. *)
Definition cents_kept (n : Z) : bool :=
  let x := strtod false n 2 in
  unsigned_finite x
  && (hundredths x =? n)
  && float_same (round2 (fadd x (strtod false 1 12))) x
  && match to_cents x with Ok c => c =? n | Raise _ => false end.

(** Zero, a positive value or plus infinity. *)
Definition unsigned (x : float) : bool :=
  match x with
  | S754_zero false | S754_infinity false | S754_finite false _ _ => true
  | _ => false
  end.

(** The most pieces of each denomination below 100 euros. *)
Definition MOST_PIECES : list Z := [1; 2; 1; 1; 2; 1; 1; 2; 1; 1; 2; 1].

Definition is_letter (c : char) : Prop := 65 <= c <= 90.

(** The comma turned into a full stop, character by character. *)
Definition comma_to_stop (c : char) : char := if c =? 44 then 46 else c.

(** What every run of the script keeps of the persons. *)
Definition tidy (st : session) : Prop :=
  1 <= next_id st
  /\ NoDup (map person_id (persons st))
  /\ Forall (fun p => 1 <= person_id p < next_id st) (persons st)
  /\ Forall (fun p => unsigned (person_amount p) = true) (persons st).

(** What every run of the script keeps of the session. *)
Definition session_ok (U : runtime) (st : session) : Prop :=
  (List.length (persons st) <= 100)%nat
  /\ tidy st
  /\ (calculated st = true ->
      exists res,
        results st = Some res /\ calculate_shown U (persons st) = Ok res).

(** The amount of a person is of whole cents below 100 euros and its field
    holds the text the form shows for it. *)
Definition untouched (w : widgets) (p : person) : Prop :=
  amount_text w (person_id p) = Some (format_eur_sk (person_amount p))
  /\ exists n, 0 <= n < 10000 /\ person_amount p = strtod false n 2.

(** [n] cents are shown as the float nearest to [n / 100]. *)
Definition cents_shown (n : Z) : bool :=
  match shown_eur n with
  | Ok x => float_same x (strtod false n 2)
  | Raise _ => false
  end.

(* ================================================================== *)
(** * Properties *)
(* ================================================================== *)

(** ** The model on concrete inputs *)

(** [strtod] on the float literals of the source: 0.5 is 0x1p-1, 0.2 is
    0x1.999999999999ap-3, 0.1 is 0x1.999999999999ap-4, 0.05 is
    0x1.999999999999ap-5, 0.02 is 0x1.47ae147ae147bp-6, 0.01 is
    0x1.47ae147ae147bp-7 and 1e-12 is 0x1.19799812dea11p-40, each as
    mantissa * 2^exponent. *)
Example strtod_literals :
  [strtod false 50 2; strtod false 20 2; strtod false 10 2;
   strtod false 5 2; strtod false 2 2; strtod false 1 2; strtod false 1 12]
  = [S754_finite false 0x10000000000000 (-53);
     S754_finite false 0x1999999999999a (-55);
     S754_finite false 0x1999999999999a (-56);
     S754_finite false 0x1999999999999a (-57);
     S754_finite false 0x147ae147ae147b (-58);
     S754_finite false 0x147ae147ae147b (-59);
     S754_finite false 0x119799812dea11 (-92)].
Proof. vm_compute. reflexivity. Qed.

(** [0.2 * 100] is 20.0 and [12.34 * 100] is 1234.0, both exactly. *)
Example fmul_examples :
  fmul (strtod false 20 2) (float_of_int 100) = strtod false 20 0
  /\ fmul (strtod false 1234 2) (float_of_int 100) = strtod false 1234 0.
Proof. vm_compute. split; reflexivity. Qed.

(** [round(2.675 + 1e-12, 2)] is 2.68 and [round(0.125, 2)] is 0.12. *)
Example round2_examples :
  round2 (fadd (strtod false 2675 3) (strtod false 1 12)) = strtod false 268 2
  /\ round2 (strtod false 125 3) = strtod false 12 2.
Proof. vm_compute. split; reflexivity. Qed.

Example to_cents_example : to_cents (strtod false 1234 2) = Ok 1234.
Proof. vm_compute. reflexivity. Qed.

(** 12,34 euros: one each of 10 euros, 2 euros, 20 c, 10 c and two of 2 c. *)
Example compute_breakdown_1234 :
  compute_breakdown 1234
  = Ok (combine DENOM_LABELS [0; 0; 0; 1; 0; 1; 0; 0; 1; 1; 0; 2; 0]).
Proof. vm_compute. reflexivity. Qed.

Example compute_breakdown_zero :
  compute_breakdown 0
  = Ok (combine DENOM_LABELS [0; 0; 0; 0; 0; 0; 0; 0; 0; 0; 0; 0; 0]).
Proof. vm_compute. reflexivity. Qed.

Example compute_breakdown_100_euros :
  compute_breakdown 10000
  = Ok (combine DENOM_LABELS [1; 0; 0; 0; 0; 0; 0; 0; 0; 0; 0; 0; 0]).
Proof. vm_compute. reflexivity. Qed.

(** ** Strings and dictionaries *)

Lemma str_eqb_eq (a b : str) : str_eqb a b = true <-> a = b.
Proof.
  revert b. induction a as [| x a IH]; intros [| y b]; simpl;
    try (split; [discriminate | discriminate]); try tauto.
  rewrite andb_true_iff, Z.eqb_eq, IH. split.
  - intros [-> ->]. reflexivity.
  - intros [= -> ->]. auto.
Qed.

Lemma str_eqb_refl (a : str) : str_eqb a a = true.
Proof. apply str_eqb_eq. reflexivity. Qed.

Lemma str_eqb_neq (a b : str) : a <> b -> str_eqb a b = false.
Proof.
  intros H. destruct (str_eqb a b) eqn:E; [| reflexivity].
  apply str_eqb_eq in E. contradiction.
Qed.

Lemma setitem_fresh {V} (d : dict V) (k : str) (v : V) :
  ~ In k (map fst d) -> setitem d k v = d ++ [(k, v)].
Proof.
  induction d as [| [k' v'] d IH]; simpl; intros Hk; [reflexivity |].
  rewrite str_eqb_neq by tauto.
  rewrite IH by tauto. reflexivity.
Qed.

(** ** The table of denominations *)

Lemma MINOR_UNITS_loaded :
  comprehension (fun denom => round (mul_int denom 100)) DENOMS_EUR
  = Ok MINOR_UNITS.
Proof. vm_compute. reflexivity. Qed.

Lemma DENOM_LABELS_loaded : comprehension euro_label DENOMS_EUR = Ok DENOM_LABELS.
Proof. vm_compute. reflexivity. Qed.

Lemma DENOM_LABELS_text :
  DENOM_LABELS
  = map lit ["100 €"; "50 €"; "20 €"; "10 €"; "5 €"; "2 €"; "1 €";
             "50 c"; "20 c"; "10 c"; "5 c"; "2 c"; "1 c"]%string.
Proof. vm_compute. reflexivity. Qed.

Lemma DENOM_LABELS_NoDup : NoDup DENOM_LABELS.
Proof.
  rewrite DENOM_LABELS_text.
  repeat (constructor; [simpl; intros H; repeat destruct H as [H | H];
                        (discriminate H || exact H) |]).
  constructor.
Qed.

Lemma DENOM_LABELS_length : List.length DENOM_LABELS = List.length MINOR_UNITS.
Proof. rewrite DENOM_LABELS_text. reflexivity. Qed.

Lemma MINOR_UNITS_positive : Forall (fun v => 0 < v) MINOR_UNITS.
Proof. unfold MINOR_UNITS. repeat constructor. Qed.

(** ** The loop of [compute_breakdown] is the greedy algorithm *)

Lemma greedy_length values r :
  List.length (fst (greedy values r)) = List.length values.
Proof.
  revert r. induction values as [| v values IH]; intros r; simpl; [reflexivity |].
  specialize (IH (r - r / v * v)).
  destruct (greedy values (r - r / v * v)) as [cs lo]. simpl in *.
  rewrite IH. reflexivity.
Qed.

Lemma compute_breakdown_loop_greedy :
  forall denoms values labels,
    comprehension (fun denom => round (mul_int denom 100)) denoms = Ok values ->
    comprehension euro_label denoms = Ok labels ->
    Forall (fun v => 0 < v) values ->
    NoDup labels ->
    forall remainder out,
      (forall l, In l labels -> ~ In l (map fst out)) ->
      for_each compute_breakdown_body denoms (remainder, out)
      = Ok (snd (greedy values remainder),
            out ++ combine labels (fst (greedy values remainder))).
Proof.
  induction denoms as [| d denoms IH]; intros values labels Hv Hl Hpos Hnd r out Hfresh.
  - simpl in Hv, Hl. injection Hv as <-. injection Hl as <-.
    simpl. rewrite app_nil_r. reflexivity.
  - simpl in Hv, Hl.
    destruct (round (mul_int d 100)) as [v |] eqn:Ev; [| discriminate].
    destruct (euro_label d) as [l |] eqn:El; [| discriminate].
    simpl in Hv, Hl.
    destruct (comprehension _ denoms) as [vs |] eqn:Evs in Hv; [| discriminate].
    destruct (comprehension euro_label denoms) as [ls |] eqn:Els; [| discriminate].
    simpl in Hv, Hl. injection Hv as <-. injection Hl as <-.
    inversion Hpos as [| ? ? Hv0 Hpos']; subst.
    inversion Hnd as [| ? ? Hnotin Hnd']; subst.
    cbn [for_each]. unfold compute_breakdown_body at 1.
    rewrite Ev. cbn [bind]. unfold floordiv.
    destruct (v =? 0) eqn:Ez; [apply Z.eqb_eq in Ez; lia |].
    cbn [bind]. rewrite El. cbn [bind].
    rewrite setitem_fresh by (apply Hfresh; left; reflexivity).
    rewrite (IH vs ls Evs eq_refl Hpos' Hnd').
    + simpl greedy.
      destruct (greedy vs (r - r / v * v)) as [cs lo]. simpl.
      rewrite <- app_assoc. reflexivity.
    + intros l' Hin. rewrite map_app, in_app_iff. simpl.
      intros [H | [H | []]].
      * apply (Hfresh l'); [right; exact Hin | exact H].
      * subst l'. contradiction.
Qed.

Lemma compute_breakdown_loop_eq (C : Z) :
  compute_breakdown_loop C
  = Ok (snd (greedy MINOR_UNITS C),
        combine DENOM_LABELS (fst (greedy MINOR_UNITS C))).
Proof.
  unfold compute_breakdown_loop.
  rewrite (compute_breakdown_loop_greedy DENOMS_EUR MINOR_UNITS DENOM_LABELS
             MINOR_UNITS_loaded DENOM_LABELS_loaded MINOR_UNITS_positive
             DENOM_LABELS_NoDup C []).
  - reflexivity.
  - intros l _ [].
Qed.

Lemma compute_breakdown_eq (C : Z) :
  compute_breakdown C = Ok (combine DENOM_LABELS (fst (greedy MINOR_UNITS C))).
Proof.
  unfold compute_breakdown. rewrite compute_breakdown_loop_eq. reflexivity.
Qed.

(** Taking off [count * value] leaves the remainder of the division. *)
Lemma greedy_step_mod r v : r - r / v * v = r mod v.
Proof. pose proof (Z_div_mod_eq_full r v). lia. Qed.

(** The counts are worth the amount less what is left at the end. *)
Lemma greedy_weighted_sum values r :
  weighted_sum (fst (greedy values r)) values = r - snd (greedy values r).
Proof.
  revert r. induction values as [| v values IH]; intros r; simpl; [lia |].
  specialize (IH (r - r / v * v)).
  destruct (greedy values (r - r / v * v)) as [cs lo]. simpl in *.
  rewrite IH. lia.
Qed.

(** A list that ends on the value 1 leaves nothing. *)
Lemma greedy_unit_last values r :
  snd (greedy (values ++ [1]) r) = 0.
Proof.
  revert r. induction values as [| v values IH]; intros r; simpl.
  - rewrite Z.div_1_r. lia.
  - specialize (IH (r - r / v * v)).
    destruct (greedy (values ++ [1]) (r - r / v * v)) as [cs lo].
    simpl in *. exact IH.
Qed.

Lemma greedy_MINOR_UNITS_left r : snd (greedy MINOR_UNITS r) = 0.
Proof.
  change MINOR_UNITS
    with ([10000; 5000; 2000; 1000; 500; 200; 100; 50; 20; 10; 5; 2] ++ [1]).
  apply greedy_unit_last.
Qed.

Lemma greedy_nonneg values r :
  Forall (fun v => 0 < v) values -> 0 <= r ->
  Forall (fun c => 0 <= c) (fst (greedy values r)) /\ 0 <= snd (greedy values r).
Proof.
  intros Hpos. revert r.
  induction Hpos as [| v values Hv Hpos IH]; intros r Hr; simpl.
  - split; [constructor | exact Hr].
  - assert (Hm : 0 <= r - r / v * v).
    { rewrite greedy_step_mod. apply Z.mod_pos_bound. exact Hv. }
    specialize (IH _ Hm).
    destruct (greedy values (r - r / v * v)) as [cs lo]. simpl in *.
    destruct IH as [IH1 IH2]. split; [| exact IH2].
    constructor; [apply Z.div_pos; lia | exact IH1].
Qed.

(** ** Numerals written in ASCII read the same under every runtime *)

Lemma is_ascii_range c : is_ascii c = true -> 0 <= c < 128.
Proof.
  unfold is_ascii. intros H. apply andb_prop in H as [H1 H2].
  apply Z.leb_le in H1. apply Z.ltb_lt in H2. lia.
Qed.

Lemma sign_of_forallb (p : char -> bool) s :
  forallb p s = true -> forallb p (snd (sign_of s)) = true.
Proof.
  destruct s as [| c r]; simpl; [reflexivity |].
  intros H. apply andb_prop in H as [Hc Hr].
  destruct (c =? 45); [exact Hr |].
  destruct (c =? 43); [exact Hr |].
  simpl. rewrite Hc, Hr. reflexivity.
Qed.

Section NumeralFacts.

Context (U : runtime).

Lemma digits_ascii s :
  forallb is_ascii s = true -> digits U s = digits ascii_runtime s.
Proof.
  induction s as [| c s IH]; simpl; [reflexivity |].
  intros H. apply andb_prop in H as [Hc Hs].
  rewrite (to_decimal_ascii U c (is_ascii_range c Hc)).
  unfold ascii_decimal. rewrite (IH Hs). reflexivity.
Qed.

Lemma digits_rest_forallb (p : char -> bool) s :
  forallb p s = true -> forallb p (snd (digits U s)) = true.
Proof.
  induction s as [| c s IH]; simpl; [reflexivity |].
  intros H. pose proof H as H0. apply andb_prop in H as [Hc Hs].
  destruct (to_decimal U c); [| exact H0].
  specialize (IH Hs). destruct (digits U s). exact IH.
Qed.

Lemma int_of_str_plain s n :
  forallb is_ascii (strip s) = true ->
  int_of_str ascii_runtime s = Ok n ->
  int_of_str U s = Ok n.
Proof.
  unfold int_of_str. intros Ha.
  apply sign_of_forallb in Ha.
  destruct (sign_of (strip s)) as [neg body]. simpl in Ha.
  rewrite (digits_ascii body Ha).
  destruct (digits ascii_runtime body) as [[| v vs] [| c r]];
    cbn [int_rest ascii_runtime]; try discriminate.
  destruct (List.length (v :: vs) <=? 640)%nat; [trivial | discriminate].
Qed.

Lemma float_of_str_plain s x :
  forallb is_ascii (strip s) = true ->
  float_of_str ascii_runtime s = Ok x ->
  float_of_str U s = Ok x.
Proof.
  unfold float_of_str. intros Ha.
  apply sign_of_forallb in Ha.
  destruct (sign_of (strip s)) as [neg body]. simpl in Ha.
  rewrite (digits_ascii body Ha).
  pose proof (digits_rest_forallb is_ascii body Ha) as Hr.
  rewrite (digits_ascii body Ha) in Hr.
  destruct (digits ascii_runtime body) as [ip r]. simpl in Hr.
  destruct r as [| c r'].
  - destruct ip; simpl; solve [discriminate | trivial].
  - simpl in Hr. apply andb_prop in Hr as [_ Hr'].
    destruct (c =? 46); [| simpl; discriminate].
    rewrite (digits_ascii r' Hr').
    destruct (digits ascii_runtime r') as [fp r''].
    destruct r''; destruct (ip ++ fp); simpl; solve [discriminate | trivial].
Qed.

(** ** Reading a label back *)

Lemma breakdown_value_cents_body_euro l v :
  contains 8364 l = true ->
  forallb is_ascii (strip (strip (replace 8364 [] l))) = true ->
  int_of_str ascii_runtime (strip (replace 8364 [] l)) = Ok v ->
  forall total cnt,
    breakdown_value_cents_body U total (l, cnt) = Ok (total + v * 100 * cnt).
Proof.
  intros Hc Ha Hv total cnt. unfold breakdown_value_cents_body.
  rewrite Hc, (int_of_str_plain _ _ Ha Hv). reflexivity.
Qed.

Lemma breakdown_value_cents_body_cent l v :
  contains 8364 l = false ->
  forallb is_ascii (strip (strip (replace 99 [] l))) = true ->
  int_of_str ascii_runtime (strip (replace 99 [] l)) = Ok v ->
  forall total cnt,
    breakdown_value_cents_body U total (l, cnt) = Ok (total + v * cnt).
Proof.
  intros Hc Ha Hv total cnt. unfold breakdown_value_cents_body.
  rewrite Hc, (int_of_str_plain _ _ Ha Hv). reflexivity.
Qed.

Lemma labels_read_as_units :
  Forall (reads_as U) (combine DENOM_LABELS MINOR_UNITS).
Proof.
  rewrite DENOM_LABELS_text. unfold MINOR_UNITS. simpl combine.
  repeat (constructor;
    [ intros total cnt; cbv [fst snd];
      match goal with
      | |- breakdown_value_cents_body _ _ (?l, _) = Ok (_ + ?v * _) =>
          first
            [ rewrite (breakdown_value_cents_body_euro l (v / 100)
                         eq_refl eq_refl eq_refl)
            | rewrite (breakdown_value_cents_body_cent l v
                         eq_refl eq_refl eq_refl) ];
          reflexivity
      end |]).
  constructor.
Qed.

Lemma for_each_reads_as lvs :
  Forall (reads_as U) lvs ->
  forall counts total,
    for_each (breakdown_value_cents_body U)
      (combine (map fst lvs) counts) total
    = Ok (total + weighted_sum counts (map snd lvs)).
Proof.
  induction 1 as [| [l v] lvs Hlv _ IH]; intros counts total.
  - simpl. destruct counts; simpl; f_equal; lia.
  - destruct counts as [| c counts]; simpl; [f_equal; lia |].
    pose proof (Hlv total c) as E. simpl in E. rewrite E. simpl.
    rewrite IH. f_equal. lia.
Qed.

Lemma combine_fst_snd {A B} (l : list A) (r : list B) :
  List.length l = List.length r ->
  map fst (combine l r) = l /\ map snd (combine l r) = r.
Proof.
  revert r. induction l as [| a l IH]; intros [| b r]; simpl;
    try discriminate; auto.
  intros [= H]. destruct (IH r H) as [-> ->]. auto.
Qed.

(** The reconstructed value of counts laid out under the labels. *)
Lemma breakdown_value_cents_counts counts :
  breakdown_value_cents U (combine DENOM_LABELS counts)
  = Ok (weighted_sum counts MINOR_UNITS).
Proof.
  unfold breakdown_value_cents.
  destruct (combine_fst_snd DENOM_LABELS MINOR_UNITS eq_refl) as [Hl Hv].
  rewrite <- Hl at 1.
  rewrite (for_each_reads_as _ labels_read_as_units), Hv. reflexivity.
Qed.

End NumeralFacts.


(** C1 (exactness): for every cents amount [C >= 0], the breakdown of [C]
    is computed and the value reconstructed from it is [C] exactly:
    [breakdown_value_cents(compute_breakdown(C)) == C]. *)
Theorem breakdown_value_exact (U : runtime) (C : Z) :
  0 <= C ->
  exists breakdown,
    compute_breakdown C = Ok breakdown
    /\ breakdown_value_cents U breakdown = Ok C.
Proof.
  intros _. eexists. split; [apply compute_breakdown_eq |].
  rewrite breakdown_value_cents_counts, greedy_weighted_sum,
    greedy_MINOR_UNITS_left.
  f_equal. lia.
Qed.

Lemma breakdown_value_exact_witness :
  0 <= 1234
  /\ exists breakdown,
       compute_breakdown 1234 = Ok breakdown
       /\ breakdown_value_cents ascii_runtime breakdown = Ok 1234.
Proof.
  split; [lia | apply (breakdown_value_exact ascii_runtime 1234); lia].
Defined.

(** C2 (greedy): the denominations of [DENOMS_EUR] have the 13 minor-unit
    values [MINOR_UNITS], strictly descending and ending on 1 cent; for
    every cents amount [C >= 0] the loop of [compute_breakdown] issues,
    label by label in that order, the counts of the greedy algorithm
    (count = floor of remainder / value, remainder less count * value
    carried on), and the remainder after the last denomination is 0. *)
Theorem compute_breakdown_is_greedy (C : Z) :
  0 <= C ->
  comprehension (fun denom => round (mul_int denom 100)) DENOMS_EUR
  = Ok MINOR_UNITS
  /\ List.length MINOR_UNITS = 13%nat
  /\ descending MINOR_UNITS
  /\ last MINOR_UNITS 0 = 1
  /\ compute_breakdown_loop C
     = Ok (0, combine DENOM_LABELS (fst (greedy MINOR_UNITS C)))
  /\ compute_breakdown C
     = Ok (combine DENOM_LABELS (fst (greedy MINOR_UNITS C)))
  /\ snd (greedy MINOR_UNITS C) = 0.
Proof.
  intros _.
  split; [exact MINOR_UNITS_loaded |].
  split; [reflexivity |].
  split; [simpl; repeat split; lia |].
  split; [reflexivity |].
  split; [| split; [apply compute_breakdown_eq | apply greedy_MINOR_UNITS_left]].
  rewrite compute_breakdown_loop_eq, greedy_MINOR_UNITS_left. reflexivity.
Qed.

Lemma compute_breakdown_is_greedy_witness :
  0 <= 1234
  /\ compute_breakdown 1234
     = Ok (combine DENOM_LABELS (fst (greedy MINOR_UNITS 1234)))
  /\ snd (greedy MINOR_UNITS 1234) = 0.
Proof.
  split; [lia |].
  pose proof (compute_breakdown_is_greedy 1234 ltac:(lia)) as H.
  split; apply H.
Defined.

(** C5 as stated fails: the breakdown of the integer -1 has a negative
    count (-1 pieces of 100 euros). *)
Lemma counts_nonnegative_for_all_integers_fails :
  ~ (forall C breakdown,
       compute_breakdown C = Ok breakdown ->
       Forall (fun item => 0 <= snd item) breakdown).
Proof.
  intros H.
  specialize (H (-1) _ (compute_breakdown_eq (-1))).
  vm_compute in H. inversion H as [| ? ? Hneg _]. apply Hneg. reflexivity.
Qed.

(** C5 (amended): for every cents amount [C >= 0] the breakdown is
    computed and each of its counts is [>= 0]; and [compute_breakdown] is
    deterministic: equal amounts give equal breakdowns. *)
Theorem counts_nonnegative (C : Z) :
  0 <= C ->
  (exists breakdown,
     compute_breakdown C = Ok breakdown
     /\ Forall (fun item => 0 <= snd item) breakdown)
  /\ (forall C', C' = C -> compute_breakdown C' = compute_breakdown C).
Proof.
  intros HC. split; [| intros C' ->; reflexivity].
  eexists. split; [apply compute_breakdown_eq |].
  destruct (greedy_nonneg MINOR_UNITS C MINOR_UNITS_positive HC) as [Hc _].
  pose proof (greedy_length MINOR_UNITS C) as Hlen.
  destruct (combine_fst_snd DENOM_LABELS (fst (greedy MINOR_UNITS C)))
    as [_ Hs]; [rewrite Hlen; reflexivity |].
  apply Forall_forall. intros [l c] Hin. simpl.
  assert (Hin' : In c (map snd (combine DENOM_LABELS (fst (greedy MINOR_UNITS C))))).
  { change c with (snd (l, c)). apply in_map. exact Hin. }
  rewrite Hs in Hin'. rewrite Forall_forall in Hc. apply Hc. exact Hin'.
Qed.

Lemma counts_nonnegative_witness :
  0 <= 1234
  /\ exists breakdown,
       compute_breakdown 1234 = Ok breakdown
       /\ Forall (fun item => 0 <= snd item) breakdown.
Proof.
  split; [lia | apply (counts_nonnegative 1234); lia].
Defined.

(** C10 (label round trip): for each denomination [d] of [DENOMS_EUR],
    the label [euro_label(d)] read back the way [breakdown_value_cents]
    reads one piece of it (without the euro sign and times 100, or
    without the c) is the minor-unit value [int(round(d * 100))] of [d]. *)
Theorem label_round_trip (U : runtime) (d : number) :
  In d DENOMS_EUR ->
  exists label value,
    euro_label d = Ok label
    /\ round (mul_int d 100) = Ok value
    /\ breakdown_value_cents U [(label, 1)] = Ok value.
Proof.
  intros Hin.
  pose proof (labels_read_as_units U) as Hr.
  rewrite DENOM_LABELS_text in Hr. unfold MINOR_UNITS in Hr. simpl combine in Hr.
  rewrite Forall_forall in Hr.
  assert (Hone : forall l v, In (l, v)
             (combine (map lit ["100 €"; "50 €"; "20 €"; "10 €"; "5 €"; "2 €";
                                "1 €"; "50 c"; "20 c"; "10 c"; "5 c"; "2 c";
                                "1 c"]%string) MINOR_UNITS) ->
             breakdown_value_cents U [(l, 1)] = Ok v).
  { intros l v Hlv. specialize (Hr (l, v) Hlv 0 1). cbn [fst snd] in Hr.
    unfold breakdown_value_cents. cbn [for_each]. rewrite Hr. cbn [bind].
    f_equal. lia. }
  unfold DENOMS_EUR in Hin. simpl in Hin.
  repeat destruct Hin as [<- | Hin];
    try (eexists; eexists;
         split; [vm_compute; reflexivity |];
         split; [vm_compute; reflexivity |];
         apply Hone; simpl; tauto).
  contradiction.
Qed.

Lemma label_round_trip_witness :
  In (Float (strtod false 20 2)) DENOMS_EUR
  /\ exists label value,
       euro_label (Float (strtod false 20 2)) = Ok label
       /\ round (mul_int (Float (strtod false 20 2)) 100) = Ok value
       /\ breakdown_value_cents ascii_runtime [(label, 1)] = Ok value.
Proof.
  assert (H : In (Float (strtod false 20 2)) DENOMS_EUR)
    by (do 8 right; left; reflexivity).
  split; [exact H | exact (label_round_trip ascii_runtime _ H)].
Defined.

(** ** Person codes *)

Lemma letters_value_snoc s c :
  letters_value (s ++ [c]) = letters_value s * 26 + (c - 64).
Proof. unfold letters_value. rewrite fold_left_app. reflexivity. Qed.

(** The loop writes its letters in front of what is already there. *)
Lemma idx_to_person_code_loop_app idx :
  0 <= idx ->
  forall s, idx_to_person_code_loop idx s = idx_to_person_code_loop idx [] ++ s.
Proof.
  intros Hidx. pattern idx. apply Z_lt_induction; [| exact Hidx].
  clear idx Hidx. intros idx IH s.
  rewrite (idx_to_person_code_loop_equation idx s),
    (idx_to_person_code_loop_equation idx []).
  destruct (0 <? idx) eqn:Hpos; [| reflexivity].
  apply Z.ltb_lt in Hpos.
  assert (Hq : 0 <= (idx - 1) / 26 < idx).
  { split; [apply Z.div_pos; lia |].
    apply Z.div_lt_upper_bound; lia. }
  rewrite (IH _ Hq (_ :: s)), (IH _ Hq [_]).
  rewrite <- app_assoc. reflexivity.
Qed.

Lemma idx_to_person_code_loop_value idx :
  0 <= idx -> letters_value (idx_to_person_code_loop idx []) = idx.
Proof.
  intros Hidx. pattern idx. apply Zlt_0_ind; [| exact Hidx].
  clear idx Hidx. intros idx IH Hidx.
  rewrite idx_to_person_code_loop_equation.
  destruct (0 <? idx) eqn:Hpos.
  - apply Z.ltb_lt in Hpos.
    assert (Hq : 0 <= (idx - 1) / 26 < idx).
    { split; [apply Z.div_pos; lia |].
      apply Z.div_lt_upper_bound; lia. }
    rewrite (idx_to_person_code_loop_app _ (proj1 Hq)), letters_value_snoc.
    rewrite (IH _ Hq).
    pose proof (Z_div_mod_eq_full (idx - 1) 26). lia.
  - apply Z.ltb_ge in Hpos.
    assert (idx = 0) by lia. subst. reflexivity.
Qed.

Lemma idx_to_person_code_value idx :
  0 <= idx -> letters_value (idx_to_person_code idx) = idx + 1.
Proof.
  intros H. unfold idx_to_person_code.
  apply idx_to_person_code_loop_value. lia.
Qed.

(** C7: [idx_to_person_code] is injective on the natural numbers, and it
    writes the bijective base-26 letter code: 0 is A, 1 is B, 25 is Z,
    26 is AA, 27 is AB, 701 is ZZ and 702 is AAA. *)
Theorem idx_to_person_code_injective :
  (forall i j, 0 <= i -> 0 <= j ->
     idx_to_person_code i = idx_to_person_code j -> i = j)
  /\ idx_to_person_code 0 = lit "A"
  /\ idx_to_person_code 1 = lit "B"
  /\ idx_to_person_code 25 = lit "Z"
  /\ idx_to_person_code 26 = lit "AA"
  /\ idx_to_person_code 27 = lit "AB"
  /\ idx_to_person_code 701 = lit "ZZ"
  /\ idx_to_person_code 702 = lit "AAA".
Proof.
  split.
  - intros i j Hi Hj E.
    apply (f_equal letters_value) in E.
    rewrite !idx_to_person_code_value in E by assumption. lia.
  - repeat split; vm_compute; reflexivity.
Qed.

Lemma idx_to_person_code_injective_witness :
  0 <= 27 /\ idx_to_person_code 27 = idx_to_person_code (26 + 1) /\ 27 = 26 + 1.
Proof.
  split; [lia |]. split; [reflexivity |].
  apply (proj1 idx_to_person_code_injective 27 (26 + 1)); [lia | lia | reflexivity].
Defined.

(** ** Optimality of the greedy breakdown *)

Lemma greedy_count_cons v values amount :
  greedy_count (v :: values) amount
  = amount / v + greedy_count values (amount mod v).
Proof.
  unfold greedy_count. simpl. rewrite greedy_step_mod.
  destruct (greedy values (amount mod v)) as [cs lo].
  reflexivity.
Qed.

Lemma greedy_count_top amount :
  greedy_count MINOR_UNITS amount
  = amount / 10000 + greedy_count SMALLER_UNITS (amount mod 10000).
Proof. apply greedy_count_cons. Qed.

Lemma one_more_piece_below_100_euros :
  forallb one_more_piece_ok below_100_euros = true.
Proof. vm_compute. reflexivity. Qed.

Lemma one_more_piece_ok_all r : 0 <= r < 10000 -> one_more_piece_ok r = true.
Proof.
  intros Hr.
  pose proof one_more_piece_below_100_euros as H.
  rewrite forallb_forall in H. apply H.
  apply in_map_iff. exists (Z.to_nat r). split; [apply Z2Nat.id; lia |].
  apply in_seq. split; [apply Nat.le_0_l |].
  apply Z2Nat.inj_lt; lia.
Qed.

(** Adding one piece to an amount costs greedy at most one piece. *)
Lemma greedy_count_one_more amount d :
  0 <= amount -> In d MINOR_UNITS ->
  greedy_count MINOR_UNITS (amount + d) <= greedy_count MINOR_UNITS amount + 1.
Proof.
  intros Ha Hd. rewrite !greedy_count_top.
  destruct Hd as [<- | Hd].
  - replace (amount + 10000) with (amount + 1 * 10000) by lia.
    rewrite Z.div_add, Z.mod_add by lia. lia.
  - fold SMALLER_UNITS in Hd.
    pose proof (Z_div_mod_eq_full amount 10000) as Hdm.
    pose proof (Z.mod_pos_bound amount 10000 ltac:(lia)) as Hr.
    set (q := amount / 10000) in *. set (r := amount mod 10000) in *.
    pose proof (one_more_piece_ok_all r Hr) as Hok.
    unfold one_more_piece_ok in Hok. rewrite forallb_forall in Hok.
    specialize (Hok d Hd).
    assert (Hdb : 0 < d < 10000).
    { unfold SMALLER_UNITS in Hd. simpl in Hd.
      repeat destruct Hd as [<- | Hd]; solve [lia | contradiction]. }
    destruct (r + d <? 10000) eqn:Hlt.
    + apply Z.ltb_lt in Hlt. apply Z.leb_le in Hok.
      assert (Hq : (amount + d) / 10000 = q).
      { symmetry. apply (Z.div_unique _ _ q (r + d)); lia. }
      assert (Hm : (amount + d) mod 10000 = r + d).
      { symmetry. apply (Z.mod_unique _ _ q (r + d)); lia. }
      rewrite Hq, Hm. lia.
    + apply Z.ltb_ge in Hlt. apply Z.leb_le in Hok.
      assert (Hq : (amount + d) / 10000 = q + 1).
      { symmetry. apply (Z.div_unique _ _ (q + 1) (r + d - 10000)); lia. }
      assert (Hm : (amount + d) mod 10000 = r + d - 10000).
      { symmetry. apply (Z.mod_unique _ _ (q + 1) (r + d - 10000)); lia. }
      rewrite Hq, Hm. lia.
Qed.

(** Greedy uses no more pieces than any pile of pieces of the same worth. *)
Lemma greedy_count_pile (pile : list Z) :
  Forall (fun d => In d MINOR_UNITS) pile ->
  0 <= sum pile
  /\ greedy_count MINOR_UNITS (sum pile) <= Z.of_nat (List.length pile).
Proof.
  induction 1 as [| d pile Hd _ [IH0 IH]].
  - split; [simpl; lia | vm_compute; discriminate].
  - assert (0 < d).
    { pose proof MINOR_UNITS_positive as Hp. rewrite Forall_forall in Hp.
      apply Hp. exact Hd. }
    split; [unfold sum in *; simpl; lia |].
    change (sum (d :: pile)) with (d + sum pile).
    rewrite Z.add_comm.
    pose proof (greedy_count_one_more (sum pile) d IH0 Hd).
    change (List.length (d :: pile)) with (S (List.length pile)). lia.
Qed.

Lemma sum_app xs ys : sum (xs ++ ys) = sum xs + sum ys.
Proof.
  unfold sum. induction xs as [| x xs IH]; simpl; [reflexivity |].
  rewrite IH. lia.
Qed.

Lemma sum_repeat v n : sum (repeat v n) = Z.of_nat n * v.
Proof.
  unfold sum. induction n as [| n IH]; [reflexivity |].
  cbn [repeat fold_right]. rewrite IH. lia.
Qed.

Lemma pile_of_facts counts :
  Forall (fun c => 0 <= c) counts ->
  forall values,
    sum (pile_of counts values) = weighted_sum counts values
    /\ (List.length counts = List.length values ->
        Z.of_nat (List.length (pile_of counts values)) = sum counts)
    /\ Forall (fun d => In d values) (pile_of counts values).
Proof.
  induction 1 as [| c counts Hc _ IH]; intros [| v values]; simpl;
    try (repeat split; solve [constructor | discriminate | reflexivity]).
  destruct (IH values) as (IHs & IHl & IHin).
  repeat split.
  - rewrite sum_app, sum_repeat, IHs, Z2Nat.id by exact Hc. reflexivity.
  - intros [= Hlen].
    rewrite length_app, repeat_length, Nat2Z.inj_add, (IHl Hlen),
      Z2Nat.id by exact Hc.
    reflexivity.
  - apply Forall_app. split.
    + apply Forall_forall. intros x Hx. apply repeat_spec in Hx. subst. left.
      reflexivity.
    + eapply Forall_impl; [| exact IHin]. intros a Ha. right. exact Ha.
Qed.

(** C8 (optimality): for every cents amount [C >= 0], the breakdown
    [compute_breakdown] returns for [C] carries the 13 labels in their
    order with counts that are a decomposition of [C] (one count for each
    denomination, none negative, worth [C] together), and it has no more
    pieces than any decomposition of [C] into non-negative counts over
    the 13 denominations. *)
Theorem compute_breakdown_optimal (C : Z) :
  0 <= C ->
  exists breakdown,
    compute_breakdown C = Ok breakdown
    /\ map fst breakdown = DENOM_LABELS
    /\ decomposition (map snd breakdown) C
    /\ forall counts,
         decomposition counts C -> total_pieces breakdown <= sum counts.
Proof.
  intros HC.
  eexists. split; [apply compute_breakdown_eq |].
  unfold total_pieces.
  destruct (combine_fst_snd DENOM_LABELS (fst (greedy MINOR_UNITS C)))
    as [-> ->]; [rewrite greedy_length; reflexivity |].
  split; [reflexivity |]. split.
  - split; [apply greedy_length |]. split.
    + apply (greedy_nonneg MINOR_UNITS C MINOR_UNITS_positive HC).
    + rewrite greedy_weighted_sum, greedy_MINOR_UNITS_left. lia.
  - intros counts (Hlen & Hnonneg & Hworth).
    destruct (pile_of_facts counts Hnonneg MINOR_UNITS) as (Hs & Hl & Hin).
    destruct (greedy_count_pile _ Hin) as [_ Hle].
    rewrite Hs, Hworth, (Hl Hlen) in Hle. exact Hle.
Qed.

Lemma compute_breakdown_optimal_witness :
  0 <= 40
  /\ decomposition [0; 0; 0; 0; 0; 0; 0; 0; 0; 4; 0; 0; 0] 40
  /\ exists breakdown,
       compute_breakdown 40 = Ok breakdown
       /\ map fst breakdown = DENOM_LABELS
       /\ decomposition (map snd breakdown) 40
       /\ total_pieces breakdown
          <= sum [0; 0; 0; 0; 0; 0; 0; 0; 0; 4; 0; 0; 0].
Proof.
  assert (H0 : 0 <= 40) by lia.
  assert (Hd : decomposition [0; 0; 0; 0; 0; 0; 0; 0; 0; 4; 0; 0; 0] 40).
  { split; [reflexivity |]. split; [| reflexivity].
    repeat constructor; lia. }
  split; [exact H0 |]. split; [exact Hd |].
  destruct (compute_breakdown_optimal 40 H0) as (b & Hb & Hk & Hdec & Hopt).
  exists b. split; [exact Hb |]. split; [exact Hk |].
  split; [exact Hdec | exact (Hopt _ Hd)].
Defined.

(** ** Aggregation *)

Lemma get_setitem_same (d : dict Z) k v default :
  get (setitem d k v) k default = v.
Proof.
  induction d as [| [k' v'] d IH]; simpl.
  - rewrite str_eqb_refl. reflexivity.
  - destruct (str_eqb k' k) eqn:E; simpl; rewrite E; [reflexivity | exact IH].
Qed.

Lemma get_setitem_other (d : dict Z) k v k0 default :
  k <> k0 -> get (setitem d k v) k0 default = get d k0 default.
Proof.
  intros Hne. induction d as [| [k' v'] d IH]; simpl.
  - rewrite str_eqb_neq by exact Hne. reflexivity.
  - destruct (str_eqb k' k) eqn:E; simpl.
    + apply str_eqb_eq in E. subst k'.
      rewrite str_eqb_neq by exact Hne. reflexivity.
    + destruct (str_eqb k' k0); [reflexivity | exact IH].
Qed.

Lemma getitem_present (d : dict Z) k :
  In k (map fst d) -> getitem d k = Ok (get d k 0).
Proof.
  induction d as [| [k' v'] d IH]; simpl; [contradiction |].
  intros [-> | Hin].
  - rewrite str_eqb_refl. reflexivity.
  - destruct (str_eqb k' k); [reflexivity | exact (IH Hin)].
Qed.

Lemma setitem_present_keys (d : dict Z) k v :
  In k (map fst d) -> map fst (setitem d k v) = map fst d.
Proof.
  induction d as [| [k' v'] d IH]; simpl; [contradiction |].
  intros Hin. destruct (str_eqb k' k) eqn:E; simpl; [reflexivity |].
  f_equal. apply IH. destruct Hin as [-> | Hin]; [| exact Hin].
  rewrite str_eqb_refl in E. discriminate.
Qed.

Lemma get_unique_keys (d : dict Z) :
  NoDup (map fst d) -> map (fun k => get d k 0) (map fst d) = map snd d.
Proof.
  induction d as [| [k v] d IH]; simpl; [reflexivity |].
  intros Hnd. inversion Hnd as [| ? ? Hnotin Hnd']; subst.
  rewrite str_eqb_refl. f_equal.
  rewrite <- (IH Hnd'). apply map_ext_in.
  intros k' Hin. rewrite str_eqb_neq; [reflexivity |].
  intros ->. contradiction.
Qed.

Lemma counts_of_ordered b :
  map fst b = DENOM_LABELS -> counts_of b = map snd b.
Proof.
  unfold counts_of. intros Hb.
  rewrite <- Hb. apply get_unique_keys. rewrite Hb. exact DENOM_LABELS_NoDup.
Qed.






Lemma add_counts_map {A} (f g : A -> Z) (l : list A) :
  add_counts (map f l) (map g l) = map (fun a => f a + g a) l.
Proof. induction l as [| a l IH]; simpl; [reflexivity | f_equal; exact IH]. Qed.

Lemma weighted_sum_add xs ys values :
  List.length xs = List.length ys ->
  weighted_sum (add_counts xs ys) values
  = weighted_sum xs values + weighted_sum ys values.
Proof.
  revert ys values. induction xs as [| x xs IH]; intros [| y ys] values;
    simpl; try discriminate; [reflexivity |].
  intros [= Hlen]. destruct values as [| v values]; [reflexivity |].
  rewrite (IH ys values Hlen). lia.
Qed.


Lemma add_counts_length xs ys :
  List.length xs = List.length ys ->
  List.length (add_counts xs ys) = List.length xs.
Proof.
  revert ys. induction xs as [| x xs IH]; intros [| y ys]; simpl;
    try discriminate; [reflexivity |].
  intros [= Hlen]. rewrite (IH ys Hlen). reflexivity.
Qed.

(** The inner loop adds the counts of the breakdown, label by label, and
    keeps the keys of [summary_counts]. *)
Lemma calc_label_loop (b : dict Z) (labels : list str) :
  NoDup labels ->
  forall row counts,
    (forall l, In l labels -> In l (map fst counts)) ->
    exists row' counts',
      for_each (calc_label_body b) labels (row, counts) = Ok (row', counts')
      /\ map fst counts' = map fst counts
      /\ (forall l, In l labels ->
            get counts' l 0 = get counts l 0 + get b l 0)
      /\ (forall l, ~ In l labels -> get counts' l 0 = get counts l 0).
Proof.
  induction 1 as [| lbl labels Hnotin Hnd IH]; intros row counts Hkeys.
  - exists row, counts. simpl. repeat split; try reflexivity. contradiction.
  - cbn [for_each]. unfold calc_label_body at 1.
    rewrite (getitem_present counts lbl) by (apply Hkeys; left; reflexivity).
    cbn [bind].
    set (counts1 := setitem counts lbl (get counts lbl 0 + get b lbl 0)).
    assert (Hk1 : map fst counts1 = map fst counts).
    { apply setitem_present_keys. apply Hkeys. left. reflexivity. }
    destruct (IH (setitem row lbl (get b lbl 0)) counts1)
      as (row' & counts' & Hrun & Hk & Hin & Hout).
    { intros l Hl. rewrite Hk1. apply Hkeys. right. exact Hl. }
    exists row', counts'. split; [exact Hrun |].
    split; [rewrite Hk; exact Hk1 |]. split.
    + intros l [<- | Hl].
      * rewrite (Hout lbl Hnotin). unfold counts1.
        apply get_setitem_same.
      * rewrite (Hin l Hl). unfold counts1.
        rewrite get_setitem_other; [reflexivity |].
        intros ->. contradiction.
    + intros l Hl. rewrite (Hout l); [| intros Hl'; apply Hl; right; exact Hl'].
      unfold counts1. apply get_setitem_other.
      intros ->. apply Hl. left. reflexivity.
Qed.

Section AggregationFacts.

Context (U : runtime).




Lemma add_all_counts_worth rows :
  Forall (fun row => List.length row = List.length MINOR_UNITS) rows ->
  forall so_far,
    List.length so_far = List.length MINOR_UNITS ->
    weighted_sum (add_all_counts rows so_far) MINOR_UNITS
    = weighted_sum so_far MINOR_UNITS
      + sum (map (fun row => weighted_sum row MINOR_UNITS) rows).
Proof.
  unfold add_all_counts.
  induction 1 as [| row rows Hrow _ IH]; intros so_far Hlen.
  - unfold sum. cbn [fold_left map fold_right]. lia.
  - cbn [fold_left]. rewrite IH.
    + rewrite weighted_sum_add by (rewrite Hrow, Hlen; reflexivity).
      unfold sum. cbn [map fold_right]. lia.
    + rewrite add_counts_length; [exact Hrow | rewrite Hrow, Hlen; reflexivity].
Qed.

Lemma calc_init_keys :
  map fst (shown_summary_counts calc_init) = DENOM_LABELS.
Proof. vm_compute. reflexivity. Qed.

Lemma calc_init_counts :
  counts_of (shown_summary_counts calc_init) = map (fun _ => 0) MINOR_UNITS.
Proof. vm_compute. reflexivity. Qed.

Lemma worth_greedy c :
  worth (combine DENOM_LABELS (fst (greedy MINOR_UNITS c))) = c.
Proof.
  destruct (combine_fst_snd DENOM_LABELS (fst (greedy MINOR_UNITS c)))
    as [Hk Hc]; [rewrite greedy_length; apply DENOM_LABELS_length |].
  unfold worth. rewrite (counts_of_ordered _ Hk), Hc.
  rewrite greedy_weighted_sum, greedy_MINOR_UNITS_left. lia.
Qed.

Lemma counts_of_length d : List.length (counts_of d) = List.length MINOR_UNITS.
Proof. unfold counts_of. rewrite length_map. apply DENOM_LABELS_length. Qed.

End AggregationFacts.

(** ** The pattern matcher decides the language of a pattern *)

Lemma nullable_matches r : nullable r = true <-> matches r [].
Proof.
  split.
  - induction r as [| | p | a IHa b IHb | a IHa b IHb | a IHa]; simpl; intros H;
      try discriminate.
    + constructor.
    + apply andb_prop in H as [Ha Hb].
      change (@nil char) with (@nil char ++ []).
      constructor; auto.
    + apply orb_prop in H as [Ha | Hb]; [apply m_or_l | apply m_or_r]; auto.
    + constructor.
  - intros H. remember [] as s eqn:Es.
    induction H as [| p c Hp | a b s t Ha IHa Hb IHb | a b s Ha IHa
                    | a b s Hb IHb | a | a s t Ha IHa Hs IHs]; simpl;
      try reflexivity; try discriminate.
    + apply app_eq_nil in Es as [-> ->].
      rewrite IHa, IHb by reflexivity. reflexivity.
    + rewrite IHa by exact Es. reflexivity.
    + rewrite IHb by exact Es. apply orb_true_r.
Qed.

Lemma deriv_matches c r s : matches (deriv c r) s <-> matches r (c :: s).
Proof.
  split.
  - revert s.
    induction r as [| | p | a IHa b IHb | a IHa b IHb | a IHa]; simpl; intros s H.
    + inversion H.
    + inversion H.
    + destruct (p c) eqn:Hp; inversion H; subst.
      constructor. exact Hp.
    + destruct (nullable a) eqn:Hn.
      * inversion H as [| | | ? ? ? H1 | ? ? ? H1 | |]; subst.
        -- inversion H1 as [| | ? ? u v Hu Hv | | | |]; subst.
           change (c :: u ++ v) with ((c :: u) ++ v).
           constructor; auto.
        -- change (c :: s) with ([] ++ c :: s).
           constructor; [apply nullable_matches; exact Hn | auto].
      * inversion H as [| | ? ? u v Hu Hv | | | |]; subst.
        change (c :: u ++ v) with ((c :: u) ++ v).
        constructor; auto.
    + inversion H; subst; [apply m_or_l | apply m_or_r]; auto.
    + inversion H as [| | ? ? u v Hu Hv | | | |]; subst.
      change (c :: u ++ v) with ((c :: u) ++ v).
      constructor; auto.
  - intros H. remember (c :: s) as cs eqn:Ecs. revert s Ecs.
    induction H as [| p c' Hp | a b u v Ha IHa Hb IHb | a b u Ha IHa
                    | a b u Hb IHb | a | a u v Ha IHa Hs IHs]; intros s Ecs;
      simpl; try discriminate.
    + injection Ecs as -> <-. rewrite Hp. constructor.
    + destruct u as [| c' u'].
      * simpl in Ecs. subst v.
        assert (Hn : nullable a = true) by (apply nullable_matches; exact Ha).
        rewrite Hn. apply m_or_r. apply IHb. reflexivity.
      * simpl in Ecs. injection Ecs as -> <-.
        destruct (nullable a).
        -- apply m_or_l. constructor; [apply IHa; reflexivity | exact Hb].
        -- constructor; [apply IHa; reflexivity | exact Hb].
    + apply m_or_l. apply IHa. exact Ecs.
    + apply m_or_r. apply IHb. exact Ecs.
    + destruct u as [| c' u'].
      * simpl in Ecs. apply IHs. exact Ecs.
      * simpl in Ecs. injection Ecs as -> <-.
        constructor; [apply IHa; reflexivity | exact Hs].
Qed.

Lemma fullmatch_matches r s : fullmatch r s = true <-> matches r s.
Proof.
  revert r. induction s as [| c s IH]; intros r; simpl.
  - apply nullable_matches.
  - rewrite IH. apply deriv_matches.
Qed.

(** What a repeated character class matches. *)
Lemma matches_star_class p s :
  matches (Star (Class p)) s <-> Forall (fun c => p c = true) s.
Proof.
  split.
  - intros H. remember (Star (Class p)) as r eqn:Er.
    induction H as [| | | | | a | a u v Ha _ Hs IHs]; try discriminate.
    + constructor.
    + injection Er as ->. inversion Ha; subst.
      constructor; [assumption | apply IHs; reflexivity].
  - induction 1 as [| c s Hc _ IH].
    + constructor.
    + change (c :: s) with ([c] ++ s).
      constructor; [constructor; exact Hc | exact IH].
Qed.

(** ** The amount pattern and the accepted shape *)

Section PatternFacts.

Context (U : runtime).

Lemma matches_plus_digits s :
  matches (Plus (Class (isdecimal U))) s
  <-> s <> [] /\ Forall (fun c => isdecimal U c = true) s.
Proof.
  unfold Plus. split.
  - intros H. inversion H as [| | ? ? u v Hu Hv | | | |]; subst.
    inversion Hu; subst. apply matches_star_class in Hv.
    split; [discriminate | constructor; assumption].
  - intros [Hne Hall]. destruct Hall as [| c s Hc Hs]; [contradiction |].
    change (c :: s) with ([c] ++ s).
    constructor; [constructor; exact Hc | apply matches_star_class; exact Hs].
Qed.

Lemma matches_upto_2_digits s :
  matches (UpTo 2 (Class (isdecimal U))) s
  <-> Forall (fun c => isdecimal U c = true) s /\ (List.length s <= 2)%nat.
Proof.
  simpl UpTo. unfold Opt. split.
  - intros H.
    inversion H as [| | | ? ? ? K1 | ? ? ? K1 | |]; subst;
      [| inversion K1; subst; split; [constructor | simpl; lia]].
    inversion K1 as [| | ? ? u v Hu Hv | | | |]; subst.
    inversion Hu; subst.
    inversion Hv as [| | | ? ? ? K2 | ? ? ? K2 | |]; subst;
      [| inversion K2; subst; split; [repeat constructor; assumption | simpl; lia]].
    inversion K2 as [| | ? ? u' v' Hu' Hv' | | | |]; subst.
    inversion Hu'; subst. inversion Hv'; subst.
    split; [repeat constructor; assumption | simpl; lia].
  - intros [Hall Hlen].
    destruct Hall as [| c1 s Hc1 Hall]; [apply m_or_r; constructor |].
    apply m_or_l. change (c1 :: s) with ([c1] ++ s).
    constructor; [constructor; exact Hc1 |].
    destruct Hall as [| c2 s Hc2 Hall]; [apply m_or_r; constructor |].
    apply m_or_l. change (c2 :: s) with ([c2] ++ s).
    constructor; [constructor; exact Hc2 |].
    destruct s; [constructor | simpl in Hlen; lia].
Qed.

Lemma separator_spec c :
  (c =? 44) || (c =? 46) = true <-> c = 44 \/ c = 46.
Proof. rewrite orb_true_iff, !Z.eqb_eq. reflexivity. Qed.

(** The pattern of the source denotes the shape of the specification. *)
Lemma AMOUNT_PATTERN_shape s :
  fullmatch (AMOUNT_PATTERN U) s = true <-> amount_shape U s.
Proof.
  rewrite fullmatch_matches. unfold AMOUNT_PATTERN, amount_shape. split.
  - intros H. inversion H as [| | ? ? whole rest Hw Hr | | | |]; subst.
    apply matches_plus_digits in Hw as [Hne Hall].
    exists whole. split; [exact Hne |]. split; [exact Hall |].
    unfold Opt in Hr.
    inversion Hr as [| | | ? ? ? K1 | ? ? ? K1 | |]; subst.
    + right. inversion K1 as [| | ? ? u decimals Hu Hd | | | |]; subst.
      inversion Hu as [| ? sep Hsep | | | | |]; subst.
      apply separator_spec in Hsep.
      apply matches_upto_2_digits in Hd as [Hd Hlen].
      exists sep, decimals. repeat split; assumption.
    + left. inversion K1; subst. rewrite app_nil_r. reflexivity.
  - intros (whole & Hne & Hall & [-> | (sep & decimals & Hsep & Hd & Hlen & ->)]).
    + rewrite <- (app_nil_r whole).
      constructor; [apply matches_plus_digits; split; assumption |].
      apply m_or_r. constructor.
    + constructor; [apply matches_plus_digits; split; assumption |].
      apply m_or_l. change (sep :: decimals) with ([sep] ++ decimals).
      constructor.
      * constructor. apply separator_spec. exact Hsep.
      * apply matches_upto_2_digits. split; assumption.
Qed.

End PatternFacts.

(** ** Strings without white space, and what [strip] and [replace] keep *)

Lemma lstrip_forallb (p : char -> bool) s :
  forallb p s = true -> forallb p (lstrip s) = true.
Proof.
  induction s as [| c s IH]; simpl; [reflexivity |].
  intros H. destruct (isspace c); [| exact H].
  apply andb_prop in H as [_ H]. exact (IH H).
Qed.

Lemma forallb_rev (p : char -> bool) s :
  forallb p s = true -> forallb p (rev s) = true.
Proof.
  rewrite !forallb_forall. intros H c Hc. apply H. apply in_rev. exact Hc.
Qed.

Lemma strip_forallb (p : char -> bool) s :
  forallb p s = true -> forallb p (strip s) = true.
Proof.
  intros H. unfold strip, rstrip.
  apply forallb_rev, lstrip_forallb, forallb_rev, lstrip_forallb. exact H.
Qed.

Lemma replace_forallb (p : char -> bool) old new s :
  forallb p new = true -> forallb p s = true ->
  forallb p (replace old new s) = true.
Proof.
  intros Hn. unfold replace.
  induction s as [| c s IH]; simpl; [reflexivity |].
  intros H. apply andb_prop in H as [Hc Hs].
  rewrite forallb_app, (IH Hs), andb_true_r.
  destruct (c =? old); [exact Hn | simpl; rewrite Hc; reflexivity].
Qed.

Lemma replace_absent old new s :
  Forall (fun c => c <> old) s -> replace old new s = s.
Proof.
  unfold replace. induction 1 as [| c s Hc _ IH]; simpl; [reflexivity |].
  rewrite IH. destruct (c =? old) eqn:E; [| reflexivity].
  apply Z.eqb_eq in E. contradiction.
Qed.

Lemma replace_app old new s t :
  replace old new (s ++ t) = replace old new s ++ replace old new t.
Proof. apply flat_map_app. Qed.

Lemma strip_no_space s :
  Forall (fun c => isspace c = false) s -> strip s = s.
Proof.
  assert (Hl : forall t, Forall (fun c => isspace c = false) t -> lstrip t = t).
  { intros t Ht. destruct Ht as [| c t Hc _]; simpl; [reflexivity |].
    rewrite Hc. reflexivity. }
  intros H. unfold strip, rstrip. rewrite (Hl s H), Hl.
  - apply rev_involutive.
  - apply Forall_rev. exact H.
Qed.

(** ** A float read from a numeral without sign is not negative *)

Lemma strtod_not_negative n k :
  flt (strtod false n k) (float_of_int 0) = false.
Proof.
  change (float_of_int 0) with (S754_zero false).
  unfold strtod.
  assert (H : forall m e l,
             flt (binary_round_aux prec emax false m e l) (S754_zero false)
             = false).
  { intros m e l. unfold binary_round_aux.
    destruct (shr_fexp prec emax m e l) as [mrs' e'].
    destruct (shr_fexp prec emax _ e' loc_Exact) as [mrs'' e''].
    destruct (shr_m mrs''); [reflexivity | | reflexivity].
    destruct (e'' <=? emax - prec); reflexivity. }
  destruct n; [reflexivity | |];
    destruct (SFdiv_core_binary prec emax _ 0 _ 0) as [[m e] l]; apply H.
Qed.

(** ** A float read from digits is zero, positive or plus infinity *)

Lemma shr_1_nonneg mrs : 0 <= shr_m mrs -> 0 <= shr_m (shr_1 mrs).
Proof.
  destruct mrs as [m r s]. simpl.
  destruct m as [| p | p]; simpl; intros H; try lia;
    destruct p; simpl; lia.
Qed.

Lemma iter_pos_shr_1_nonneg p :
  forall mrs, 0 <= shr_m mrs -> 0 <= shr_m (iter_pos shr_1 p mrs).
Proof.
  induction p as [p IH | p IH |]; intros mrs H; simpl.
  - apply IH, IH, shr_1_nonneg, H.
  - apply IH, IH, H.
  - apply shr_1_nonneg, H.
Qed.

Lemma shr_fexp_nonneg m e l :
  0 <= m -> 0 <= shr_m (fst (shr_fexp prec emax m e l)).
Proof.
  intros H. unfold shr_fexp, shr.
  assert (H0 : 0 <= shr_m (shr_record_of_loc m l)).
  { destruct l as [| []]; exact H. }
  destruct (fexp prec emax (Zdigits2 m + e) - e); simpl; try exact H0.
  apply iter_pos_shr_1_nonneg. exact H0.
Qed.

Lemma round_nearest_even_nonneg m l : 0 <= m -> 0 <= round_nearest_even m l.
Proof.
  intros H. unfold round_nearest_even.
  destruct l as [| []]; try lia. destruct (Z.even m); lia.
Qed.

Lemma binary_round_aux_nonneg m e l :
  0 <= m ->
  fle (S754_zero false) (binary_round_aux prec emax false m e l) = true.
Proof.
  intros H. unfold binary_round_aux.
  pose proof (shr_fexp_nonneg m e l H) as H1.
  destruct (shr_fexp prec emax m e l) as [mrs' e']. simpl in H1.
  pose proof (shr_fexp_nonneg _ e' loc_Exact
                (round_nearest_even_nonneg _ (loc_of_shr_record mrs') H1)) as H2.
  destruct (shr_fexp prec emax _ e' loc_Exact) as [mrs'' e'']. simpl in H2.
  destruct (shr_m mrs''); [reflexivity | | lia].
  destruct (e'' <=? emax - prec); reflexivity.
Qed.

Lemma strtod_nonneg n k :
  0 <= n -> fle (float_of_int 0) (strtod false n k) = true.
Proof.
  change (float_of_int 0) with (S754_zero false).
  intros Hn. unfold strtod.
  destruct n as [| p | p]; [reflexivity | | lia].
  unfold SFdiv_core_binary.
  set (e' := Z.min _ _). set (m' := match 0 - 0 - e' with
                                     | 0 => Z.pos p
                                     | Z.pos _ => Z.shiftl (Z.pos p) (0 - 0 - e')
                                     | Z.neg _ => 0
                                     end).
  assert (Hm' : 0 <= m').
  { unfold m'. destruct (0 - 0 - e'); try lia. apply Z.shiftl_nonneg. lia. }
  assert (Hq : 0 <= fst (Z.div_eucl m' (10 ^ Z.of_nat k))).
  { change (fst (Z.div_eucl m' (10 ^ Z.of_nat k))) with (m' / 10 ^ Z.of_nat k).
    apply Z.div_pos; [exact Hm' |]. apply Z.pow_pos_nonneg; lia. }
  destruct (Z.div_eucl m' (10 ^ Z.of_nat k)) as [q r]. simpl in Hq.
  apply binary_round_aux_nonneg. exact Hq.
Qed.

Lemma digits_value_nonneg vs :
  Forall (fun v => 0 <= v <= 9) vs -> 0 <= digits_value vs.
Proof.
  unfold digits_value.
  assert (H : forall acc, 0 <= acc -> Forall (fun v => 0 <= v <= 9) vs ->
                          0 <= fold_left (fun a v => a * 10 + v) vs acc).
  { induction vs as [| v vs IH]; intros acc Hacc Hvs; simpl; [exact Hacc |].
    inversion Hvs; subst. apply IH; [lia | assumption]. }
  apply H. lia.
Qed.

Lemma digits_range U s : Forall (fun v => 0 <= v <= 9) (fst (digits U s)).
Proof.
  induction s as [| c s IH]; simpl; [constructor |].
  destruct (to_decimal U c) as [v |] eqn:E; [| constructor].
  destruct (digits U s). simpl in *.
  constructor; [exact (to_decimal_range U c v E) | exact IH].
Qed.

Section ShapeFacts.

Context (U : runtime).

Lemma isdecimal_ascii c :
  0 <= c < 128 -> isdecimal U c = (48 <=? c) && (c <=? 57).
Proof.
  intros Hc. unfold isdecimal. rewrite (to_decimal_ascii U c Hc).
  destruct ((48 <=? c) && (c <=? 57)); reflexivity.
Qed.

Lemma isdecimal_not_space c : isdecimal U c = true -> isspace c = false.
Proof.
  unfold isdecimal. intros H.
  destruct (isspace c) eqn:Hs; [| reflexivity].
  rewrite (to_decimal_space U c Hs) in H. discriminate.
Qed.

Lemma isdecimal_not c k :
  0 <= k < 48 -> isdecimal U c = true -> c <> k.
Proof.
  intros Hk H ->. rewrite isdecimal_ascii in H by lia.
  apply andb_prop in H as [H _]. apply Z.leb_le in H. lia.
Qed.

Lemma digits_app ds r :
  Forall (fun c => isdecimal U c = true) ds ->
  digits U (ds ++ r)
  = (fst (digits U ds) ++ fst (digits U r), snd (digits U r)).
Proof.
  induction 1 as [| c ds Hc _ IH]; simpl.
  - destruct (digits U r). reflexivity.
  - unfold isdecimal in Hc. destruct (to_decimal U c); [| discriminate].
    rewrite IH. destruct (digits U ds). reflexivity.
Qed.

Lemma digits_all ds :
  Forall (fun c => isdecimal U c = true) ds ->
  snd (digits U ds) = []
  /\ List.length (fst (digits U ds)) = List.length ds.
Proof.
  induction 1 as [| c ds Hc _ [IH1 IH2]]; simpl; [split; reflexivity |].
  unfold isdecimal in Hc. destruct (to_decimal U c); [| discriminate].
  destruct (digits U ds). simpl in *. rewrite IH1, IH2. split; reflexivity.
Qed.

Lemma digits_stop c r :
  isdecimal U c = false -> digits U (c :: r) = ([], c :: r).
Proof.
  unfold isdecimal. simpl. destruct (to_decimal U c); [discriminate | reflexivity].
Qed.

Lemma sign_of_digit c r :
  isdecimal U c = true -> sign_of (c :: r) = (false, c :: r).
Proof.
  intros H. unfold sign_of.
  rewrite (proj2 (Z.eqb_neq c 45)) by (apply isdecimal_not; [lia | exact H]).
  rewrite (proj2 (Z.eqb_neq c 43)) by (apply isdecimal_not; [lia | exact H]).
  reflexivity.
Qed.

(** The separator normalised: a comma becomes a full stop. *)
Lemma replace_comma_shape whole sep decimals :
  Forall (fun c => isdecimal U c = true) whole ->
  Forall (fun c => isdecimal U c = true) decimals ->
  sep = 44 \/ sep = 46 ->
  replace 44 [46] (whole ++ sep :: decimals) = whole ++ 46 :: decimals.
Proof.
  intros Hw Hd Hsep.
  assert (Hno : forall s, Forall (fun c => isdecimal U c = true) s ->
                          replace 44 [46] s = s).
  { intros s Hs. apply replace_absent.
    eapply Forall_impl; [| exact Hs].
    intros c Hc. apply isdecimal_not; [lia | exact Hc]. }
  rewrite replace_app, (Hno whole Hw).
  change (sep :: decimals) with ([sep] ++ decimals).
  rewrite replace_app, (Hno decimals Hd).
  destruct Hsep as [-> | ->]; reflexivity.
Qed.

(** [float] reads every string of the accepted shape, as a numeral
    without sign. *)
Lemma float_of_shape s :
  amount_shape U s ->
  exists n k,
    0 <= n /\ float_of_str U (replace 44 [46] s) = Ok (strtod false n k).
Proof.
  intros (whole & Hne & Hw & Hs).
  assert (Hnosp : forall t, Forall (fun c => isdecimal U c = true) t ->
                            Forall (fun c => isspace c = false) t).
  { intros t Ht. eapply Forall_impl; [| exact Ht].
    intros c. apply isdecimal_not_space. }
  destruct (digits_all whole Hw) as [Hrest Hlen].
  assert (Hip : fst (digits U whole) <> []).
  { intros E. rewrite E in Hlen. destruct whole; [contradiction | discriminate]. }
  destruct whole as [| c0 whole']; [contradiction |].
  inversion Hw as [| ? ? Hc0 Hw']; subst.
  destruct Hs as [-> | (sep & decimals & Hsep & Hd & _ & ->)].
  - rewrite replace_absent
      by (eapply Forall_impl; [| exact Hw];
          intros c Hc; apply isdecimal_not; [lia | exact Hc]).
    unfold float_of_str. rewrite (strip_no_space _ (Hnosp _ Hw)).
    rewrite (sign_of_digit c0 whole' Hc0).
    pose proof (digits_range U (c0 :: whole')) as Hrange.
    destruct (digits U (c0 :: whole')) as [ip r]. simpl in Hrest, Hip, Hrange.
    subst r.
    destruct ip; [contradiction |]. eexists _, _.
    split; [| reflexivity]. apply digits_value_nonneg. exact Hrange.
  - rewrite (replace_comma_shape _ sep decimals Hw Hd Hsep).
    unfold float_of_str. rewrite strip_no_space.
    + change ((c0 :: whole') ++ 46 :: decimals)
        with (c0 :: (whole' ++ 46 :: decimals)).
      rewrite (sign_of_digit c0 _ Hc0).
      change (c0 :: (whole' ++ 46 :: decimals))
        with ((c0 :: whole') ++ 46 :: decimals).
      rewrite (digits_app _ _ Hw), digits_stop
        by (rewrite isdecimal_ascii by lia; reflexivity).
      cbn [fst snd]. rewrite app_nil_r, Z.eqb_refl.
      destruct (digits_all decimals Hd) as [Hrest' _].
      pose proof (digits_range U decimals) as Hrange'.
      pose proof (digits_range U (c0 :: whole')) as Hrange.
      destruct (digits U decimals) as [fp r'']. cbn [snd] in Hrest'. subst r''.
      destruct (digits U (c0 :: whole')) as [ip r]. cbn [fst] in *.
      destruct ip as [| v ip]; [contradiction |].
      cbn [app]. eexists _, _. split; [| reflexivity].
      apply digits_value_nonneg.
      change (v :: ip ++ fp) with ((v :: ip) ++ fp).
      apply Forall_app. split; assumption.
    + apply Forall_app. split; [exact (Hnosp _ Hw) |].
      constructor; [reflexivity | exact (Hnosp _ Hd)].
Qed.

End ShapeFacts.

(** ** The three outcomes of the format gate *)

Lemma str_eqb_nil s : str_eqb s [] = true <-> s = [].
Proof. apply str_eqb_eq. Qed.

Lemma amount_shape_nonempty U s : amount_shape U s -> s <> [].
Proof.
  intros (whole & Hne & _ & [-> | (sep & decimals & _ & _ & _ & ->)]).
  - exact Hne.
  - intros E. apply app_eq_nil in E as [_ E]. discriminate.
Qed.

Section GateFacts.

Context (U : runtime).

Lemma parse_amount_sk_empty (raw : str) :
  replace 32 [] (strip raw) = [] ->
  parse_amount_sk U (Some raw) = Ok (true, S754_zero false, []).
Proof. intros E. unfold parse_amount_sk. rewrite E. reflexivity. Qed.

Lemma parse_amount_sk_shape (raw : str) :
  amount_shape U (replace 32 [] (strip raw)) ->
  exists n k,
    float_of_str U (replace 44 [46] (replace 32 [] (strip raw)))
    = Ok (strtod false n k)
    /\ parse_amount_sk U (Some raw)
       = Ok (true, round2 (fadd (strtod false n k) (strtod false 1 12)), []).
Proof.
  intros Hs. unfold parse_amount_sk.
  destruct (float_of_shape U _ Hs) as (n & k & _ & Hf).
  exists n, k. split; [exact Hf |].
  destruct (str_eqb _ []) eqn:E.
  { apply str_eqb_nil in E. apply amount_shape_nonempty in Hs. contradiction. }
  rewrite (proj2 (AMOUNT_PATTERN_shape U _) Hs). cbn [negb].
  rewrite Hf, strtod_not_negative. reflexivity.
Qed.

Lemma parse_amount_sk_other (raw : str) :
  replace 32 [] (strip raw) <> [] ->
  ~ amount_shape U (replace 32 [] (strip raw)) ->
  parse_amount_sk U (Some raw) = Ok (false, S754_zero false, MSG_FORMAT).
Proof.
  intros Hne Hs. unfold parse_amount_sk.
  destruct (str_eqb _ []) eqn:E; [apply str_eqb_nil in E; contradiction |].
  destruct (fullmatch (AMOUNT_PATTERN U) _) eqn:Em; [| reflexivity].
  apply AMOUNT_PATTERN_shape in Em. contradiction.
Qed.

End GateFacts.

(** ** Text in ASCII is parsed the same under every runtime *)

Lemma amount_shape_transfer U1 U2 (s : str) :
  forallb is_ascii s = true -> amount_shape U1 s -> amount_shape U2 s.
Proof.
  intros Ha (whole & Hne & Hw & Hs).
  assert (Ht : forall t, Forall (fun c => is_ascii c = true) t ->
                         Forall (fun c => isdecimal U1 c = true) t ->
                         Forall (fun c => isdecimal U2 c = true) t).
  { intros t Hta Ht. induction Ht as [| c t Hc _ IH]; constructor.
    - inversion Hta; subst.
      rewrite isdecimal_ascii by (apply is_ascii_range; assumption).
      rewrite isdecimal_ascii in Hc by (apply is_ascii_range; assumption).
      exact Hc.
    - apply IH. inversion Hta; assumption. }
  rewrite forallb_forall in Ha. rewrite <- Forall_forall in Ha.
  exists whole. split; [exact Hne |].
  destruct Hs as [-> | (sep & decimals & Hsep & Hd & Hlen & ->)].
  - split; [apply Ht; assumption | left; reflexivity].
  - apply Forall_app in Ha as [Haw Had]. inversion Had; subst.
    split; [apply Ht; assumption |].
    right. exists sep, decimals. repeat split; try assumption.
    apply Ht; assumption.
Qed.

Lemma parse_amount_sk_ascii U (raw : str) :
  forallb is_ascii raw = true ->
  parse_amount_sk U (Some raw) = parse_amount_sk ascii_runtime (Some raw).
Proof.
  intros Ha.
  assert (Hs : forallb is_ascii (replace 32 [] (strip raw)) = true).
  { apply replace_forallb; [reflexivity | apply strip_forallb; exact Ha]. }
  destruct (replace 32 [] (strip raw)) as [| c s] eqn:Es.
  { rewrite !parse_amount_sk_empty by exact Es. reflexivity. }
  assert (Hne : replace 32 [] (strip raw) <> []) by (rewrite Es; discriminate).
  destruct (fullmatch (AMOUNT_PATTERN U) (c :: s)) eqn:Em.
  - apply AMOUNT_PATTERN_shape in Em. rewrite <- Es in Em, Hs.
    pose proof (amount_shape_transfer U ascii_runtime _ Hs Em) as Em'.
    destruct (parse_amount_sk_shape U raw Em) as (n & k & Hf & HU).
    destruct (parse_amount_sk_shape ascii_runtime raw Em') as (n' & k' & Hf' & HA).
    rewrite (float_of_str_plain U _ _ (strip_forallb _ _
               (replace_forallb is_ascii 44 [46] _ eq_refl Hs)) Hf') in Hf.
    injection Hf as Hf. rewrite <- Hf in HU.
    etransitivity; [exact HU | symmetry; exact HA].
  - rewrite <- Es in Hs.
    assert (Hno : ~ amount_shape U (replace 32 [] (strip raw))).
    { rewrite Es. intros H. apply AMOUNT_PATTERN_shape in H. congruence. }
    assert (Hno' : ~ amount_shape ascii_runtime (replace 32 [] (strip raw))).
    { intros H. apply Hno. apply (amount_shape_transfer ascii_runtime U); assumption. }
    rewrite !parse_amount_sk_other by assumption. reflexivity.
Qed.

Lemma parse_amount_ascii U (raw : str) :
  forallb is_ascii raw = true ->
  parse_amount U raw = parse_amount ascii_runtime raw.
Proof.
  intros Ha. unfold parse_amount. rewrite (parse_amount_sk_ascii U raw Ha).
  reflexivity.
Qed.

(** C3 (test vectors of [parse_amount]): the empty string gives 0,
    "12,34" gives 1234 cents, "12.3" gives 1230 cents, and "12,345", "-5"
    and "abc" are refused with the message of the format error. *)
Theorem parse_amount_vectors (U : runtime) :
  parse_amount U (lit "") = Ok (Amount 0)
  /\ parse_amount U (lit "12,34") = Ok (Amount 1234)
  /\ parse_amount U (lit "12.3") = Ok (Amount 1230)
  /\ parse_amount U (lit "12,345") = Ok (Invalid MSG_FORMAT)
  /\ parse_amount U (lit "-5") = Ok (Invalid MSG_FORMAT)
  /\ parse_amount U (lit "abc") = Ok (Invalid MSG_FORMAT).
Proof.
  repeat split; rewrite parse_amount_ascii by reflexivity;
    vm_compute; reflexivity.
Qed.

(** C6 (format gate): with [s] the input stripped of surrounding white
    space and of its spaces, [parse_amount_sk] succeeds with the amount
    zero when [s] is empty, succeeds when [s] has the accepted shape (one
    or more digits, optionally a comma or full stop and at most two
    digits; a digit is what [\d] matches, a decimal digit of Unicode),
    and refuses every other [s] with the format error; so it accepts
    exactly the empty [s] and the [s] of that shape. *)
Theorem parse_amount_sk_gate (U : runtime) (raw : str) :
  let s := replace 32 [] (strip raw) in
  (s = [] ->
   parse_amount_sk U (Some raw) = Ok (true, S754_zero false, []))
  /\ (amount_shape U s ->
      exists val, parse_amount_sk U (Some raw) = Ok (true, val, []))
  /\ (s <> [] -> ~ amount_shape U s ->
      parse_amount_sk U (Some raw) = Ok (false, S754_zero false, MSG_FORMAT))
  /\ (exists ok val err,
        parse_amount_sk U (Some raw) = Ok (ok, val, err)
        /\ (ok = true <-> s = [] \/ amount_shape U s)).
Proof.
  intros s.
  assert (Hshape : amount_shape U s ->
                   exists val, parse_amount_sk U (Some raw) = Ok (true, val, [])).
  { intros Hs. destruct (parse_amount_sk_shape U raw Hs) as (n & k & _ & HU).
    eexists. exact HU. }
  split; [apply parse_amount_sk_empty |].
  split; [exact Hshape |].
  split; [apply parse_amount_sk_other |].
  destruct (list_eq_dec Z.eq_dec s []) as [E | Hne].
  { eexists _, _, _. split; [apply parse_amount_sk_empty; exact E |].
    split; [left; exact E | reflexivity]. }
  destruct (fullmatch (AMOUNT_PATTERN U) s) eqn:Em.
  - apply AMOUNT_PATTERN_shape in Em. destruct (Hshape Em) as [val Hval].
    eexists _, _, _. split; [exact Hval |].
    split; [right; exact Em | reflexivity].
  - assert (Hno : ~ amount_shape U s).
    { intros H. apply AMOUNT_PATTERN_shape in H. congruence. }
    eexists _, _, _. split; [apply parse_amount_sk_other; assumption |].
    split; [discriminate | intros [E | H]; contradiction].
Qed.

Lemma parse_amount_sk_gate_witness :
  amount_shape ascii_runtime (replace 32 [] (strip (lit " 1 2,5 ")))
  /\ exists val,
       parse_amount_sk ascii_runtime (Some (lit " 1 2,5 ")) = Ok (true, val, []).
Proof.
  assert (H : amount_shape ascii_runtime (replace 32 [] (strip (lit " 1 2,5 "))))
    by (apply AMOUNT_PATTERN_shape; vm_compute; reflexivity).
  split; [exact H |].
  exact (proj1 (proj2 (parse_amount_sk_gate ascii_runtime (lit " 1 2,5 "))) H).
Defined.

(** C9 (the negative branch is dead): every string that passes the
    format gate is read by [float] as a value [val >= 0], so the test
    [val < 0] is false, and [parse_amount_sk] never answers with the
    message of the negative value error. *)
Theorem negative_value_unreachable (U : runtime) :
  (forall s,
     fullmatch (AMOUNT_PATTERN U) s = true ->
     exists val,
       float_of_str U (replace 44 [46] s) = Ok val
       /\ fle (float_of_int 0) val = true
       /\ flt val (float_of_int 0) = false)
  /\ (forall raw,
        exists ok val err,
          parse_amount_sk U raw = Ok (ok, val, err) /\ err <> MSG_NEGATIVE).
Proof.
  split.
  - intros s Hm. apply AMOUNT_PATTERN_shape in Hm.
    destruct (float_of_shape U s Hm) as (n & k & Hn & Hf).
    eexists. split; [exact Hf |].
    split; [apply strtod_nonneg; exact Hn | apply strtod_not_negative].
  - assert (Hnil : @nil char <> MSG_NEGATIVE) by (vm_compute; discriminate).
    assert (Hfmt : MSG_FORMAT <> MSG_NEGATIVE) by (vm_compute; discriminate).
    intros [raw |]; [| eexists _, _, _; split; [reflexivity | exact Hnil]].
    destruct (list_eq_dec Z.eq_dec (replace 32 [] (strip raw)) []) as [E | Hne].
    { rewrite (parse_amount_sk_empty U raw E).
      eexists _, _, _. split; [reflexivity | exact Hnil]. }
    destruct (fullmatch (AMOUNT_PATTERN U) (replace 32 [] (strip raw))) eqn:Em.
    + apply AMOUNT_PATTERN_shape in Em.
      destruct (parse_amount_sk_shape U raw Em) as (n & k & _ & HU).
      eexists _, _, _. split; [exact HU | exact Hnil].
    + rewrite (parse_amount_sk_other U raw Hne).
      * eexists _, _, _. split; [reflexivity | exact Hfmt].
      * intros H. apply AMOUNT_PATTERN_shape in H. congruence.
Qed.

Lemma negative_value_unreachable_witness :
  fullmatch (AMOUNT_PATTERN ascii_runtime) (lit "12,34") = true
  /\ exists val,
       float_of_str ascii_runtime (replace 44 [46] (lit "12,34")) = Ok val
       /\ fle (float_of_int 0) val = true
       /\ flt val (float_of_int 0) = false.
Proof.
  assert (H : fullmatch (AMOUNT_PATTERN ascii_runtime) (lit "12,34") = true)
    by (vm_compute; reflexivity).
  split; [exact H |].
  exact (proj1 (negative_value_unreachable ascii_runtime) (lit "12,34") H).
Defined.

(* ================================================================== *)
(** * Further properties *)
(* ================================================================== *)

(** ** Decimal rendering read back *)

Lemma uint_values_acc d :
  forall acc,
    fold_left (fun a v => a * 10 + v) (uint_values d) (Z.pos acc)
    = Z.pos (Pos.of_uint_acc d acc).
Proof.
  induction d; intros acc; cbn [uint_values fold_left Pos.of_uint_acc];
    try reflexivity;
    match goal with
    | |- fold_left _ _ ?a = _ =>
        match goal with
        | |- _ = Z.pos (Pos.of_uint_acc _ ?b) =>
            replace a with (Z.pos b) by lia
        end
    end; apply IHd.
Qed.

Lemma uint_values_value d : digits_value (uint_values d) = Z.of_uint d.
Proof.
  unfold digits_value, Z.of_uint.
  induction d; cbn [uint_values fold_left Pos.of_uint]; try reflexivity;
    try (change (0 * 10 + 0) with 0; exact IHd);
    match goal with
    | |- fold_left _ _ ?a = Z.of_N (N.pos (Pos.of_uint_acc _ ?b)) =>
        change a with (Z.pos b); apply uint_values_acc
    end.
Qed.

Lemma uint_chars_ascii d : forallb is_ascii (uint_chars d) = true.
Proof. induction d; simpl; try reflexivity; exact IHd. Qed.

Lemma uint_chars_digits U d : digits U (uint_chars d) = (uint_values d, []).
Proof.
  rewrite (digits_ascii U _ (uint_chars_ascii d)).
  induction d; cbn [uint_chars uint_values digits]; try reflexivity;
    cbn [to_decimal ascii_runtime]; unfold ascii_decimal; cbn;
    rewrite IHd; reflexivity.
Qed.

Lemma uint_chars_isdecimal U d :
  Forall (fun c => isdecimal U c = true) (uint_chars d).
Proof.
  induction d; cbn [uint_chars]; constructor; try exact IHd;
    rewrite isdecimal_ascii by lia; reflexivity.
Qed.

(** A non-negative integer is rendered as digits only, at least one, and
    they make the integer. *)
Lemma format_int_nonneg z :
  0 <= z ->
  exists d,
    format_int z = uint_chars d /\ d <> Decimal.Nil /\ Z.of_uint d = z.
Proof.
  intros Hz. unfold format_int.
  pose proof (DecimalZ.of_to z) as Hof.
  destruct z as [| p | p]; [| | lia]; cbn [Z.to_int] in *.
  - exists Decimal.zero. repeat split. discriminate.
  - exists (Pos.to_uint p). repeat split.
    + apply DecimalPos.Unsigned.to_uint_nonnil.
    + exact Hof.
Qed.

Lemma uint_chars_nonnil d : d <> Decimal.Nil -> uint_chars d <> [].
Proof. destruct d; simpl; intros H; try discriminate. contradiction. Qed.

Lemma uint_chars_length d : List.length (uint_chars d) = List.length (uint_values d).
Proof. induction d; simpl; try reflexivity; rewrite IHd; reflexivity. Qed.

Lemma uint_chars_no_space d : Forall (fun c => isspace c = false) (uint_chars d).
Proof. induction d; simpl; constructor; try exact IHd; reflexivity. Qed.

Lemma uint_chars_absent d c :
  c < 48 \/ 57 < c -> Forall (fun x => x <> c) (uint_chars d).
Proof. intros Hc. induction d; simpl; constructor; try exact IHd; lia. Qed.

Lemma lstrip_first c s : isspace c = false -> lstrip (c :: s) = c :: s.
Proof. intros H. simpl. rewrite H. reflexivity. Qed.

(** White space after a text without white space is stripped. *)
Lemma strip_trailing_space s :
  Forall (fun c => isspace c = false) s -> strip (s ++ [32]) = s.
Proof.
  intros Hs. destruct s as [| c0 s0]; [reflexivity |].
  unfold strip, rstrip.
  assert (Hl : lstrip ((c0 :: s0) ++ [32]) = (c0 :: s0) ++ [32]).
  { inversion Hs; subst. apply lstrip_first. assumption. }
  rewrite Hl, rev_app_distr. cbn [rev app lstrip].
  change (isspace 32) with true. cbn iota.
  apply Forall_rev in Hs. cbn [rev] in Hs.
  assert (Hr : lstrip (rev s0 ++ [c0]) = rev s0 ++ [c0]).
  { destruct Hs as [| c r Hc _]; [reflexivity | apply lstrip_first; exact Hc]. }
  rewrite Hr. change (rev s0 ++ [c0]) with (rev (c0 :: s0)).
  apply rev_involutive.
Qed.

Lemma contains_absent c s : Forall (fun x => x <> c) s -> contains c s = false.
Proof.
  unfold contains. induction 1 as [| x s Hx _ IH]; simpl; [reflexivity |].
  rewrite IH, orb_false_r. apply Z.eqb_neq. congruence.
Qed.

Lemma contains_app_r c s t : contains c t = true -> contains c (s ++ t) = true.
Proof.
  unfold contains. intros H. induction s as [| x s IH]; simpl; [exact H |].
  rewrite IH. apply orb_true_r.
Qed.

Section RenderingFacts.

Context (U : runtime).

Lemma int_of_str_uint_chars d :
  d <> Decimal.Nil ->
  (List.length (uint_chars d) <= 640)%nat ->
  int_of_str U (uint_chars d) = Ok (Z.of_uint d)
  /\ int_of_str U (45 :: uint_chars d) = Ok (- Z.of_uint d).
Proof.
  intros Hnn Hlen. unfold int_of_str.
  assert (Hns : Forall (fun c => isspace c = false) (45 :: uint_chars d)).
  { constructor; [reflexivity | apply uint_chars_no_space]. }
  rewrite (strip_no_space _ (uint_chars_no_space d)), (strip_no_space _ Hns).
  assert (Hs : sign_of (uint_chars d) = (false, uint_chars d)).
  { destruct d; try contradiction; reflexivity. }
  rewrite Hs. cbn [sign_of]. change (45 =? 45) with true. cbn iota.
  rewrite uint_chars_digits.
  pose proof (uint_values_value d) as Hv.
  rewrite uint_chars_length in Hlen.
  destruct (uint_values d) as [| v vs] eqn:Ev.
  { destruct d; try contradiction; discriminate. }
  apply Nat.leb_le in Hlen. rewrite Hlen, Hv. split; reflexivity.
Qed.

(** [int] reads a rendered integer back. *)
Lemma int_of_str_format_int z :
  (List.length (format_int z) <= 640)%nat ->
  int_of_str U (format_int z) = Ok z.
Proof.
  intros Hlen.
  pose proof (DecimalZ.of_to z) as Hof. unfold format_int in *.
  destruct z as [| p | p]; cbn [Z.to_int Z.of_int] in *.
  - rewrite (proj1 (int_of_str_uint_chars Decimal.zero
                      ltac:(discriminate) Hlen)), Hof.
    reflexivity.
  - rewrite (proj1 (int_of_str_uint_chars _
                      (DecimalPos.Unsigned.to_uint_nonnil p) Hlen)), Hof.
    reflexivity.
  - cbn [List.length] in Hlen.
    rewrite (proj2 (int_of_str_uint_chars (Pos.to_uint p)
                      (DecimalPos.Unsigned.to_uint_nonnil p) ltac:(lia))), Hof.
    reflexivity.
Qed.

Lemma format_int_no_space z : Forall (fun c => isspace c = false) (format_int z).
Proof.
  unfold format_int. destruct (Z.to_int z).
  - apply uint_chars_no_space.
  - constructor; [reflexivity | apply uint_chars_no_space].
Qed.

Lemma format_int_absent z c :
  57 < c -> Forall (fun x => x <> c) (format_int z).
Proof.
  intros Hc. unfold format_int. destruct (Z.to_int z).
  - apply uint_chars_absent. lia.
  - constructor; [lia | apply uint_chars_absent; lia].
Qed.

(** A rendered integer followed by a space and a unit sign is read by
    the loop of [breakdown_value_cents] the way that sign asks. *)
Lemma breakdown_value_cents_body_rendered z total cnt :
  (List.length (format_int z) <= 640)%nat ->
  breakdown_value_cents_body U total (format_int z ++ lit " €", cnt)
  = Ok (total + z * 100 * cnt)
  /\ breakdown_value_cents_body U total (format_int z ++ lit " c", cnt)
     = Ok (total + z * cnt).
Proof.
  intros Hlen. unfold breakdown_value_cents_body.
  change (lit " €") with [32; 8364]. change (lit " c") with [32; 99].
  assert (Hin : contains 8364 (format_int z ++ [32; 8364]) = true).
  { apply contains_app_r. reflexivity. }
  assert (Hout : contains 8364 (format_int z ++ [32; 99]) = false).
  { apply contains_absent. apply Forall_app. split.
    - apply format_int_absent. lia.
    - repeat constructor; lia. }
  rewrite Hin, Hout.
  assert (Hrep : forall c, 57 < c -> c <> 32 ->
            strip (replace c [] (format_int z ++ [32; c])) = format_int z).
  { intros c Hc Hc32. rewrite replace_app, (replace_absent c []) 
      by (apply format_int_absent; exact Hc).
    cbn [replace flat_map app].
    rewrite (proj2 (Z.eqb_neq 32 c)) by lia. rewrite Z.eqb_refl. cbn [app].
    apply strip_trailing_space, format_int_no_space. }
  rewrite (Hrep 8364), (Hrep 99) by lia.
  rewrite (int_of_str_format_int z Hlen). split; reflexivity.
Qed.

End RenderingFacts.

(** X8: whatever number [euro_label] is given, the label it makes (of
    at most 640 characters, the most digits [int] reads by default) is
    read back by the loop of [breakdown_value_cents] as that number: a
    label in euros as [int(n)] times 100 cents a piece, a label in cents
    as [int(round(n * 100))] cents a piece. *)
Theorem euro_label_reads_back (U : runtime) (n : number) (label : str) :
  euro_label n = Ok label ->
  (List.length label <= 640)%nat ->
  (ge_int n 1 = true ->
   exists euros,
     int n = Ok euros
     /\ forall total cnt,
          breakdown_value_cents_body U total (label, cnt)
          = Ok (total + euros * 100 * cnt))
  /\ (ge_int n 1 = false ->
      exists cents,
        round (mul_int n 100) = Ok cents
        /\ forall total cnt,
             breakdown_value_cents_body U total (label, cnt)
             = Ok (total + cents * cnt)).
Proof.
  unfold euro_label. intros Hl Hlen.
  destruct (ge_int n 1); split; intros Hge; try discriminate.
  - destruct (int n) as [i |]; [| discriminate]. cbn [bind] in Hl.
    injection Hl as <-. exists i. split; [reflexivity |].
    intros total cnt. apply breakdown_value_cents_body_rendered.
    rewrite length_app in Hlen. lia.
  - destruct (round (mul_int n 100)) as [c |]; [| discriminate].
    cbn [bind] in Hl. injection Hl as <-. exists c. split; [reflexivity |].
    intros total cnt. apply breakdown_value_cents_body_rendered.
    rewrite length_app in Hlen. lia.
Qed.

Lemma euro_label_reads_back_witness :
  euro_label (Int 50) = Ok (lit "50 €")
  /\ (List.length (lit "50 €") <= 640)%nat
  /\ exists euros,
       int (Int 50) = Ok euros
       /\ forall total cnt,
            breakdown_value_cents_body ascii_runtime total (lit "50 €", cnt)
            = Ok (total + euros * 100 * cnt).
Proof.
  assert (H : euro_label (Int 50) = Ok (lit "50 €"))
    by (vm_compute; reflexivity).
  assert (Hl : (List.length (lit "50 €") <= 640)%nat) by (vm_compute; lia).
  split; [exact H |]. split; [exact Hl |].
  apply (proj1 (euro_label_reads_back ascii_runtime (Int 50) _ H Hl)).
  reflexivity.
Defined.

(** ** The text shown for an amount *)

Lemma div_half_even_nonneg a d : 0 <= a -> 0 < d -> 0 <= div_half_even a d.
Proof.
  intros Ha Hd. unfold div_half_even.
  pose proof (Z.div_pos a d Ha Hd).
  destruct (2 * (a mod d) ?= d); [destruct (Z.even (a / d)) | |]; lia.
Qed.

Lemma scaled_half_even_nonneg c m e : 0 <= c -> 0 <= scaled_half_even c m e.
Proof.
  intros Hc. unfold scaled_half_even. destruct (0 <=? e) eqn:He.
  - apply Z.leb_le in He. apply Z.mul_nonneg_nonneg; [lia |].
    apply Z.pow_nonneg. lia.
  - apply div_half_even_nonneg; [lia |]. apply Z.pow_pos_nonneg; lia.
Qed.

Lemma hundredths_nonneg x : 0 <= hundredths x.
Proof.
  destruct x; simpl; try lia. apply scaled_half_even_nonneg. lia.
Qed.

Lemma amount_shape_first U c s : amount_shape U (c :: s) -> isdecimal U c = true.
Proof.
  intros (whole & Hne & Hw & Hs).
  destruct whole as [| c0 whole']; [contradiction |].
  inversion Hw; subst.
  destruct Hs as [Hs | (sep & decimals & _ & _ & _ & Hs)];
    injection Hs as -> _; assumption.
Qed.

Section ShownTextFacts.

Context (U : runtime).

Lemma rendered_digit k :
  0 <= k <= 9 -> to_decimal U (48 + k) = Some k /\ isdecimal U (48 + k) = true.
Proof.
  intros Hk. unfold isdecimal. rewrite to_decimal_ascii by lia.
  replace ((48 <=? 48 + k) && (48 + k <=? 57)) with true
    by (symmetry; apply andb_true_iff; split; apply Z.leb_le; lia).
  replace (48 + k - 48) with k by lia. split; reflexivity.
Qed.

(** [float] reads a rendered integer, a point and two digits. *)
Lemma float_of_str_rendered d k1 k0 :
  d <> Decimal.Nil -> 0 <= k1 <= 9 -> 0 <= k0 <= 9 ->
  float_of_str U (uint_chars d ++ [46; 48 + k1; 48 + k0])
  = Ok (strtod false (Z.of_uint d * 100 + k1 * 10 + k0) 2).
Proof.
  intros Hnn Hk1 Hk0.
  destruct (rendered_digit k1 Hk1) as [Hd1 Hi1].
  destruct (rendered_digit k0 Hk0) as [Hd0 Hi0].
  unfold float_of_str. rewrite strip_no_space.
  2:{ apply Forall_app. split; [apply uint_chars_no_space |].
      repeat constructor; apply (isdecimal_not_space U); assumption. }
  assert (Hs : sign_of (uint_chars d ++ [46; 48 + k1; 48 + k0])
               = (false, uint_chars d ++ [46; 48 + k1; 48 + k0])).
  { destruct d; try contradiction; reflexivity. }
  rewrite Hs, (digits_app U _ _ (uint_chars_isdecimal U d)), uint_chars_digits.
  rewrite (digits_stop U 46) by (rewrite isdecimal_ascii by lia; reflexivity).
  cbn [fst snd]. rewrite app_nil_r, Z.eqb_refl.
  cbn [digits]. rewrite Hd1, Hd0.
  pose proof (uint_values_value d) as Hv.
  destruct (uint_values d) as [| v vs] eqn:Ev.
  { destruct d; try contradiction; discriminate. }
  cbn [app List.length]. f_equal. f_equal.
  change (v :: vs ++ [k1; k0]) with ((v :: vs) ++ [k1; k0]).
  unfold digits_value in *. rewrite fold_left_app, Hv. cbn [fold_left]. lia.
Qed.

(** The text of an amount in hundredths [n >= 0] is accepted and read
    as the float of that numeral, pushed up by 1e-12 and rounded. *)
Lemma parse_amount_sk_rendered n :
  0 <= n ->
  parse_amount_sk U
    (Some (format_int (n / 100) ++ [44; 48 + (n mod 100) / 10; 48 + n mod 10]))
  = Ok (true, round2 (fadd (strtod false n 2) (strtod false 1 12)), []).
Proof.
  intros Hn.
  destruct (format_int_nonneg (n / 100) ltac:(apply Z.div_pos; lia))
    as (d & -> & Hnn & Hd).
  assert (Hk1 : 0 <= (n mod 100) / 10 <= 9).
  { pose proof (Z.mod_pos_bound n 100 ltac:(lia)).
    split; [apply Z.div_pos; lia |].
    assert ((n mod 100) / 10 < 10) by (apply Z.div_lt_upper_bound; lia). lia. }
  assert (Hk0 : 0 <= n mod 10 <= 9)
    by (pose proof (Z.mod_pos_bound n 10 ltac:(lia)); lia).
  destruct (rendered_digit _ Hk1) as [_ Hi1].
  destruct (rendered_digit _ Hk0) as [_ Hi0].
  set (k1 := (n mod 100) / 10) in *. set (k0 := n mod 10) in *.
  set (t := uint_chars d ++ [44; 48 + k1; 48 + k0]).
  assert (Hdec : Forall (fun c => isdecimal U c = true) [48 + k1; 48 + k0])
    by (repeat constructor; assumption).
  assert (Hns : Forall (fun c => isspace c = false) t).
  { apply Forall_app. split; [apply uint_chars_no_space |].
    constructor; [reflexivity |].
    eapply Forall_impl; [| exact Hdec]. intros c. apply isdecimal_not_space. }
  assert (Hnorm : replace 32 [] (strip t) = t).
  { rewrite (strip_no_space _ Hns). apply replace_absent.
    eapply Forall_impl; [| exact Hns].
    intros c Hc ->. discriminate. }
  assert (Hshape : amount_shape U (replace 32 [] (strip t))).
  { rewrite Hnorm. exists (uint_chars d).
    split; [apply uint_chars_nonnil; exact Hnn |].
    split; [apply uint_chars_isdecimal |].
    right. exists 44, [48 + k1; 48 + k0].
    repeat split; [left; reflexivity | exact Hdec | simpl; lia]. }
  destruct (parse_amount_sk_shape U t Hshape) as (n' & k' & Hf & Hp).
  rewrite Hnorm in Hf. unfold t in Hf.
  rewrite (replace_comma_shape U _ 44 _ (uint_chars_isdecimal U d) Hdec
             (or_introl eq_refl)) in Hf.
  rewrite (float_of_str_rendered d k1 k0 Hnn Hk1 Hk0) in Hf.
  injection Hf as Hf. rewrite <- Hf in Hp.
  etransitivity; [exact Hp |].
  rewrite Hd. unfold k1, k0.
  pose proof (Z_div_mod_eq_full n 100) as H100.
  pose proof (Z_div_mod_eq_full (n mod 100) 10) as H10.
  pose proof (Z.mod_pos_bound (n mod 100) 10 ltac:(lia)) as Hb.
  assert (Hm : n mod 10 = (n mod 100) mod 10).
  { symmetry.
    apply (Z.mod_unique n 10 (10 * (n / 100) + (n mod 100) / 10));
      [left; exact Hb | lia]. }
  replace (n / 100 * 100 + n mod 100 / 10 * 10 + n mod 10) with n by lia.
  reflexivity.
Qed.

End ShownTextFacts.

Lemma format_eur_sk_unsigned x :
  unsigned_finite x = true ->
  format_eur_sk x
  = format_int (hundredths x / 100)
      ++ [44; 48 + (hundredths x mod 100) / 10; 48 + hundredths x mod 10].
Proof.
  destruct x as [[|] | | | [|] m e]; try discriminate; intros _.
  - reflexivity.
  - unfold format_eur_sk, format_2f, hundredths.
    set (n := scaled_half_even 100 m e).
    assert (Hn : 0 <= n) by (apply scaled_half_even_nonneg; lia).
    destruct (format_int_nonneg (n / 100) ltac:(apply Z.div_pos; lia))
      as (d & -> & _ & _).
    cbn [app]. rewrite replace_app, (replace_absent 46 [44])
      by (apply uint_chars_absent; lia).
    f_equal. cbn [replace flat_map app]. rewrite Z.eqb_refl.
    pose proof (Z.mod_pos_bound n 100 ltac:(lia)).
    pose proof (Z.mod_pos_bound n 10 ltac:(lia)).
    assert (0 <= (n mod 100) / 10) by (apply Z.div_pos; lia).
    rewrite (proj2 (Z.eqb_neq (48 + (n mod 100) / 10) 46)) by lia.
    rewrite (proj2 (Z.eqb_neq (48 + n mod 10) 46)) by lia.
    reflexivity.
Qed.

(** The text shown for a finite amount without a minus sign is accepted. *)
Lemma format_eur_sk_accepted (U : runtime) (x : float) :
  unsigned_finite x = true ->
  parse_amount_sk U (Some (format_eur_sk x))
  = Ok (true,
        round2 (fadd (strtod false (hundredths x) 2) (strtod false 1 12)),
        []).
Proof.
  intros Hx. rewrite (format_eur_sk_unsigned x Hx).
  apply parse_amount_sk_rendered, hundredths_nonneg.
Qed.

(** X4: the text the form shows for an amount, parsed again.  For a
    finite amount without a minus sign the text is accepted and gives the
    amount rounded to hundredths, plus [1e-12], rounded to two places; for
    a negative amount, a minus zero, an infinity or a NaN the text is
    turned down with the message on the format. *)
Theorem format_eur_sk_parsed (U : runtime) (x : float) :
  (unsigned_finite x = true ->
   parse_amount_sk U (Some (format_eur_sk x))
   = Ok (true,
         round2 (fadd (strtod false (hundredths x) 2) (strtod false 1 12)),
         []))
  /\ (unsigned_finite x = false ->
      parse_amount_sk U (Some (format_eur_sk x))
      = Ok (false, S754_zero false, MSG_FORMAT)).
Proof.
  split; intros Hx.
  - apply format_eur_sk_accepted. exact Hx.
  - destruct x as [[|] | [|] | | [|] m e]; try discriminate;
      try (rewrite parse_amount_sk_ascii by reflexivity; reflexivity).
    unfold format_eur_sk, format_2f.
    set (n := scaled_half_even 100 m e).
    set (t := replace 46 [44] _).
    assert (Ht : exists r, t = 45 :: r /\ Forall (fun c => isspace c = false) r).
    { assert (Hn : 0 <= n) by (apply scaled_half_even_nonneg; lia).
      unfold t.
      destruct (format_int_nonneg (n / 100) ltac:(apply Z.div_pos; lia))
        as (d & -> & _ & _).
      cbn [app replace flat_map]. change (45 =? 46) with false. cbn iota.
      cbn [app]. eexists. split; [reflexivity |].
      change (flat_map _ ?l) with (replace 46 [44] l).
      rewrite replace_app, (replace_absent 46 [44])
        by (apply uint_chars_absent; lia).
      apply Forall_app. split; [apply uint_chars_no_space |].
      cbn [replace flat_map app]. rewrite Z.eqb_refl.
      pose proof (Z.mod_pos_bound n 100 ltac:(lia)).
      pose proof (Z.mod_pos_bound n 10 ltac:(lia)).
      assert (0 <= (n mod 100) / 10) by (apply Z.div_pos; lia).
      assert ((n mod 100) / 10 < 10) by (apply Z.div_lt_upper_bound; lia).
      rewrite (proj2 (Z.eqb_neq (48 + (n mod 100) / 10) 46)) by lia.
      rewrite (proj2 (Z.eqb_neq (48 + n mod 10) 46)) by lia.
      cbn [app]. constructor; [reflexivity |].
      constructor; [apply (isdecimal_not_space U), rendered_digit; lia |].
      constructor; [apply (isdecimal_not_space U), rendered_digit; lia |].
      constructor. }
    destruct Ht as (r & Ht & Hr). 
    assert (Hns : Forall (fun c => isspace c = false) t)
      by (rewrite Ht; constructor; [reflexivity | exact Hr]).
    assert (Hnorm : replace 32 [] (strip t) = t).
    { rewrite (strip_no_space _ Hns). apply replace_absent.
      eapply Forall_impl; [| exact Hns]. intros c Hc ->. discriminate. }
    apply parse_amount_sk_other; rewrite Hnorm, Ht; [discriminate |].
    intros Hs. apply amount_shape_first in Hs.
    rewrite isdecimal_ascii in Hs by lia. discriminate.
Qed.

Lemma format_eur_sk_parsed_witness :
  unsigned_finite (strtod false 1234 2) = true
  /\ parse_amount_sk ascii_runtime (Some (format_eur_sk (strtod false 1234 2)))
     = Ok (true,
           round2 (fadd (strtod false (hundredths (strtod false 1234 2)) 2)
                     (strtod false 1 12)),
           []).
Proof.
  assert (H : unsigned_finite (strtod false 1234 2) = true)
    by (vm_compute; reflexivity).
  split; [exact H |].
  exact (proj1 (format_eur_sk_parsed ascii_runtime (strtod false 1234 2)) H).
Defined.

Lemma float_same_eq x y : float_same x y = true -> x = y.
Proof.
  destruct x as [s | s | | s m e], y as [s' | s' | | s' m' e']; simpl;
    try discriminate; try reflexivity.
  - intros H. apply Bool.eqb_prop in H. congruence.
  - intros H. apply Bool.eqb_prop in H. congruence.
  - intros H. apply andb_prop in H as [H He]. apply andb_prop in H as [Hs Hm].
    apply Bool.eqb_prop in Hs. apply Pos.eqb_eq in Hm. apply Z.eqb_eq in He.
    congruence.
Qed.

Lemma cents_kept_below_100_euros : forallb cents_kept below_100_euros = true.
Proof. vm_cast_no_check (eq_refl true). Qed.

(** X5: every amount of whole cents below 100 euros goes through
    the form unchanged: the float nearest to [n / 100] is shown as the
    euros, a comma and two digits of the cents, that text parses to the
    same float, and the float converts back to [n] cents. *)
Theorem amounts_below_100_euros_kept (U : runtime) (n : Z) :
  0 <= n < 10000 ->
  let x := strtod false n 2 in
  format_eur_sk x
  = format_int (n / 100) ++ [44; 48 + (n mod 100) / 10; 48 + n mod 10]
  /\ parse_amount_sk U (Some (format_eur_sk x)) = Ok (true, x, [])
  /\ to_cents x = Ok n
  /\ parse_amount U (format_eur_sk x) = Ok (Amount n).
Proof.
  intros Hn x.
  assert (Hk : cents_kept n = true).
  { pose proof cents_kept_below_100_euros as H.
    rewrite forallb_forall in H. apply H.
    apply in_map_iff. exists (Z.to_nat n). split; [apply Z2Nat.id; lia |].
    apply in_seq. split; [apply Nat.le_0_l |]. apply Z2Nat.inj_lt; lia. }
  unfold cents_kept in Hk. fold x in Hk.
  apply andb_prop in Hk as [Hk Hc]. apply andb_prop in Hk as [Hk Hr].
  apply andb_prop in Hk as [Hu Hh].
  apply Z.eqb_eq in Hh. apply float_same_eq in Hr.
  assert (Hcents : to_cents x = Ok n).
  { destruct (to_cents x) as [c |]; [| discriminate].
    apply Z.eqb_eq in Hc. congruence. }
  assert (Hparse : parse_amount_sk U (Some (format_eur_sk x)) = Ok (true, x, [])).
  { rewrite (format_eur_sk_accepted U x Hu), Hh. fold x.
    rewrite Hr. reflexivity. }
  split; [rewrite (format_eur_sk_unsigned x Hu), Hh; reflexivity |].
  split; [exact Hparse |]. split; [exact Hcents |].
  unfold parse_amount. rewrite Hparse. cbn [bind]. rewrite Hcents. reflexivity.
Qed.

Lemma amounts_below_100_euros_kept_witness :
  0 <= 705 < 10000
  /\ format_eur_sk (strtod false 705 2) = lit "7,05"
  /\ parse_amount_sk ascii_runtime (Some (format_eur_sk (strtod false 705 2)))
     = Ok (true, strtod false 705 2, [])
  /\ to_cents (strtod false 705 2) = Ok 705
  /\ parse_amount ascii_runtime (format_eur_sk (strtod false 705 2))
     = Ok (Amount 705).
Proof.
  split; [lia |].
  apply (amounts_below_100_euros_kept ascii_runtime 705). lia.
Defined.

(** ** Accepted amounts are not negative *)

Lemma binary_round_aux_unsigned m e l :
  0 <= m -> unsigned (binary_round_aux prec emax false m e l) = true.
Proof.
  intros H. unfold binary_round_aux.
  pose proof (shr_fexp_nonneg m e l H) as H1.
  destruct (shr_fexp prec emax m e l) as [mrs' e']. simpl in H1.
  pose proof (shr_fexp_nonneg _ e' loc_Exact
                (round_nearest_even_nonneg _ (loc_of_shr_record mrs') H1)) as H2.
  destruct (shr_fexp prec emax _ e' loc_Exact) as [mrs'' e'']. simpl in H2.
  destruct (shr_m mrs''); [reflexivity | | lia].
  destruct (e'' <=? emax - prec); reflexivity.
Qed.

Lemma strtod_unsigned n k : 0 <= n -> unsigned (strtod false n k) = true.
Proof.
  intros Hn. unfold strtod.
  destruct n as [| p | p]; [reflexivity | | lia].
  unfold SFdiv_core_binary.
  set (e' := Z.min _ _). set (m' := match 0 - 0 - e' with
                                     | 0 => Z.pos p
                                     | Z.pos _ => Z.shiftl (Z.pos p) (0 - 0 - e')
                                     | Z.neg _ => 0
                                     end).
  assert (Hm' : 0 <= m').
  { unfold m'. destruct (0 - 0 - e'); try lia. apply Z.shiftl_nonneg. lia. }
  assert (Hq : 0 <= fst (Z.div_eucl m' (10 ^ Z.of_nat k))).
  { change (fst (Z.div_eucl m' (10 ^ Z.of_nat k))) with (m' / 10 ^ Z.of_nat k).
    apply Z.div_pos; [exact Hm' |]. apply Z.pow_pos_nonneg; lia. }
  destruct (Z.div_eucl m' (10 ^ Z.of_nat k)) as [q r]. simpl in Hq.
  apply binary_round_aux_unsigned. exact Hq.
Qed.

Lemma binary_round_unsigned m e :
  unsigned (binary_round prec emax false m e) = true.
Proof.
  unfold binary_round.
  destruct (shl_align m e _) as [mz ez].
  apply binary_round_aux_unsigned. lia.
Qed.

Lemma fadd_unsigned x y :
  unsigned x = true -> unsigned y = true -> unsigned (fadd x y) = true.
Proof.
  destruct x as [[|] | [|] | | [|] mx ex]; try discriminate;
    destruct y as [[|] | [|] | | [|] my ey]; try discriminate;
    intros _ _; try reflexivity.
  unfold fadd, SFadd, binary_normalize. cbn [cond_Zopp].
  apply binary_round_unsigned.
Qed.

Lemma fmul_unsigned x y :
  unsigned x = true -> unsigned y = true ->
  unsigned (fmul x y) = true \/ fmul x y = S754_nan.
Proof.
  destruct x as [[|] | [|] | | [|] mx ex]; try discriminate;
    destruct y as [[|] | [|] | | [|] my ey]; try discriminate;
    intros _ _; try (left; reflexivity); try (right; reflexivity).
  left. unfold fmul, SFmul. cbn [xorb]. apply binary_round_aux_unsigned. lia.
Qed.

Lemma round2_unsigned x : unsigned x = true -> unsigned (round2 x) = true.
Proof.
  destruct x as [[|] | [|] | | [|] m e]; try discriminate; intros _;
    try reflexivity.
  unfold round2. apply strtod_unsigned, scaled_half_even_nonneg. lia.
Qed.

Lemma round_float_unsigned x c :
  unsigned x = true -> round_float x = Ok c -> 0 <= c.
Proof.
  destruct x as [[|] | [|] | | [|] m e]; try discriminate; intros _;
    cbn [round_float]; intros [= <-]; [lia |].
  apply scaled_half_even_nonneg. lia.
Qed.

Lemma parse_amount_sk_unsigned U raw ok val err :
  parse_amount_sk U raw = Ok (ok, val, err) -> unsigned val = true.
Proof.
  destruct raw as [raw |]; [| intros [= _ <- _]; reflexivity].
  destruct (list_eq_dec Z.eq_dec (replace 32 [] (strip raw)) []) as [E | Hne].
  { rewrite (parse_amount_sk_empty U raw E). intros [= _ <- _]. reflexivity. }
  destruct (fullmatch (AMOUNT_PATTERN U) (replace 32 [] (strip raw))) eqn:Em.
  - apply AMOUNT_PATTERN_shape in Em.
    destruct (float_of_shape U _ Em) as (n & k & Hn & Hf).
    destruct (parse_amount_sk_shape U raw Em) as (n' & k' & Hf' & HU).
    rewrite Hf in Hf'. injection Hf' as Hs.
    intros H. rewrite HU in H.
    assert (Hval : val = round2 (fadd (strtod false n' k') (strtod false 1 12)))
      by congruence.
    rewrite Hval, <- Hs. apply round2_unsigned, fadd_unsigned.
    + apply strtod_unsigned. exact Hn.
    + reflexivity.
  - rewrite (parse_amount_sk_other U raw Hne).
    + intros [= _ <- _]. reflexivity.
    + intros H. apply AMOUNT_PATTERN_shape in H. congruence.
Qed.

Lemma to_cents_unsigned x c : unsigned x = true -> to_cents x = Ok c -> 0 <= c.
Proof.
  intros Hx. unfold to_cents.
  destruct (fmul_unsigned x (float_of_int 100) Hx eq_refl) as [H | H].
  - apply round_float_unsigned. exact H.
  - rewrite H. discriminate.
Qed.

(** Out of [to_cents] comes either the cents or [OverflowError]: the
    product with [100] is never a NaN. *)
Lemma to_cents_raise x e :
  unsigned x = true -> to_cents x = Raise e -> e = OverflowError.
Proof.
  unfold to_cents, fmul.
  change (float_of_int 100) with (S754_finite false 7036874417766400 (-46)).
  destruct x as [[|] | [|] | | [|] m ex]; try discriminate; intros _;
    cbn [SFmul xorb].
  - cbn [round_float]. congruence.
  - pose proof (binary_round_aux_unsigned
                  (Z.pos (m * 7036874417766400)) (ex + -46) loc_Exact
                  ltac:(lia)) as Hu.
    destruct (binary_round_aux prec emax false _ _ _)
      as [[|] | [|] | | [|] ? ?];
      try discriminate; cbn [round_float]; congruence.
Qed.

(** X3: whatever text is parsed, the value that [parse_amount_sk] returns
    is zero, positive or plus infinity, never negative, a minus zero or a
    NaN.  When [to_cents] converts it, the cents are not negative, and so
    no count of their breakdown is; when [to_cents] raises (plus
    infinity, or a value whose hundredfold is beyond the floats), it
    raises [OverflowError]. *)
Theorem accepted_amount_not_negative (U : runtime) (raw : option str)
  (ok : bool) (val : float) (err : str) :
  parse_amount_sk U raw = Ok (ok, val, err) ->
  unsigned val = true
  /\ (forall cents,
        to_cents val = Ok cents ->
        0 <= cents
        /\ exists breakdown,
             compute_breakdown cents = Ok breakdown
             /\ Forall (fun item => 0 <= snd item) breakdown)
  /\ (forall e, to_cents val = Raise e -> e = OverflowError).
Proof.
  intros Hp.
  pose proof (parse_amount_sk_unsigned U raw ok val err Hp) as Hu.
  split; [exact Hu |]. split; [| intros e; apply to_cents_raise, Hu].
  intros cents Hc.
  pose proof (to_cents_unsigned val cents Hu Hc) as H0.
  split; [exact H0 |].
  eexists. split; [apply compute_breakdown_eq |].
  destruct (greedy_nonneg MINOR_UNITS cents MINOR_UNITS_positive H0) as [Hcs _].
  destruct (combine_fst_snd DENOM_LABELS (fst (greedy MINOR_UNITS cents)))
    as [_ Hs]; [rewrite greedy_length; apply DENOM_LABELS_length |].
  apply Forall_forall. intros [l c] Hin. cbn [snd].
  rewrite Forall_forall in Hcs. apply Hcs.
  rewrite <- Hs. change c with (snd (l, c)). apply in_map. exact Hin.
Qed.

Lemma accepted_amount_not_negative_witness :
  parse_amount_sk ascii_runtime (Some (lit " 12,34 "))
  = Ok (true, strtod false 1234 2, [])
  /\ unsigned (strtod false 1234 2) = true
  /\ to_cents (strtod false 1234 2) = Ok 1234
  /\ 0 <= 1234
  /\ exists breakdown,
       compute_breakdown 1234 = Ok breakdown
       /\ Forall (fun item => 0 <= snd item) breakdown.
Proof.
  assert (H : parse_amount_sk ascii_runtime (Some (lit " 12,34 "))
              = Ok (true, strtod false 1234 2, []))
    by (vm_compute; reflexivity).
  assert (Hc : to_cents (strtod false 1234 2) = Ok 1234)
    by (vm_compute; reflexivity).
  destruct (accepted_amount_not_negative ascii_runtime _ _ _ _ H)
    as (Hu & Hok & _).
  split; [exact H |]. split; [exact Hu |]. split; [exact Hc |].
  exact (Hok 1234 Hc).
Defined.

(** ** The breakdown of any integer *)

Lemma greedy_cons v values r :
  greedy (v :: values) r
  = (r / v :: fst (greedy values (r mod v)), snd (greedy values (r mod v))).
Proof.
  cbn [greedy]. rewrite greedy_step_mod.
  destruct (greedy values (r mod v)). reflexivity.
Qed.

(** The three denominations [5u], [2u] and [u] on an amount below [10u]:
    at most 1, 2 and 1 pieces, at most 3 together, and less than [u] is
    left. *)
Lemma greedy_decade u r :
  0 < u -> 0 <= r < 10 * u ->
  0 <= r / (5 * u) <= 1
  /\ 0 <= r mod (5 * u) / (2 * u) <= 2
  /\ 0 <= (r mod (5 * u)) mod (2 * u) / u <= 1
  /\ r / (5 * u) + r mod (5 * u) / (2 * u)
     + (r mod (5 * u)) mod (2 * u) / u <= 3
  /\ 0 <= ((r mod (5 * u)) mod (2 * u)) mod u < u.
Proof.
  intros Hu Hr.
  pose proof (Z_div_mod_eq_full r (5 * u)) as E5.
  pose proof (Z.mod_pos_bound r (5 * u) ltac:(lia)) as B5.
  set (c5 := r / (5 * u)) in *. set (r5 := r mod (5 * u)) in *.
  pose proof (Z_div_mod_eq_full r5 (2 * u)) as E2.
  pose proof (Z.mod_pos_bound r5 (2 * u) ltac:(lia)) as B2.
  set (c2 := r5 / (2 * u)) in *. set (r2 := r5 mod (2 * u)) in *.
  pose proof (Z_div_mod_eq_full r2 u) as E1.
  pose proof (Z.mod_pos_bound r2 u Hu) as B1.
  set (c1 := r2 / u) in *. set (r1 := r2 mod u) in *.
  assert (H5 : 0 <= c5 <= 1) by nia.
  assert (H2 : 0 <= c2 <= 2) by nia.
  assert (H1 : 0 <= c1 <= 1) by nia.
  split; [exact H5 |]. split; [exact H2 |]. split; [exact H1 |].
  split; [| lia].
  assert (c2 = 0 \/ c2 = 1 \/ c2 = 2) as [-> | [-> | ->]] by lia;
    assert (c1 = 0 \/ c1 = 1) as [-> | ->] by lia; lia.
Qed.

Lemma compute_breakdown_counts C :
  compute_breakdown C
  = Ok (combine DENOM_LABELS
          (C / 10000 :: fst (greedy SMALLER_UNITS (C mod 10000)))).
Proof.
  rewrite compute_breakdown_eq. unfold MINOR_UNITS at 1.
  rewrite greedy_cons. reflexivity.
Qed.

(** X2: for every integer the breakdown hands out [C // 10000] notes of
    100 euros and, below them, at most 1, 2, 1, 1, 2, 1, 1, 2, 1, 1, 2, 1
    pieces of the other denominations in their order, never a negative
    count and never more than 12 pieces together. *)
Theorem compute_breakdown_few_pieces (C : Z) :
  exists smaller,
    compute_breakdown C = Ok (combine DENOM_LABELS (C / 10000 :: smaller))
    /\ Forall2 (fun c most => 0 <= c <= most) smaller MOST_PIECES
    /\ sum smaller <= 12.
Proof.
  exists (fst (greedy SMALLER_UNITS (C mod 10000))).
  split; [apply compute_breakdown_counts |].
  pose proof (Z.mod_pos_bound C 10000 ltac:(lia)) as Hr.
  set (r := C mod 10000) in *. unfold SMALLER_UNITS.
  rewrite !greedy_cons. cbn [fst greedy].
  destruct (greedy_decade 1000 r ltac:(lia) ltac:(lia))
    as (Ha1 & Ha2 & Ha3 & Ha & Hra).
  change (5 * 1000) with 5000 in *. change (2 * 1000) with 2000 in *.
  set (ra := ((r mod 5000) mod 2000) mod 1000) in *.
  destruct (greedy_decade 100 ra ltac:(lia) ltac:(lia))
    as (Hb1 & Hb2 & Hb3 & Hb & Hrb).
  change (5 * 100) with 500 in *. change (2 * 100) with 200 in *.
  set (rb := ((ra mod 500) mod 200) mod 100) in *.
  destruct (greedy_decade 10 rb ltac:(lia) ltac:(lia))
    as (Hc1 & Hc2 & Hc3 & Hc & Hrc).
  change (5 * 10) with 50 in *. change (2 * 10) with 20 in *.
  set (rc := ((rb mod 50) mod 20) mod 10) in *.
  destruct (greedy_decade 1 rc ltac:(lia) ltac:(lia))
    as (Hd1 & Hd2 & Hd3 & Hd & _).
  change (5 * 1) with 5 in *. change (2 * 1) with 2 in *.
  split.
  - unfold MOST_PIECES. repeat (constructor; [assumption |]). constructor.
  - unfold sum. cbn [fold_right]. lia.
Qed.

Lemma DENOM_LABELS_head : DENOM_LABELS = lit "100 €" :: tl DENOM_LABELS.
Proof. vm_compute. reflexivity. Qed.

Lemma get_combine_nonneg labels :
  forall counts label,
    Forall (fun c => 0 <= c) counts ->
    0 <= get (combine labels counts) label 0.
Proof.
  induction labels as [| l labels IH]; intros counts label Hcs;
    [apply Z.le_refl |].
  destruct Hcs as [| c counts Hc Hcs]; cbn [combine get]; [apply Z.le_refl |].
  destruct (str_eqb l label); [exact Hc | apply IH; exact Hcs].
Qed.

(** X1: [compute_breakdown] and [breakdown_value_cents] on any integer,
    negative ones included: the breakdown is built, its value read back is
    the integer itself, the count of 100 euro notes is the floor of
    [C / 10000], negative when [C] is, and every other count is at least
    0. *)
Theorem compute_breakdown_any_integer (U : runtime) (C : Z) :
  exists breakdown,
    compute_breakdown C = Ok breakdown
    /\ breakdown_value_cents U breakdown = Ok C
    /\ get breakdown (lit "100 €") 0 = C / 10000
    /\ (C < 0 -> get breakdown (lit "100 €") 0 < 0)
    /\ (forall label,
          label <> lit "100 €" -> 0 <= get breakdown label 0).
Proof.
  eexists. split; [apply compute_breakdown_counts |].
  split.
  { replace (C / 10000 :: fst (greedy SMALLER_UNITS (C mod 10000)))
      with (fst (greedy MINOR_UNITS C))
      by (unfold MINOR_UNITS at 1; rewrite greedy_cons; reflexivity).
    rewrite breakdown_value_cents_counts, greedy_weighted_sum,
      greedy_MINOR_UNITS_left.
    f_equal. lia. }
  rewrite DENOM_LABELS_head. cbn [combine get].
  rewrite str_eqb_refl.
  split; [reflexivity |]. split.
  { intros HC. apply Z.div_lt_upper_bound; lia. }
  intros label Hl. rewrite str_eqb_neq by congruence.
  apply get_combine_nonneg.
  pose proof (Z.mod_pos_bound C 10000 ltac:(lia)) as [Hr _].
  assert (Hpos : Forall (fun v => 0 < v) SMALLER_UNITS)
    by (unfold SMALLER_UNITS; repeat constructor).
  apply (greedy_nonneg SMALLER_UNITS _ Hpos Hr).
Qed.

Lemma compute_breakdown_any_integer_witness :
  -250 < 0
  /\ exists breakdown,
       compute_breakdown (-250) = Ok breakdown
       /\ breakdown_value_cents ascii_runtime breakdown = Ok (-250)
       /\ get breakdown (lit "100 €") 0 < 0.
Proof.
  split; [lia |].
  destruct (compute_breakdown_any_integer ascii_runtime (-250))
    as (b & Hb & Hv & _ & Hneg & _).
  exists b. split; [exact Hb |]. split; [exact Hv |]. apply Hneg. lia.
Defined.

(** ** Person codes are exactly the words in the letters A to Z *)

Lemma idx_to_person_code_loop_snoc v d :
  0 <= v -> 1 <= d <= 26 ->
  idx_to_person_code_loop (v * 26 + d) []
  = idx_to_person_code_loop v [] ++ [64 + d].
Proof.
  intros Hv Hd. rewrite idx_to_person_code_loop_equation.
  replace (0 <? v * 26 + d) with true by (symmetry; apply Z.ltb_lt; lia).
  assert (Hq : (v * 26 + d - 1) / 26 = v).
  { symmetry. apply (Z.div_unique _ _ v (d - 1)); lia. }
  assert (Hm : (v * 26 + d - 1) mod 26 = d - 1).
  { symmetry. apply (Z.mod_unique _ _ v (d - 1)); lia. }
  rewrite Hq, Hm, (idx_to_person_code_loop_app v Hv).
  replace (65 + (d - 1)) with (64 + d) by lia. reflexivity.
Qed.

Lemma letters_value_nonneg s : Forall is_letter s -> 0 <= letters_value s.
Proof.
  intros Hs. unfold letters_value.
  assert (H : forall acc, 0 <= acc ->
            0 <= fold_left (fun a c => a * 26 + (c - 64)) s acc).
  { induction Hs as [| c s Hc _ IH]; intros acc Hacc; simpl; [exact Hacc |].
    apply IH. unfold is_letter in Hc. lia. }
  apply H. lia.
Qed.

Lemma idx_to_person_code_loop_letters_value s :
  Forall is_letter s -> idx_to_person_code_loop (letters_value s) [] = s.
Proof.
  induction s as [| c s IH] using rev_ind; intros Hs.
  - reflexivity.
  - apply Forall_app in Hs as [Hs Hc]. inversion Hc as [| ? ? Hc' _]; subst.
    unfold is_letter in Hc'.
    rewrite letters_value_snoc,
      (idx_to_person_code_loop_snoc _ (c - 64) (letters_value_nonneg s Hs))
      by lia.
    rewrite (IH Hs). f_equal. f_equal. lia.
Qed.

Lemma idx_to_person_code_loop_letters idx :
  0 <= idx ->
  Forall is_letter (idx_to_person_code_loop idx [])
  /\ (0 < idx -> idx_to_person_code_loop idx [] <> []).
Proof.
  intros Hidx. pattern idx. apply Zlt_0_ind; [| exact Hidx].
  clear idx Hidx. intros idx IH Hidx.
  rewrite idx_to_person_code_loop_equation.
  destruct (0 <? idx) eqn:Hpos.
  - apply Z.ltb_lt in Hpos.
    assert (Hq : 0 <= (idx - 1) / 26 < idx).
    { split; [apply Z.div_pos; lia |]. apply Z.div_lt_upper_bound; lia. }
    rewrite (idx_to_person_code_loop_app _ (proj1 Hq)).
    pose proof (Z.mod_pos_bound (idx - 1) 26 ltac:(lia)) as Hm.
    split.
    + apply Forall_app. split; [apply (IH _ Hq) |].
      constructor; [unfold is_letter; lia | constructor].
    + intros _ E. apply app_eq_nil in E as [_ E]. discriminate.
  - split; [constructor |]. apply Z.ltb_ge in Hpos. lia.
Qed.

(** X6: the codes of the indices from 0 on are exactly the non-empty
    words in the letters A to Z: the code of [idx] is such a word and
    reads back, in bijective base 26, as [idx + 1]; every such word is the
    code of the index it reads back as, less 1; a negative index gives the
    empty code. *)
Theorem idx_to_person_code_words :
  (forall idx, 0 <= idx ->
     idx_to_person_code idx <> []
     /\ Forall is_letter (idx_to_person_code idx)
     /\ letters_value (idx_to_person_code idx) - 1 = idx)
  /\ (forall s, s <> [] -> Forall is_letter s ->
        0 <= letters_value s - 1
        /\ idx_to_person_code (letters_value s - 1) = s)
  /\ (forall idx, idx < 0 -> idx_to_person_code idx = []).
Proof.
  split; [| split].
  - intros idx Hidx. unfold idx_to_person_code.
    destruct (idx_to_person_code_loop_letters (idx + 1) ltac:(lia)) as [Hl Hne].
    split; [apply Hne; lia |]. split; [exact Hl |].
    rewrite idx_to_person_code_loop_value by lia. lia.
  - intros s Hne Hs. unfold idx_to_person_code.
    replace (letters_value s - 1 + 1) with (letters_value s) by lia.
    split; [| apply idx_to_person_code_loop_letters_value; exact Hs].
    destruct s as [| c s] using rev_ind; [contradiction |].
    apply Forall_app in Hs as [Hs Hc]. inversion Hc as [| ? ? Hc' _]; subst.
    unfold is_letter in Hc'. rewrite letters_value_snoc.
    pose proof (letters_value_nonneg s Hs). lia.
  - intros idx Hidx. unfold idx_to_person_code.
    rewrite idx_to_person_code_loop_equation.
    replace (0 <? idx + 1) with false by (symmetry; apply Z.ltb_ge; lia).
    reflexivity.
Qed.

Lemma idx_to_person_code_words_witness :
  0 <= 701
  /\ idx_to_person_code 701 <> []
  /\ Forall is_letter (idx_to_person_code 701)
  /\ letters_value (idx_to_person_code 701) - 1 = 701.
Proof.
  split; [lia |]. apply (proj1 idx_to_person_code_words 701). lia.
Defined.

(** ** Comma and full stop are read alike *)

Lemma replace_comma_map s : replace 44 [46] s = map comma_to_stop s.
Proof.
  unfold replace, comma_to_stop.
  induction s as [| c s IH]; simpl; [reflexivity |].
  rewrite IH. destruct (c =? 44); reflexivity.
Qed.

Lemma comma_to_stop_space c : isspace (comma_to_stop c) = isspace c.
Proof.
  unfold comma_to_stop. destruct (c =? 44) eqn:E; [| reflexivity].
  apply Z.eqb_eq in E. subst. reflexivity.
Qed.

Lemma lstrip_comma s :
  lstrip (map comma_to_stop s) = map comma_to_stop (lstrip s).
Proof.
  induction s as [| c s IH]; simpl; [reflexivity |].
  rewrite comma_to_stop_space. destruct (isspace c); [exact IH | reflexivity].
Qed.

Lemma strip_comma s : strip (map comma_to_stop s) = map comma_to_stop (strip s).
Proof.
  unfold strip, rstrip.
  rewrite lstrip_comma, <- map_rev, lstrip_comma, map_rev. reflexivity.
Qed.

Lemma replace_space_comma s :
  replace 32 [] (map comma_to_stop s) = map comma_to_stop (replace 32 [] s).
Proof.
  unfold replace. induction s as [| c s IH]; simpl; [reflexivity |].
  rewrite IH. unfold comma_to_stop at 1.
  destruct (c =? 44) eqn:E44.
  - apply Z.eqb_eq in E44. subst. reflexivity.
  - destruct (c =? 32); reflexivity.
Qed.

Lemma comma_to_stop_idem s :
  map comma_to_stop (map comma_to_stop s) = map comma_to_stop s.
Proof.
  rewrite map_map. apply map_ext. intros c. unfold comma_to_stop.
  destruct (c =? 44) eqn:E; [reflexivity | rewrite E; reflexivity].
Qed.

Section CommaFacts.

Context (U : runtime).

Lemma comma_to_stop_digit c :
  isdecimal U (comma_to_stop c) = true -> comma_to_stop c = c.
Proof.
  unfold comma_to_stop. destruct (c =? 44) eqn:E; [| reflexivity].
  intros H. rewrite isdecimal_ascii in H by lia. discriminate.
Qed.

Lemma comma_to_stop_digits s :
  Forall (fun c => isdecimal U c = true) (map comma_to_stop s) ->
  map comma_to_stop s = s.
Proof.
  induction s as [| c s IH]; simpl; [reflexivity |].
  intros H. inversion H; subst.
  rewrite comma_to_stop_digit, IH by assumption. reflexivity.
Qed.

Lemma digits_without_comma s :
  Forall (fun c => isdecimal U c = true) s -> map comma_to_stop s = s.
Proof.
  intros H. rewrite <- replace_comma_map. apply replace_absent.
  eapply Forall_impl; [| exact H].
  intros c Hc. apply (isdecimal_not U); [lia | exact Hc].
Qed.

Lemma amount_shape_comma s :
  amount_shape U (map comma_to_stop s) <-> amount_shape U s.
Proof.
  split.
  - intros (whole & Hne & Hw & Hs).
    destruct Hs as [Hs | (sep & decimals & Hsep & Hd & Hlen & Hs)].
    + rewrite <- Hs in Hw. apply comma_to_stop_digits in Hw as Hid.
      rewrite Hid in Hs, Hw. exists s. rewrite Hs.
      split; [exact Hne |]. split; [rewrite <- Hs; exact Hw | left; reflexivity].
    + apply map_eq_app in Hs as (s1 & s2 & -> & H1 & H2).
      destruct s2 as [| c s2]; [discriminate |].
      cbn [map] in H2. injection H2 as Hc H2.
      rewrite <- H1 in Hw. rewrite <- H2 in Hd.
      apply comma_to_stop_digits in Hw as Hid1.
      apply comma_to_stop_digits in Hd as Hid2.
      rewrite Hid1 in Hw, H1. rewrite Hid2 in Hd, H2.
      exists s1. split; [rewrite H1; exact Hne |]. split; [exact Hw |].
      right. exists c, s2. repeat split; try assumption.
      * unfold comma_to_stop in Hc.
        destruct (c =? 44) eqn:E; [left; apply Z.eqb_eq; exact E |].
        subst sep. destruct Hsep as [-> | ->]; [discriminate | right; reflexivity].
      * rewrite H2. exact Hlen.
  - intros (whole & Hne & Hw & Hs). exists whole.
    split; [exact Hne |]. split; [exact Hw |].
    destruct Hs as [-> | (sep & decimals & Hsep & Hd & Hlen & ->)].
    + left. apply digits_without_comma. exact Hw.
    + right. exists 46, decimals.
      repeat split; [right; reflexivity | exact Hd | exact Hlen |].
      rewrite map_app. cbn [map].
      rewrite (digits_without_comma _ Hw), (digits_without_comma _ Hd).
      destruct Hsep as [-> | ->]; reflexivity.
Qed.

End CommaFacts.

(** X7: [parse_amount_sk] reads a comma and a full stop alike: a text and
    the same text with every comma turned into a full stop give the same
    result, whatever the text. *)
Theorem parse_amount_sk_comma_or_stop (U : runtime) (raw : str) :
  parse_amount_sk U (Some (replace 44 [46] raw)) = parse_amount_sk U (Some raw).
Proof.
  rewrite replace_comma_map.
  assert (Hnorm : replace 32 [] (strip (map comma_to_stop raw))
                  = map comma_to_stop (replace 32 [] (strip raw)))
    by (rewrite strip_comma, replace_space_comma; reflexivity).
  set (s := replace 32 [] (strip raw)) in *.
  destruct (list_eq_dec Z.eq_dec s []) as [E | Hne].
  { rewrite !parse_amount_sk_empty; [reflexivity | exact E |].
    rewrite Hnorm, E. reflexivity. }
  assert (Hne' : replace 32 [] (strip (map comma_to_stop raw)) <> []).
  { rewrite Hnorm. intros E. apply map_eq_nil in E. contradiction. }
  destruct (fullmatch (AMOUNT_PATTERN U) s) eqn:Em.
  - apply AMOUNT_PATTERN_shape in Em.
    assert (Em' : amount_shape U (replace 32 [] (strip (map comma_to_stop raw))))
      by (rewrite Hnorm; apply (proj2 (amount_shape_comma U s)); exact Em).
    destruct (parse_amount_sk_shape U raw Em) as (n & k & Hf & HU).
    destruct (parse_amount_sk_shape U _ Em') as (n' & k' & Hf' & HU').
    rewrite Hnorm, !replace_comma_map, comma_to_stop_idem,
      <- replace_comma_map in Hf'.
    fold s in Hf. rewrite Hf in Hf'. injection Hf' as Hs.
    rewrite <- Hs in HU'.
    etransitivity; [exact HU' | symmetry; exact HU].
  - assert (Hno : ~ amount_shape U s).
    { intros H. apply AMOUNT_PATTERN_shape in H. congruence. }
    assert (Hno' : ~ amount_shape U
                      (replace 32 [] (strip (map comma_to_stop raw)))).
    { rewrite Hnorm. intros H. exact (Hno (proj1 (amount_shape_comma U s) H)). }
    rewrite (parse_amount_sk_other U _ Hne' Hno').
    symmetry. apply parse_amount_sk_other; assumption.
Qed.

(** ** The session *)

Lemma append_person_tidy st : tidy st -> tidy (append_person st).
Proof.
  intros (H1 & Hnd & Hid & Hu). unfold tidy, append_person.
  cbn [persons next_id]. repeat split.
  - lia.
  - rewrite map_app. cbn [map person_id].
    apply NoDup_app; [exact Hnd | repeat constructor; intros [] |].
    intros x Hx [<- | []].
    apply in_map_iff in Hx. destruct Hx as (p & Hp & Hin).
    rewrite Forall_forall in Hid. specialize (Hid p Hin). lia.
  - apply Forall_app. split.
    + eapply Forall_impl; [| exact Hid]. cbn beta. intros p Hp. lia.
    + constructor; [| constructor]. cbn [person_id]. lia.
  - apply Forall_app. split; [exact Hu |]. repeat constructor.
Qed.

Lemma append_persons_tidy n : forall st, tidy st -> tidy (append_persons n st).
Proof.
  induction n as [| n IH]; intros st H; cbn [append_persons]; [exact H |].
  apply IH, append_person_tidy, H.
Qed.

Lemma append_persons_length n : forall st,
  List.length (persons (append_persons n st))
  = (List.length (persons st) + n)%nat.
Proof.
  induction n as [| n IH]; intros st; cbn [append_persons]; [lia |].
  rewrite IH. unfold append_person. cbn [persons].
  rewrite length_app. cbn [List.length]. lia.
Qed.

Lemma set_calculated_tidy b st : tidy st -> tidy (set_calculated b st).
Proof. intros H. exact H. Qed.

Lemma add_person_length st :
  List.length (persons (add_person st))
  = if Z.of_nat (List.length (persons st)) <? 100
    then S (List.length (persons st))
    else List.length (persons st).
Proof.
  unfold add_person.
  destruct (Z.of_nat (List.length (persons st)) <? 100); [| reflexivity].
  cbn [set_calculated persons append_person].
  rewrite length_app. cbn [List.length]. lia.
Qed.

Lemma add_ten_persons_length st :
  List.length (persons (add_ten_persons st))
  = (List.length (persons st)
     + Z.to_nat (Z.min 10 (100 - Z.of_nat (List.length (persons st)))))%nat.
Proof.
  unfold add_ten_persons. cbn zeta.
  destruct (Z.min 10 (100 - Z.of_nat (List.length (persons st))) <=? 0) eqn:E.
  - apply Z.leb_le in E.
    destruct (Z.min 10 (100 - Z.of_nat (List.length (persons st))));
      cbn [Z.to_nat]; lia.
  - cbn [set_calculated persons]. apply append_persons_length.
Qed.

Lemma add_person_ok U st : session_ok U st -> session_ok U (add_person st).
Proof.
  intros (Hlen & Ht & Hc). unfold session_ok.
  rewrite add_person_length. unfold add_person.
  destruct (Z.of_nat (List.length (persons st)) <? 100) eqn:E.
  - apply Z.ltb_lt in E. split; [lia |]. split.
    + apply set_calculated_tidy, append_person_tidy, Ht.
    + cbn [set_calculated calculated]. discriminate.
  - auto.
Qed.

Lemma add_ten_persons_ok U st :
  session_ok U st -> session_ok U (add_ten_persons st).
Proof.
  intros (Hlen & Ht & Hc). unfold session_ok.
  rewrite add_ten_persons_length. unfold add_ten_persons. cbn zeta.
  destruct (Z.min 10 (100 - Z.of_nat (List.length (persons st))) <=? 0) eqn:E.
  - apply Z.leb_le in E. split; [| auto].
    destruct (Z.min 10 (100 - Z.of_nat (List.length (persons st))));
      cbn [Z.to_nat]; lia.
  - apply Z.leb_gt in E. split; [lia |]. split.
    + apply set_calculated_tidy, append_persons_tidy, Ht.
    + cbn [set_calculated calculated]. discriminate.
Qed.

Lemma form_loop_facts U w ps : forall calc dels errs,
  map person_id (form_persons (form_loop U w ps calc dels errs))
  = map person_id ps
  /\ map person_code (form_persons (form_loop U w ps calc dels errs))
     = map person_code ps
  /\ (Forall (fun p => unsigned (person_amount p) = true) ps ->
      Forall (fun p => unsigned (person_amount p) = true)
        (form_persons (form_loop U w ps calc dels errs)))
  /\ (form_calculated (form_loop U w ps calc dels errs) = true ->
      calc = true /\ form_persons (form_loop U w ps calc dels errs) = ps).
Proof.
  induction ps as [| p ps IH]; intros calc dels errs; cbn [form_loop].
  - cbn [form_persons form_calculated map]. auto.
  - destruct (parse_amount_sk U (amount_text w (person_id p)))
      as [[[ok val] err] | e] eqn:Ep.
    + cbn zeta. cbn [form_persons form_calculated map].
      pose proof (parse_amount_sk_unsigned U _ ok val err Ep) as Hval.
      match goal with
      | |- context [form_loop U w ps ?c ?d ?e] =>
          destruct (IH c d e) as (H1 & H2 & H3 & H4)
      end.
      destruct (ok && negb (SFeqb val (person_amount p))) eqn:Ech.
      * cbn [person_id person_code person_amount].
        rewrite H1, H2. split; [reflexivity |]. split; [reflexivity |]. split.
        -- intros Hall. inversion Hall; subst.
           constructor; [exact Hval | apply H3; assumption].
        -- intros Hc. destruct (H4 Hc) as [Hf _]. discriminate.
      * rewrite H1, H2. split; [reflexivity |]. split; [reflexivity |]. split.
        -- intros Hall. inversion Hall; subst.
           constructor; [assumption | apply H3; assumption].
        -- intros Hc. destruct (H4 Hc) as [Hc' ->]. auto.
    + cbn [form_persons form_calculated]. auto.
Qed.

Lemma filter_NoDup_map {A B} (f : A -> B) (g : A -> bool) (l : list A) :
  NoDup (map f l) -> NoDup (map f (filter g l)).
Proof.
  induction l as [| a l IH]; cbn [map filter]; intros H; [constructor |].
  inversion H as [| ? ? Hnotin Hnd]; subst.
  destruct (g a); [| exact (IH Hnd)].
  cbn [map]. constructor; [| exact (IH Hnd)].
  intros Hin. apply Hnotin.
  apply in_map_iff in Hin. destruct Hin as (x & Hx & Hin).
  apply filter_In in Hin. apply in_map_iff. exists x. tauto.
Qed.

Lemma filter_Forall {A} (P : A -> Prop) (g : A -> bool) (l : list A) :
  Forall P l -> Forall P (filter g l).
Proof.
  rewrite !Forall_forall. intros H x Hx. apply filter_In in Hx. apply H, Hx.
Qed.

Lemma filter_shorter {A} (g : A -> bool) (l : list A) :
  (List.length (filter g l) <= List.length l)%nat.
Proof.
  induction l as [| a l IH]; cbn [filter List.length]; [lia |].
  destruct (g a); cbn [List.length]; lia.
Qed.

Lemma run_ok U w st : session_ok U st -> session_ok U (fst (run U w st)).
Proof.
  intros H. unfold run.
  set (st1 := if add_clicked w then add_person st else st).
  assert (H1 : session_ok U st1)
    by (unfold st1; destruct (add_clicked w); [apply add_person_ok |]; exact H).
  clearbody st1. clear H.
  set (st2 := if add_ten_clicked w then add_ten_persons st1 else st1).
  assert (H2 : session_ok U st2)
    by (unfold st2; destruct (add_ten_clicked w);
        [apply add_ten_persons_ok |]; exact H1).
  clearbody st2. clear H1 st st1.
  destruct (persons st2) as [| p0 ps0] eqn:Eps; [exact H2 |].
  rewrite <- Eps. clear Eps p0 ps0. cbn zeta.
  destruct H2 as (Hlen & (Hn & Hnd & Hid & Hu) & Hc).
  destruct (form_loop_facts U w (persons st2) (calculated st2) [] [])
    as (F1 & F2 & F3 & F4).
  set (f := form_loop U w (persons st2) (calculated st2) [] []) in *.
  assert (Hlen' : List.length (form_persons f) = List.length (persons st2)).
  { rewrite <- (length_map person_id (form_persons f)), F1.
    apply length_map. }
  assert (Hid' : Forall (fun p => 1 <= person_id p < next_id st2)
                   (form_persons f)).
  { apply Forall_forall. intros p Hp.
    assert (Hin : In (person_id p) (map person_id (persons st2)))
      by (rewrite <- F1; apply in_map; exact Hp).
    apply in_map_iff in Hin. destruct Hin as (q & Hq & Hin).
    rewrite Forall_forall in Hid. rewrite <- Hq. apply Hid, Hin. }
  assert (Hst : session_ok U
                  {| persons := form_persons f; next_id := next_id st2;
                     calculated := form_calculated f;
                     results := results st2 |}).
  { unfold session_ok, tidy. cbn [persons next_id calculated results].
    rewrite Hlen', F1. repeat split; auto.
    intros Hcalc. destruct (F4 Hcalc) as [Hc2 ->]. apply Hc, Hc2. }
  destruct (form_raised f); [exact Hst |].
  cbn [persons next_id calculated results].
  destruct (to_delete_ids f) as [| d ds].
  - destruct (calc_clicked w && negb _); [| exact Hst].
    destruct (calculate_shown U (form_persons f)) as [res | e] eqn:Ecalc;
      [| exact Hst].
    cbn [fst]. unfold session_ok, tidy.
    cbn [persons next_id calculated results].
    rewrite Hlen', F1. repeat split; auto.
    intros _. exists res. auto.
  - cbn [fst]. unfold session_ok, tidy.
    cbn [persons next_id calculated results]. repeat split.
    + pose proof (filter_shorter
                    (fun p => negb (id_in (d :: ds) (person_id p)))
                    (form_persons f)). lia.
    + exact Hn.
    + apply filter_NoDup_map. rewrite F1. exact Hnd.
    + apply filter_Forall, Hid'.
    + apply filter_Forall, F3, Hu.
    + discriminate.
Qed.

Lemma session_init_ok U : session_ok U session_init.
Proof.
  unfold session_ok, tidy, session_init.
  cbn [persons next_id calculated results List.length map].
  split; [lia |]. split; [| discriminate].
  repeat split; try constructor; lia.
Qed.

Lemma reachable_ok U st : reachable U st -> session_ok U st.
Proof.
  induction 1 as [| w st _ IH]; [apply session_init_ok | apply run_ok, IH].
Qed.

(** ** The calculation as it is shown *)

Lemma shown_eur_zero : shown_eur 0 = Ok (S754_zero false).
Proof. vm_compute. reflexivity. Qed.

Lemma combine_map_fst_snd {A B} (l : list (A * B)) :
  combine (map fst l) (map snd l) = l.
Proof.
  induction l as [| [a b] l IH]; cbn [map combine fst snd];
    [| rewrite IH]; reflexivity.
Qed.

Lemma map_pair_combine {A B} (f : A -> B) (l : list A) :
  map (fun a => (a, f a)) l = combine l (map f l).
Proof.
  induction l as [| a l IH]; cbn [map combine]; [| rewrite IH]; reflexivity.
Qed.

(** The row of a person gets the labels in their order. *)
Lemma calc_label_loop_row (b : dict Z) (labels : list str) :
  NoDup labels ->
  forall row counts rc,
    (forall l, In l labels -> ~ In l (map fst row)) ->
    for_each (calc_label_body b) labels (row, counts) = Ok rc ->
    fst rc = row ++ map (fun l => (l, get b l 0)) labels.
Proof.
  induction 1 as [| lbl labels Hnotin Hnd IH]; intros row counts rc Hfresh.
  - cbn [for_each map]. intros [= <-]. rewrite app_nil_r. reflexivity.
  - cbn [for_each]. unfold calc_label_body at 1.
    destruct (getitem counts lbl) as [old |]; cbn [bind]; [| discriminate].
    rewrite (setitem_fresh row lbl) by (apply Hfresh; left; reflexivity).
    intros Hrun. apply IH in Hrun.
    + rewrite Hrun, <- app_assoc. reflexivity.
    + intros l Hl. rewrite map_app, in_app_iff. cbn [map fst In].
      intros [Hin | [<- | []]]; [| contradiction].
      exact (Hfresh l (or_intror Hl) Hin).
Qed.

Lemma greedy_keys c :
  map fst (combine DENOM_LABELS (fst (greedy MINOR_UNITS c))) = DENOM_LABELS.
Proof.
  apply combine_fst_snd. rewrite greedy_length. apply DENOM_LABELS_length.
Qed.

Lemma greedy_counts_of c :
  counts_of (combine DENOM_LABELS (fst (greedy MINOR_UNITS c)))
  = fst (greedy MINOR_UNITS c).
Proof.
  rewrite (counts_of_ordered _ (greedy_keys c)).
  apply combine_fst_snd. rewrite greedy_length. apply DENOM_LABELS_length.
Qed.

Lemma add_all_counts_cons (row : list Z) rows so_far :
  add_all_counts (row :: rows) so_far
  = add_all_counts rows (add_counts row so_far).
Proof. reflexivity. Qed.

Lemma sum_cons (x : Z) xs : sum (x :: xs) = x + sum xs.
Proof. reflexivity. Qed.

Section ShownFacts.
Variable U : runtime.

(** One person of the calculation. *)
Lemma shown_person_step (st st' : shown_state) (p : person) :
  map fst (shown_summary_counts st) = DENOM_LABELS ->
  shown_person U st p = Ok st' ->
  exists c suma,
    to_cents (person_amount p) = Ok c
    /\ shown_eur c = Ok suma
    /\ shown_rows st'
       = shown_rows st
         ++ [ {| shown_code := person_code p;
                 shown_amount := suma;
                 shown_counts :=
                   combine DENOM_LABELS (fst (greedy MINOR_UNITS c));
                 shown_check := suma;
                 shown_difference := S754_zero false |} ]
    /\ map fst (shown_summary_counts st') = DENOM_LABELS
    /\ counts_of (shown_summary_counts st')
       = add_counts (fst (greedy MINOR_UNITS c))
           (counts_of (shown_summary_counts st))
    /\ shown_total_cents st' = shown_total_cents st + c.
Proof.
  intros Hkeys. unfold shown_person.
  destruct (to_cents (person_amount p)) as [c |] eqn:Ec; cbn [bind];
    [| discriminate].
  rewrite compute_breakdown_eq. cbn [bind].
  rewrite (breakdown_value_cents_counts U). cbn [bind].
  rewrite greedy_weighted_sum, greedy_MINOR_UNITS_left, Z.sub_0_r, Z.sub_diag.
  destruct (shown_eur c) as [suma |] eqn:Es; cbn [bind]; [| discriminate].
  set (b := combine DENOM_LABELS (fst (greedy MINOR_UNITS c))).
  destruct (calc_label_loop b DENOM_LABELS DENOM_LABELS_NoDup []
              (shown_summary_counts st))
    as (row' & counts' & Hrun & Hk & Hin & _).
  { intros l Hl. rewrite Hkeys. exact Hl. }
  pose proof (calc_label_loop_row b DENOM_LABELS DENOM_LABELS_NoDup []
                (shown_summary_counts st) _ (fun _ _ H => H) Hrun) as Hrow.
  cbn [fst app] in Hrow.
  match goal with
  | |- context [bind ?c _] =>
      replace c with (Ok (row', counts')) by (symmetry; exact Hrun)
  end.
  cbn [bind]. rewrite shown_eur_zero. cbn [bind fst snd].
  intros [= <-]. exists c, suma.
  cbn [shown_rows shown_summary_counts shown_total_cents].
  split; [reflexivity |]. split; [exact Es |]. split.
  { do 3 f_equal. rewrite Hrow, map_pair_combine.
    change (map (fun l => get b l 0) DENOM_LABELS) with (counts_of b).
    unfold b. rewrite greedy_counts_of. reflexivity. }
  split; [rewrite Hk; exact Hkeys |]. split; [| reflexivity].
  rewrite <- (greedy_counts_of c). fold b.
  unfold counts_of. rewrite add_counts_map.
  apply map_ext_in. intros l Hl. rewrite (Hin l Hl). lia.
Qed.

(** The loop over the persons. *)
Lemma shown_persons_run (persons : list person) :
  forall st st',
    map fst (shown_summary_counts st) = DENOM_LABELS ->
    for_each (shown_person U) persons st = Ok st' ->
    exists cents sums,
      Forall2 (fun p c => to_cents (person_amount p) = Ok c) persons cents
      /\ Forall2 (fun c suma => shown_eur c = Ok suma) cents sums
      /\ shown_rows st'
         = shown_rows st
           ++ map (fun pcs =>
                     {| shown_code := person_code (fst (fst pcs));
                        shown_amount := snd pcs;
                        shown_counts :=
                          combine DENOM_LABELS
                            (fst (greedy MINOR_UNITS (snd (fst pcs))));
                        shown_check := snd pcs;
                        shown_difference := S754_zero false |})
               (combine (combine persons cents) sums)
      /\ map fst (shown_summary_counts st') = DENOM_LABELS
      /\ counts_of (shown_summary_counts st')
         = add_all_counts (map (fun c => fst (greedy MINOR_UNITS c)) cents)
             (counts_of (shown_summary_counts st))
      /\ shown_total_cents st' = shown_total_cents st + sum cents.
Proof.
  induction persons as [| p persons IH]; intros st st' Hkeys.
  - cbn [for_each]. intros [= <-]. exists [], [].
    cbn [combine map]. unfold add_all_counts, sum. cbn [fold_left fold_right].
    rewrite app_nil_r, Z.add_0_r.
    split; [constructor |]. split; [constructor |].
    split; [reflexivity |]. split; [exact Hkeys |].
    split; reflexivity.
  - cbn [for_each].
    destruct (shown_person U st p) as [st1 |] eqn:E1; cbn [bind];
      [| discriminate].
    destruct (shown_person_step st st1 p Hkeys E1)
      as (c & suma & Hc & Hs & Hr1 & Hk1 & Hc1 & Ht1).
    intros Hrun.
    destruct (IH st1 st' Hk1 Hrun)
      as (cents & sums & Hcs & Hss & Hr & Hk & Hcn & Ht).
    exists (c :: cents), (suma :: sums).
    split; [constructor; assumption |]. split; [constructor; assumption |].
    split.
    { rewrite Hr, Hr1, <- app_assoc. reflexivity. }
    split; [exact Hk |]. split.
    { rewrite Hcn, Hc1, map_cons, add_all_counts_cons. reflexivity. }
    rewrite Ht, Ht1, sum_cons. lia.
Qed.

(** The loop over the denominations. *)
Lemma shown_summary_loop (counts : dict Z) denoms :
  forall units,
    comprehension (fun denom => round (mul_int denom 100)) denoms = Ok units ->
    forall labels sum_rows rows,
      List.length labels = List.length denoms ->
      for_each (shown_summary_body counts) (combine denoms labels) sum_rows
      = Ok rows ->
      exists more,
        rows = sum_rows ++ more
        /\ map shown_label more = labels
        /\ map shown_pieces more = map (fun l => get counts l 0) labels
        /\ Forall2 (fun row v =>
                      shown_eur (shown_pieces row * v) = Ok (shown_value row))
             more units.
Proof.
  induction denoms as [| d denoms IH];
    intros units Hu labels sum_rows rows Hlen.
  - cbn [comprehension] in Hu. injection Hu as <-.
    destruct labels; [| discriminate].
    cbn [combine for_each]. intros [= <-]. exists [].
    rewrite app_nil_r. repeat split; constructor.
  - cbn [comprehension] in Hu.
    destruct (round (mul_int d 100)) as [v |] eqn:Ev; [| discriminate].
    cbn [bind] in Hu.
    destruct (comprehension _ denoms) as [vs |] eqn:Evs; [| discriminate].
    cbn [bind] in Hu. injection Hu as <-.
    destruct labels as [| l labels]; [discriminate |].
    injection Hlen as Hlen.
    cbn [combine for_each]. unfold shown_summary_body at 1.
    destruct (getitem counts l) as [cnt |] eqn:Eg; cbn [bind];
      [| discriminate].
    rewrite Ev. cbn [bind].
    destruct (shown_eur (cnt * v)) as [value |] eqn:Es; cbn [bind];
      [| discriminate].
    intros Hrun.
    destruct (IH vs eq_refl labels _ rows Hlen Hrun)
      as (more & -> & Hl & Hp & Hv).
    eexists (_ :: more). rewrite <- app_assoc. split; [reflexivity |].
    cbn [map shown_label shown_pieces].
    assert (Hcnt : get counts l 0 = cnt).
    { clear - Eg. induction counts as [| [k x] counts IHc];
        cbn [getitem get] in *; [discriminate |].
      destruct (str_eqb k l); [congruence | exact (IHc Eg)]. }
    rewrite Hl, Hp, Hcnt. repeat split.
    constructor; [exact Es | exact Hv].
Qed.

End ShownFacts.

(** ** A form that is left as it is shown *)

Lemma cents_kept_below n : 0 <= n < 10000 -> cents_kept n = true.
Proof.
  intros Hn. pose proof cents_kept_below_100_euros as H.
  rewrite forallb_forall in H. apply H.
  apply in_map_iff. exists (Z.to_nat n). split; [apply Z2Nat.id; lia |].
  apply in_seq. split; [apply Nat.le_0_l |]. apply Z2Nat.inj_lt; lia.
Qed.

Lemma cents_kept_parsed U n :
  cents_kept n = true ->
  unsigned_finite (strtod false n 2) = true
  /\ parse_amount_sk U (Some (format_eur_sk (strtod false n 2)))
     = Ok (true, strtod false n 2, []).
Proof.
  unfold cents_kept. cbn zeta. set (x := strtod false n 2). intros Hk.
  apply andb_prop in Hk as [Hk Hc]. apply andb_prop in Hk as [Hk Hr].
  apply andb_prop in Hk as [Hu Hh].
  apply Z.eqb_eq in Hh. apply float_same_eq in Hr.
  split; [exact Hu |].
  rewrite (format_eur_sk_accepted U x Hu), Hh. fold x.
  rewrite Hr. reflexivity.
Qed.

Lemma SFeqb_unsigned_finite x : unsigned_finite x = true -> SFeqb x x = true.
Proof.
  destruct x as [[|] | | | [|] m e]; try discriminate; intros _;
    [reflexivity |].
  unfold SFeqb, SFcompare. rewrite Z.compare_refl, Pos.compare_cont_refl.
  reflexivity.
Qed.

Lemma form_loop_untouched U w ps : forall calc dels errs,
  Forall (untouched w) ps ->
  form_loop U w ps calc dels errs
  = {| form_persons := ps;
       form_calculated := calc;
       to_delete_ids := dels ++ filter (delete_clicked w) (map person_id ps);
       validation_errors := errs;
       form_raised := None |}.
Proof.
  induction ps as [| p ps IH]; intros calc dels errs Hall; cbn [form_loop].
  - cbn [map filter]. rewrite app_nil_r. reflexivity.
  - inversion Hall as [| ? ? (Ht & n & Hn & Hp) Hall']; subst.
    rewrite Ht, Hp.
    destruct (cents_kept_parsed U n (cents_kept_below n Hn)) as [Hu ->].
    cbn zeta. rewrite (SFeqb_unsigned_finite _ Hu), <- Hp.
    cbn [andb negb]. rewrite (IH _ _ _ Hall').
    cbn [form_persons form_calculated to_delete_ids validation_errors
         form_raised map filter].
    destruct (delete_clicked w (person_id p)); [rewrite <- app_assoc |];
      reflexivity.
Qed.

(** ** Runs of the script *)

Lemma filter_none {A} (l : list A) : filter (fun _ => false) l = [].
Proof. induction l as [| a l IH]; [reflexivity | exact IH]. Qed.

Lemma filter_all {A} (f : A -> bool) (l : list A) :
  Forall (fun a => f a = true) l -> filter f l = l.
Proof.
  induction 1 as [| a l Ha _ IH]; cbn [filter]; [reflexivity |].
  rewrite Ha, IH. reflexivity.
Qed.

(** A run on a form that is left as it is shown: the deletions, or else
    the calculation if it is asked for. *)
Lemma run_untouched_form U w st :
  persons (after_buttons w st) <> [] ->
  Forall (untouched w) (persons (after_buttons w st)) ->
  run U w st
  = match filter (delete_clicked w)
            (map person_id (persons (after_buttons w st))) with
    | [] =>
        if calc_clicked w then
          match calculate_shown U (persons (after_buttons w st)) with
          | Raise e => (after_buttons w st, Some e)
          | Ok res =>
              ({| persons := persons (after_buttons w st);
                  next_id := next_id (after_buttons w st);
                  calculated := true;
                  results := Some res |}, None)
          end
        else (after_buttons w st, None)
    | d :: ds =>
        ({| persons :=
              filter (fun p => negb (id_in (d :: ds) (person_id p)))
                (persons (after_buttons w st));
            next_id := next_id (after_buttons w st);
            calculated := false;
            results := results (after_buttons w st) |}, None)
    end.
Proof.
  intros Hne Hall. unfold run.
  change (if add_ten_clicked w
          then add_ten_persons (if add_clicked w then add_person st else st)
          else if add_clicked w then add_person st else st)
    with (after_buttons w st).
  set (st' := after_buttons w st) in *. clearbody st'.
  destruct (persons st') as [| p0 ps0] eqn:Eps; [contradiction |].
  rewrite <- Eps in *. clear Eps p0 ps0 Hne. cbn zeta.
  rewrite (form_loop_untouched U w (persons st') _ _ _ Hall).
  cbn [form_persons form_calculated to_delete_ids validation_errors
       form_raised app persons next_id calculated results].
  destruct st' as [ps nid calc res].
  cbn [persons next_id calculated results].
  destruct (filter (delete_clicked w) (map person_id ps)); [| reflexivity].
  destruct (calc_clicked w); reflexivity.
Qed.

Lemma zero_untouched w p :
  amount_text w (person_id p) = Some (format_eur_sk (S754_zero false)) ->
  person_amount p = S754_zero false ->
  untouched w p.
Proof.
  intros Ht Hp. split; [rewrite Hp; exact Ht |].
  exists 0. split; [lia | exact Hp].
Qed.

Lemma fresh_persons_untouched w l :
  (forall i, amount_text w i = Some (format_eur_sk (S754_zero false))) ->
  Forall (untouched w) (map fresh_person l).
Proof.
  intros Hw. apply Forall_forall. intros p Hp.
  apply in_map_iff in Hp. destruct Hp as (i & <- & _).
  apply zero_untouched; [apply Hw | reflexivity].
Qed.

(** The session after [n] clicks on the button that adds one person. *)
Lemma added_session U n :
  (n <= 100)%nat ->
  added U n
  = {| persons := map fresh_person (seq 0 n);
       next_id := Z.of_nat n + 1;
       calculated := false;
       results := None |}.
Proof.
  induction n as [| n IH]; intros Hn; [reflexivity |].
  cbn [added]. rewrite IH by lia.
  set (st := {| persons := map fresh_person (seq 0 n);
               next_id := Z.of_nat n + 1;
               calculated := false; results := None |}).
  assert (Hst : after_buttons click_add st
                = {| persons := map fresh_person (seq 0 (S n));
                     next_id := Z.of_nat (S n) + 1;
                     calculated := false; results := None |}).
  { unfold after_buttons, click_add, add_person.
    cbn [add_clicked add_ten_clicked]. unfold st at 1. cbn [persons].
    rewrite length_map, length_seq.
    rewrite (proj2 (Z.ltb_lt (Z.of_nat n) 100)) by lia.
    unfold set_calculated, append_person, st.
    cbn [persons next_id calculated results].
    rewrite length_map, length_seq, seq_S, map_app. cbn [map Nat.add].
    unfold fresh_person at 3. f_equal. lia. }
  rewrite run_untouched_form; rewrite Hst; cbn [persons].
  - cbn [click_add delete_clicked calc_clicked].
    rewrite filter_none. reflexivity.
  - rewrite seq_S, map_app. intros H. apply app_eq_nil in H as [_ H].
    discriminate.
  - apply fresh_persons_untouched. reflexivity.
Qed.

Lemma added_reachable U n : reachable U (added U n).
Proof.
  induction n as [| n IH]; [apply reach_init |].
  cbn [added]. apply reach_run, IH.
Qed.

Lemma NoDup_map_injective {A B} (f : A -> B) (l : list A) :
  (forall a b, f a = f b -> a = b) -> NoDup l -> NoDup (map f l).
Proof.
  intros Hf. induction 1 as [| a l Hnotin _ IH]; cbn [map]; constructor;
    [| exact IH].
  intros Hin. apply in_map_iff in Hin. destruct Hin as (b & Hb & Hin).
  apply Hf in Hb. subst b. contradiction.
Qed.

Lemma fresh_person_codes l :
  map letters_value (map person_code (map fresh_person l))
  = map (fun i => Z.of_nat i + 1) l.
Proof.
  rewrite !map_map. apply map_ext. intros i.
  cbn [fresh_person person_code]. apply idx_to_person_code_value. lia.
Qed.

Lemma fresh_person_codes_NoDup l :
  NoDup l -> NoDup (map person_code (map fresh_person l)).
Proof.
  intros Hl. apply (NoDup_map_inv letters_value).
  rewrite fresh_person_codes.
  apply NoDup_map_injective; [| exact Hl].
  intros i j H. lia.
Qed.

(** The deletions noted for one clicked id. *)
Lemma one_deletion k ids :
  In k ids ->
  exists d ds,
    filter (Z.eqb k) ids = d :: ds
    /\ forall x, id_in (d :: ds) x = (x =? k).
Proof.
  intros Hin.
  assert (Hall : Forall (fun d => d = k) (filter (Z.eqb k) ids)).
  { apply Forall_forall. intros d Hd. apply filter_In in Hd as [_ Hd].
    apply Z.eqb_eq in Hd. congruence. }
  assert (Hk : In k (filter (Z.eqb k) ids))
    by (apply filter_In; split; [exact Hin | apply Z.eqb_refl]).
  destruct (filter (Z.eqb k) ids) as [| d ds]; [contradiction |].
  exists d, ds. split; [reflexivity |].
  intros x. unfold id_in. destruct (x =? k) eqn:E.
  - apply existsb_exists. exists k. split; [exact Hk |].
    apply Z.eqb_eq in E. subst x. apply Z.eqb_refl.
  - destruct (existsb (Z.eqb x) (d :: ds)) eqn:Ex; [| reflexivity].
    apply existsb_exists in Ex. destruct Ex as (y & Hy & Hxy).
    rewrite Forall_forall in Hall. rewrite (Hall y Hy) in Hxy. congruence.
Qed.

(** ** What the calculation shows *)

Lemma shown_rows_Forall2 (persons : list person) :
  forall cents sums,
    Forall2 (fun p c => to_cents (person_amount p) = Ok c) persons cents ->
    Forall2 (fun c suma => shown_eur c = Ok suma) cents sums ->
    Forall2
      (fun p row =>
         shown_code row = person_code p
         /\ exists c,
              to_cents (person_amount p) = Ok c
              /\ compute_breakdown c = Ok (shown_counts row)
              /\ shown_eur c = Ok (shown_amount row)
              /\ shown_check row = shown_amount row
              /\ shown_difference row = S754_zero false)
      persons
      (map (fun pcs =>
              {| shown_code := person_code (fst (fst pcs));
                 shown_amount := snd pcs;
                 shown_counts :=
                   combine DENOM_LABELS
                     (fst (greedy MINOR_UNITS (snd (fst pcs))));
                 shown_check := snd pcs;
                 shown_difference := S754_zero false |})
         (combine (combine persons cents) sums)).
Proof.
  induction persons as [| p persons IH]; intros cents sums Hc Hs.
  - inversion Hc; subst. inversion Hs; subst. constructor.
  - inversion Hc as [| ? c ? cents' Hpc Hc']; subst.
    inversion Hs as [| ? suma ? sums' Hcs Hs']; subst.
    cbn [combine]. rewrite map_cons. constructor; [| apply IH; assumption].
    cbn [shown_code shown_amount shown_counts shown_check shown_difference
         fst snd].
    split; [reflexivity |]. exists c.
    split; [exact Hpc |]. split; [apply compute_breakdown_eq |].
    split; [exact Hcs |]. split; reflexivity.
Qed.

(** The parts of a calculation that succeeds: the cents of the persons
    and their euros, the rows made of them, and the summary. *)
Lemma calculate_shown_parts (U : runtime) (persons : list person)
  (res : shown_result) :
  calculate_shown U persons = Ok res ->
  exists cents sums,
    Forall2 (fun p c => to_cents (person_amount p) = Ok c) persons cents
    /\ Forall2 (fun c suma => shown_eur c = Ok suma) cents sums
    /\ shown_persons res
       = map (fun pcs =>
                {| shown_code := person_code (fst (fst pcs));
                   shown_amount := snd pcs;
                   shown_counts :=
                     combine DENOM_LABELS
                       (fst (greedy MINOR_UNITS (snd (fst pcs))));
                   shown_check := snd pcs;
                   shown_difference := S754_zero false |})
           (combine (combine persons cents) sums)
    /\ map shown_label (shown_summary res) = DENOM_LABELS
    /\ Forall2 (fun row v =>
                  shown_eur (shown_pieces row * v) = Ok (shown_value row))
         (shown_summary res) MINOR_UNITS
    /\ map shown_pieces (shown_summary res)
       = aggregate_counts (map (fun c => fst (greedy MINOR_UNITS c)) cents)
    /\ shown_eur (sum cents) = Ok (shown_total res).
Proof.
  unfold calculate_shown.
  set (st0 := calc_init).
  destruct (for_each (shown_person U) persons st0) as [st |] eqn:Erun;
    cbn [bind]; [| discriminate].
  destruct (shown_persons_run U persons st0 st calc_init_keys Erun)
    as (cents & sums & Hc & Hs & Hrows & Hkeys & Hcounts & Htotal).
  unfold st0 in Hrows, Hcounts, Htotal.
  change (shown_rows calc_init) with (@nil shown_row) in Hrows.
  change (shown_total_cents calc_init) with 0 in Htotal.
  cbn [app] in Hrows.
  destruct (for_each (shown_summary_body (shown_summary_counts st)) _ [])
    as [sum_rows |] eqn:Esum; cbn [bind]; [| discriminate].
  destruct (shown_summary_loop (shown_summary_counts st) DENOMS_EUR
              MINOR_UNITS MINOR_UNITS_loaded DENOM_LABELS [] sum_rows
              eq_refl Esum)
    as (more & Hmore & Hl & Hp & Hv).
  cbn [app] in Hmore. subst more.
  destruct (shown_eur (shown_total_cents st)) as [total |] eqn:Et;
    cbn [bind]; [| discriminate].
  intros [= <-]. cbn [shown_persons shown_summary shown_total].
  exists cents, sums.
  split; [exact Hc |]. split; [exact Hs |]. split; [exact Hrows |].
  split; [exact Hl |]. split; [exact Hv |]. split.
  - rewrite Hp. unfold aggregate_counts. rewrite <- calc_init_counts.
    exact Hcounts.
  - rewrite <- Et, Htotal, Z.add_0_l. reflexivity.
Qed.

(** X13: when the calculation succeeds, the row of each person carries
    the person's code, the greedy breakdown of the amount in cents and the
    amount in euros; the check column repeats the amount and the column
    of the difference is [0.0].  The summary has one row for each label,
    in their order, with the pieces of all persons added up and their
    value in euros, and the total is the sum of the amounts. *)
Theorem calculate_shown_rows (U : runtime) (persons : list person)
  (res : shown_result) :
  calculate_shown U persons = Ok res ->
  Forall2
    (fun p row =>
       shown_code row = person_code p
       /\ exists c,
            to_cents (person_amount p) = Ok c
            /\ compute_breakdown c = Ok (shown_counts row)
            /\ shown_eur c = Ok (shown_amount row)
            /\ shown_check row = shown_amount row
            /\ shown_difference row = S754_zero false)
    persons (shown_persons res)
  /\ map shown_label (shown_summary res) = DENOM_LABELS
  /\ Forall2 (fun row v =>
                shown_eur (shown_pieces row * v) = Ok (shown_value row))
       (shown_summary res) MINOR_UNITS
  /\ exists cents,
       Forall2 (fun p c => to_cents (person_amount p) = Ok c) persons cents
       /\ map shown_pieces (shown_summary res)
          = aggregate_counts (map (fun c => fst (greedy MINOR_UNITS c)) cents)
       /\ shown_eur (sum cents) = Ok (shown_total res).
Proof.
  intros H.
  destruct (calculate_shown_parts U persons res H)
    as (cents & sums & Hc & Hs & Hrows & Hl & Hv & Hp & Ht).
  split; [rewrite Hrows; apply shown_rows_Forall2; assumption |].
  split; [exact Hl |]. split; [exact Hv |].
  exists cents. split; [exact Hc |]. split; assumption.
Qed.

Lemma calculate_shown_rows_witness :
  exists res,
    calculate_shown ascii_runtime
      [ {| person_id := 1; person_code := lit "A";
           person_amount := strtod false 1234 2 |};
        {| person_id := 2; person_code := lit "B";
           person_amount := strtod false 705 2 |} ]
    = Ok res
    /\ map shown_label (shown_summary res) = DENOM_LABELS
    /\ Forall2 (fun row v =>
                  shown_eur (shown_pieces row * v) = Ok (shown_value row))
         (shown_summary res) MINOR_UNITS.
Proof.
  destruct (calculate_shown ascii_runtime
              [ {| person_id := 1; person_code := lit "A";
                   person_amount := strtod false 1234 2 |};
                {| person_id := 2; person_code := lit "B";
                   person_amount := strtod false 705 2 |} ])
    as [res | e] eqn:E; [| vm_compute in E; discriminate].
  exists res. split; [reflexivity |].
  destruct (calculate_shown_rows ascii_runtime _ res E) as (_ & Hl & Hv & _).
  split; assumption.
Defined.

(** ** The session over the runs of the script *)

(** X9: a session never holds more than 100 persons; in a session the
    script can reach, the button that adds one person leaves
    [min(len + 1, 100)] persons and the button that adds ten leaves
    [min(len + 10, 100)]. *)
Theorem session_person_limit (U : runtime) (st : session) :
  reachable U st ->
  (List.length (persons st) <= 100)%nat
  /\ List.length (persons (add_person st))
     = Nat.min (List.length (persons st) + 1) 100
  /\ List.length (persons (add_ten_persons st))
     = Nat.min (List.length (persons st) + 10) 100.
Proof.
  intros H. destruct (reachable_ok U st H) as (Hlen & _ & _).
  split; [exact Hlen |]. split.
  - rewrite add_person_length.
    destruct (Z.of_nat (List.length (persons st)) <? 100) eqn:E.
    + apply Z.ltb_lt in E. lia.
    + apply Z.ltb_ge in E. lia.
  - rewrite add_ten_persons_length. lia.
Qed.

Lemma session_person_limit_witness :
  reachable ascii_runtime (added ascii_runtime 95)
  /\ (List.length (persons (added ascii_runtime 95)) <= 100)%nat
  /\ List.length (persons (add_person (added ascii_runtime 95)))
     = Nat.min (List.length (persons (added ascii_runtime 95)) + 1) 100
  /\ List.length (persons (add_ten_persons (added ascii_runtime 95)))
     = Nat.min (List.length (persons (added ascii_runtime 95)) + 10) 100.
Proof.
  assert (H : reachable ascii_runtime (added ascii_runtime 95))
    by apply added_reachable.
  split; [exact H | exact (session_person_limit ascii_runtime _ H)].
Defined.

(** X10: in every session the script can reach the ids of the persons are
    pairwise distinct, at least 1 and below [next_id]. *)
Theorem session_ids_unique (U : runtime) (st : session) :
  reachable U st ->
  NoDup (map person_id (persons st))
  /\ Forall (fun p => 1 <= person_id p < next_id st) (persons st).
Proof.
  intros H. destruct (reachable_ok U st H) as (_ & (_ & Hnd & Hid & _) & _).
  split; assumption.
Qed.

Lemma session_ids_unique_witness :
  reachable ascii_runtime (added ascii_runtime 3)
  /\ NoDup (map person_id (persons (added ascii_runtime 3)))
  /\ Forall (fun p => 1 <= person_id p < next_id (added ascii_runtime 3))
       (persons (added ascii_runtime 3)).
Proof.
  assert (H : reachable ascii_runtime (added ascii_runtime 3))
    by apply added_reachable.
  split; [exact H | exact (session_ids_unique ascii_runtime _ H)].
Defined.

(** X11: whenever [calculated] is set, the stored tables are there (the
    test [per_person_df is not None] holds) and they are the calculation
    of the persons and amounts the session holds now. *)
Theorem session_results_current (U : runtime) (st : session) :
  reachable U st ->
  calculated st = true ->
  exists res,
    results st = Some res /\ calculate_shown U (persons st) = Ok res.
Proof.
  intros H. destruct (reachable_ok U st H) as (_ & _ & Hc). exact Hc.
Qed.

Lemma session_results_current_witness :
  reachable ascii_runtime
    (fst (run ascii_runtime (click_calc (lit "12,34")) (added ascii_runtime 2)))
  /\ calculated
       (fst (run ascii_runtime (click_calc (lit "12,34"))
               (added ascii_runtime 2))) = true
  /\ exists res,
       results
         (fst (run ascii_runtime (click_calc (lit "12,34"))
                 (added ascii_runtime 2))) = Some res
       /\ calculate_shown ascii_runtime
            (persons
               (fst (run ascii_runtime (click_calc (lit "12,34"))
                       (added ascii_runtime 2)))) = Ok res.
Proof.
  assert (H : reachable ascii_runtime
                (fst (run ascii_runtime (click_calc (lit "12,34"))
                        (added ascii_runtime 2))))
    by apply reach_run, added_reachable.
  assert (Hc : calculated
                 (fst (run ascii_runtime (click_calc (lit "12,34"))
                         (added ascii_runtime 2))) = true)
    by (vm_compute; reflexivity).
  split; [exact H |]. split; [exact Hc |].
  exact (session_results_current ascii_runtime _ H Hc).
Defined.

(** X12: no person of a session the script can reach has a negative
    amount, a minus zero or a NaN, and an amount that converts to cents
    gives cents that are not negative. *)
Theorem session_amounts_not_negative (U : runtime) (st : session) :
  reachable U st ->
  Forall (fun p =>
            unsigned (person_amount p) = true
            /\ forall cents, to_cents (person_amount p) = Ok cents ->
                             0 <= cents)
    (persons st).
Proof.
  intros H. destruct (reachable_ok U st H) as (_ & (_ & _ & _ & Hu) & _).
  eapply Forall_impl; [| exact Hu]. cbn beta. intros p Hp.
  split; [exact Hp |]. intros cents. apply to_cents_unsigned, Hp.
Qed.

Lemma session_amounts_not_negative_witness :
  reachable ascii_runtime (added ascii_runtime 3)
  /\ Forall (fun p =>
               unsigned (person_amount p) = true
               /\ forall cents, to_cents (person_amount p) = Ok cents ->
                                0 <= cents)
       (persons (added ascii_runtime 3)).
Proof.
  assert (H : reachable ascii_runtime (added ascii_runtime 3))
    by apply added_reachable.
  split; [exact H | exact (session_amounts_not_negative ascii_runtime _ H)].
Defined.

(** X15: a run in which no button is clicked and every amount field holds
    the text the form shows for the amount (amounts of whole cents below
    100 euros) leaves the session as it is and raises nothing. *)
Theorem untouched_form_changes_nothing (U : runtime) (w : widgets)
  (st : session) :
  add_clicked w = false ->
  add_ten_clicked w = false ->
  calc_clicked w = false ->
  Forall (fun p => delete_clicked w (person_id p) = false) (persons st) ->
  Forall (untouched w) (persons st) ->
  run U w st = (st, None).
Proof.
  intros Ha Ht Hc Hd Hu.
  assert (Hst : after_buttons w st = st)
    by (unfold after_buttons; rewrite Ha, Ht; reflexivity).
  destruct (persons st) as [| p0 ps0] eqn:Eps.
  - unfold run. rewrite Ha, Ht, Eps. reflexivity.
  - rewrite <- Eps in *.
    rewrite run_untouched_form; rewrite Hst;
      [| rewrite Eps; discriminate | exact Hu].
    rewrite Hc.
    replace (filter (delete_clicked w) (map person_id (persons st)))
      with (@nil Z); [reflexivity |].
    clear - Hd. induction Hd as [| p ps Hp _ IH]; [reflexivity |].
    cbn [map filter]. rewrite Hp. exact IH.
Qed.

Lemma untouched_form_changes_nothing_witness :
  Forall (untouched leave_as_shown) (persons (added ascii_runtime 2))
  /\ run ascii_runtime leave_as_shown (added ascii_runtime 2)
     = (added ascii_runtime 2, None).
Proof.
  assert (H : Forall (untouched leave_as_shown)
                (persons (added ascii_runtime 2))).
  { rewrite (added_session ascii_runtime 2) by lia.
    apply fresh_persons_untouched. reflexivity. }
  split; [exact H |].
  apply untouched_form_changes_nothing; try reflexivity; [| exact H].
  rewrite (added_session ascii_runtime 2) by lia.
  repeat constructor.
Defined.

(** X14: person codes go by position and ids by a counter, so codes can
    repeat.  After [n] clicks on the button that adds one person the
    codes are pairwise distinct; delete any person but the last and add
    one again: the session then holds two persons with the code of
    position [n - 1], while the ids stay distinct. *)
Theorem person_code_reused (U : runtime) (n k : nat) :
  (k + 1 < n <= 100)%nat ->
  let st := added U n in
  let st1 := fst (run U (click_delete (Z.of_nat k + 1)) st) in
  let st2 := fst (run U click_add st1) in
  NoDup (map person_code (persons st))
  /\ reachable U st2
  /\ NoDup (map person_id (persons st2))
  /\ ~ NoDup (map person_code (persons st2)).
Proof.
  intros Hn st st1 st2.
  assert (Hreach : reachable U st2)
    by (apply reach_run, reach_run, added_reachable).
  assert (Hst : st = {| persons := map fresh_person (seq 0 n);
                        next_id := Z.of_nat n + 1;
                        calculated := false; results := None |})
    by (apply added_session; lia).
  split.
  { rewrite Hst. cbn [persons]. apply fresh_person_codes_NoDup, seq_NoDup. }
  split; [exact Hreach |].
  split; [apply (reachable_ok U st2 Hreach) |].
  (* the deletion *)
  assert (Hsplit : seq 0 n = seq 0 k ++ k :: seq (S k) (n - S k)).
  { replace n with (k + S (n - S k))%nat at 1 by lia.
    rewrite seq_app. reflexivity. }
  assert (Hst1 : st1 = {| persons :=
                            map fresh_person (seq 0 k ++ seq (S k) (n - S k));
                          next_id := Z.of_nat n + 1;
                          calculated := false; results := None |}).
  { unfold st1. rewrite Hst.
    set (s := {| persons := map fresh_person (seq 0 n);
                 next_id := Z.of_nat n + 1;
                 calculated := false; results := None |}).
    assert (Hs : after_buttons (click_delete (Z.of_nat k + 1)) s = s)
      by reflexivity.
    rewrite run_untouched_form; rewrite Hs; unfold s; cbn [persons].
    - cbn [click_delete delete_clicked calc_clicked].
      destruct (one_deletion (Z.of_nat k + 1)
                  (map person_id (map fresh_person (seq 0 n))))
        as (d & ds & -> & Hin).
      { rewrite Hsplit, !map_app, !map_cons. apply in_or_app. right. left.
        reflexivity. }
      cbn [fst next_id results]. f_equal.
      rewrite (filter_ext _ (fun p => negb (person_id p =? Z.of_nat k + 1)))
        by (intros p; rewrite Hin; reflexivity).
      rewrite Hsplit, !map_app, map_cons, !filter_app.
      cbn [filter fresh_person person_id]. rewrite Z.eqb_refl. cbn [negb].
      rewrite !filter_all; [reflexivity | |];
        apply Forall_forall; intros p Hp;
        apply in_map_iff in Hp; destruct Hp as (i & <- & Hi);
        apply in_seq in Hi; cbn [fresh_person person_id];
        apply negb_true_iff, Z.eqb_neq; lia.
    - rewrite Hsplit, map_app. intros H. apply app_eq_nil in H as [_ H].
      discriminate.
    - apply fresh_persons_untouched. reflexivity. }
  (* the person added after it *)
  set (ps1 := map fresh_person (seq 0 k ++ seq (S k) (n - S k))) in *.
  assert (Hlen : List.length ps1 = (n - 1)%nat).
  { unfold ps1. rewrite length_map, length_app, !length_seq. lia. }
  set (new := {| person_id := Z.of_nat n + 1;
                 person_code := idx_to_person_code (Z.of_nat (n - 1));
                 person_amount := S754_zero false |}).
  assert (Hst2 : persons st2 = ps1 ++ [new]).
  { unfold st2. rewrite Hst1.
    set (s := {| persons := ps1; next_id := Z.of_nat n + 1;
                 calculated := false; results := None |}).
    assert (Hs : after_buttons click_add s
                 = {| persons := ps1 ++ [new];
                      next_id := Z.of_nat n + 1 + 1;
                      calculated := false; results := None |}).
    { unfold after_buttons, click_add, add_person.
      cbn [add_clicked add_ten_clicked]. unfold s at 1. cbn [persons].
      rewrite Hlen.
      rewrite (proj2 (Z.ltb_lt (Z.of_nat (n - 1)) 100)) by lia.
      unfold set_calculated, append_person, s.
      cbn [persons next_id calculated results]. rewrite Hlen. reflexivity. }
    rewrite run_untouched_form; rewrite Hs; cbn [persons].
    - cbn [click_add delete_clicked calc_clicked].
      rewrite filter_none. reflexivity.
    - intros H. apply app_eq_nil in H as [_ H]. discriminate.
    - apply Forall_app. split.
      + apply fresh_persons_untouched. reflexivity.
      + constructor; [| constructor].
        apply zero_untouched; reflexivity. }
  rewrite Hst2, map_app. cbn [map]. intros Hnd.
  apply NoDup_remove_2 in Hnd. apply Hnd. rewrite app_nil_r.
  apply in_map_iff. exists (fresh_person (n - 1)). split; [reflexivity |].
  unfold ps1. apply in_map, in_or_app. right. apply in_seq. lia.
Qed.

Lemma person_code_reused_witness :
  (0 + 1 < 2 <= 100)%nat
  /\ NoDup (map person_code (persons (added ascii_runtime 2)))
  /\ reachable ascii_runtime
       (fst (run ascii_runtime click_add
               (fst (run ascii_runtime (click_delete (Z.of_nat 0 + 1))
                       (added ascii_runtime 2)))))
  /\ NoDup (map person_id
              (persons
                 (fst (run ascii_runtime click_add
                         (fst (run ascii_runtime
                                 (click_delete (Z.of_nat 0 + 1))
                                 (added ascii_runtime 2)))))))
  /\ ~ NoDup (map person_code
                (persons
                   (fst (run ascii_runtime click_add
                           (fst (run ascii_runtime
                                   (click_delete (Z.of_nat 0 + 1))
                                   (added ascii_runtime 2))))))).
Proof.
  split; [lia | apply (person_code_reused ascii_runtime 2 0); lia].
Defined.

(** ** Integers that convert to a float *)

Lemma digits2_pos_size p : digits2_pos p = Pos.size p.
Proof. induction p as [p IH | p IH |]; cbn; [rewrite IH .. |]; reflexivity. Qed.

Lemma digits2_pos_iter p k :
  digits2_pos (Pos.iter xO p k) = (digits2_pos p + k)%positive.
Proof.
  induction k as [| k IH] using Pos.peano_ind.
  - cbn. lia.
  - rewrite Pos.iter_succ. cbn [digits2_pos]. rewrite IH. lia.
Qed.

Lemma digits2_pos_below p :
  Z.pos p < 2 ^ 53 -> Z.pos (digits2_pos p) <= 53.
Proof.
  intros Hp. rewrite digits2_pos_size.
  destruct (Z_le_gt_dec (Z.pos (Pos.size p)) 53) as [H | H]; [exact H |].
  pose proof (Pos.size_le p) as Hs.
  apply Pos2Z.pos_le_pos in Hs. rewrite Pos2Z.inj_pow in Hs.
  assert (H54 : 2 ^ 54 <= 2 ^ Z.pos (Pos.size p))
    by (apply Z.pow_le_mono_r; lia).
  change (2 ^ 54) with (2 * 2 ^ 53) in H54. lia.
Qed.

(** A mantissa of 53 bits with an exponent in range is the float. *)
Lemma binary_round_aux_canonical s m e :
  Z.pos (digits2_pos m) = 53 -> -1074 <= e <= 971 ->
  binary_round_aux prec emax s (Z.pos m) e loc_Exact = S754_finite s m e.
Proof.
  intros Hd He. unfold binary_round_aux, shr_fexp, fexp, emin.
  cbn [Zdigits2 shr_record_of_loc]. rewrite Hd.
  replace (Z.max (53 + e - prec) (3 - emax - prec) - e) with 0
    by (unfold prec, emax; lia).
  cbn [shr shr_m loc_of_shr_record round_nearest_even Zdigits2
       shr_record_of_loc].
  rewrite Hd.
  replace (Z.max (53 + e - prec) (3 - emax - prec) - e) with 0
    by (unfold prec, emax; lia).
  cbn [shr shr_m].
  rewrite (proj2 (Z.leb_le e (emax - prec))) by (unfold prec, emax; lia).
  reflexivity.
Qed.

Lemma binary_round_below s p :
  Z.pos p < 2 ^ 53 ->
  exists m e, binary_round prec emax s p 0 = S754_finite s m e.
Proof.
  intros Hp. pose proof (digits2_pos_below p Hp) as Hd.
  unfold binary_round, shl_align, fexp, emin.
  replace (Z.max (Z.pos (digits2_pos p) + 0 - prec) (3 - emax - prec))
    with (Z.pos (digits2_pos p) - 53) by (unfold prec, emax; lia).
  rewrite Z.sub_0_r.
  destruct (Z.pos (digits2_pos p) - 53) as [| k | k] eqn:Ek; [| lia |].
  - exists p, 0. apply binary_round_aux_canonical; lia.
  - exists (Pos.iter xO p k), (Z.neg k).
    apply binary_round_aux_canonical; [rewrite digits2_pos_iter |]; lia.
Qed.

Lemma float_of_Z_below n :
  0 <= n < 2 ^ 53 -> exists f, float_of_Z n = Ok f.
Proof.
  intros Hn. unfold float_of_Z, binary_normalize.
  destruct n as [| p | p]; [eexists; reflexivity | | lia].
  destruct (binary_round_below false p (proj2 Hn)) as (m & e & ->).
  eexists. reflexivity.
Qed.

Lemma shown_eur_below n : 0 <= n < 2 ^ 53 -> exists x, shown_eur n = Ok x.
Proof.
  intros Hn. unfold shown_eur, cents_to_eur.
  destruct (float_of_Z_below n Hn) as (f & ->). cbn [bind].
  eexists. reflexivity.
Qed.

(** ** The calculation runs through *)

Lemma sum_nonneg xs : Forall (fun x => 0 <= x) xs -> 0 <= sum xs.
Proof.
  induction 1 as [| x xs Hx _ IH]; [reflexivity |]. rewrite sum_cons. lia.
Qed.

Lemma sum_bounds xs :
  Forall (fun x => 0 <= x) xs -> Forall (fun x => 0 <= x <= sum xs) xs.
Proof.
  induction 1 as [| x xs Hx Hxs IH]; constructor.
  - rewrite sum_cons. pose proof (sum_nonneg xs Hxs). lia.
  - eapply Forall_impl; [| exact IH]. cbn beta. intros y Hy.
    rewrite sum_cons. lia.
Qed.

Lemma weighted_sum_nonneg cs : forall vs,
  Forall (fun c => 0 <= c) cs -> Forall (fun v => 0 < v) vs ->
  0 <= weighted_sum cs vs.
Proof.
  induction cs as [| c cs IH]; intros [| v vs] Hc Hv; cbn [weighted_sum];
    try lia.
  inversion Hc; subst. inversion Hv; subst.
  pose proof (IH vs ltac:(assumption) ltac:(assumption)). nia.
Qed.

Lemma weighted_sum_terms cs : forall vs,
  Forall (fun c => 0 <= c) cs -> Forall (fun v => 0 < v) vs ->
  List.length cs = List.length vs ->
  Forall2 (fun c v => 0 <= c * v <= weighted_sum cs vs) cs vs.
Proof.
  induction cs as [| c cs IH]; intros [| v vs] Hc Hv Hlen;
    try discriminate; [constructor |].
  inversion Hc as [| ? ? Hc0 Hcs]; subst.
  inversion Hv as [| ? ? Hv0 Hvs]; subst.
  injection Hlen as Hlen. cbn [weighted_sum].
  pose proof (weighted_sum_nonneg cs vs Hcs Hvs) as Hw.
  constructor; [nia |].
  eapply Forall2_impl; [| exact (IH vs Hcs Hvs Hlen)].
  cbn beta. intros a b Hab. nia.
Qed.

Lemma add_counts_nonneg xs : forall ys,
  Forall (fun c => 0 <= c) xs -> Forall (fun c => 0 <= c) ys ->
  Forall (fun c => 0 <= c) (add_counts xs ys).
Proof.
  induction xs as [| x xs IH]; intros [| y ys] Hx Hy; cbn [add_counts];
    try constructor.
  - inversion Hx; inversion Hy; subst. lia.
  - inversion Hx; inversion Hy; subst. apply IH; assumption.
Qed.

Lemma add_all_counts_nonneg rows : forall so_far,
  Forall (Forall (fun c => 0 <= c)) rows ->
  Forall (fun c => 0 <= c) so_far ->
  Forall (fun c => 0 <= c) (add_all_counts rows so_far).
Proof.
  induction rows as [| row rows IH]; intros so_far Hr Hs; [exact Hs |].
  rewrite add_all_counts_cons. inversion Hr; subst.
  apply IH; [assumption |]. apply add_counts_nonneg; assumption.
Qed.

Lemma Forall2_map_left {A B C} (P : B -> C -> Prop) (f : A -> B) l : forall r,
  Forall2 P (map f l) r -> Forall2 (fun a c => P (f a) c) l r.
Proof.
  induction l as [| a l IH]; intros r H; inversion H; subst; constructor;
    [assumption |]. apply IH. assumption.
Qed.

Section RunsThrough.
Variable U : runtime.

Lemma shown_person_runs (st : shown_state) (p : person) (c : Z) :
  map fst (shown_summary_counts st) = DENOM_LABELS ->
  to_cents (person_amount p) = Ok c ->
  0 <= c < 2 ^ 53 ->
  exists st', shown_person U st p = Ok st'.
Proof.
  intros Hkeys Hc Hb. unfold shown_person. rewrite Hc. cbn [bind].
  rewrite compute_breakdown_eq. cbn [bind].
  rewrite (breakdown_value_cents_counts U). cbn [bind].
  rewrite greedy_weighted_sum, greedy_MINOR_UNITS_left, Z.sub_0_r, Z.sub_diag.
  destruct (shown_eur_below c Hb) as (x & ->). cbn [bind].
  set (b := combine DENOM_LABELS (fst (greedy MINOR_UNITS c))).
  destruct (calc_label_loop b DENOM_LABELS DENOM_LABELS_NoDup []
              (shown_summary_counts st))
    as (row' & counts' & Hrun & _).
  { intros l Hl. rewrite Hkeys. exact Hl. }
  match goal with
  | |- context [bind ?c _] =>
      replace c with (Ok (row', counts')) by (symmetry; exact Hrun)
  end.
  cbn [bind]. rewrite shown_eur_zero. cbn [bind]. eexists. reflexivity.
Qed.

Lemma shown_persons_runs (persons : list person) :
  forall cents,
    Forall2 (fun p c => to_cents (person_amount p) = Ok c) persons cents ->
    Forall (fun c => 0 <= c < 2 ^ 53) cents ->
    forall st,
      map fst (shown_summary_counts st) = DENOM_LABELS ->
      exists st', for_each (shown_person U) persons st = Ok st'.
Proof.
  induction 1 as [| p c persons cents Hc _ IH]; intros Hb st Hkeys.
  - exists st. reflexivity.
  - inversion Hb as [| ? ? Hb0 Hbs]; subst.
    destruct (shown_person_runs st p c Hkeys Hc Hb0) as (st1 & H1).
    cbn [for_each]. rewrite H1. cbn [bind].
    destruct (shown_person_step U st st1 p Hkeys H1)
      as (_ & _ & _ & _ & _ & Hk1 & _).
    exact (IH Hbs st1 Hk1).
Qed.

Lemma shown_summary_runs (counts : dict Z) denoms :
  forall units,
    comprehension (fun denom => round (mul_int denom 100)) denoms = Ok units ->
    forall labels sum_rows,
      List.length labels = List.length denoms ->
      (forall l, In l labels -> In l (map fst counts)) ->
      Forall2 (fun l v => 0 <= get counts l 0 * v < 2 ^ 53) labels units ->
      exists rows,
        for_each (shown_summary_body counts) (combine denoms labels) sum_rows
        = Ok rows.
Proof.
  induction denoms as [| d denoms IH];
    intros units Hu labels sum_rows Hlen Hkeys Hb.
  - destruct labels; [| discriminate]. eexists. reflexivity.
  - cbn [comprehension] in Hu.
    destruct (round (mul_int d 100)) as [v |] eqn:Ev; [| discriminate].
    cbn [bind] in Hu.
    destruct (comprehension _ denoms) as [vs |] eqn:Evs; [| discriminate].
    cbn [bind] in Hu. injection Hu as <-.
    destruct labels as [| l labels]; [discriminate |].
    injection Hlen as Hlen. inversion Hb as [| ? ? ? ? Hb0 Hbs]; subst.
    cbn [combine for_each]. unfold shown_summary_body at 1.
    rewrite (getitem_present counts l) by (apply Hkeys; left; reflexivity).
    cbn [bind]. rewrite Ev. cbn [bind].
    destruct (shown_eur_below _ Hb0) as (x & ->). cbn [bind].
    apply (IH vs eq_refl labels _ Hlen); [| exact Hbs].
    intros l' Hl'. apply Hkeys. right. exact Hl'.
Qed.

End RunsThrough.

(** The calculation returns when the cents of each person and their sum
    are within [0] and [2^53]. *)
Lemma calculate_shown_returns (U : runtime) (persons : list person)
  (cents : list Z) :
  Forall2 (fun p c => to_cents (person_amount p) = Ok c) persons cents ->
  Forall (fun c => 0 <= c < 2 ^ 53) cents ->
  0 <= sum cents < 2 ^ 53 ->
  exists res, calculate_shown U persons = Ok res.
Proof.
  intros Hc Hb Hs.
  assert (Hn : Forall (fun c => 0 <= c) cents)
    by (eapply Forall_impl; [| exact Hb]; cbn beta; lia).
  unfold calculate_shown.
  set (st0 := calc_init).
  destruct (shown_persons_runs U persons cents Hc Hb st0 calc_init_keys)
    as (st & Hrun).
  rewrite Hrun. cbn [bind].
  destruct (shown_persons_run U persons st0 st calc_init_keys Hrun)
    as (cents' & sums & Hc' & _ & _ & Hkeys & Hcounts & Htotal).
  assert (cents' = cents).
  { clear - Hc Hc'. revert cents' Hc'.
    induction Hc as [| p c persons cents Hpc _ IH]; intros cents' Hc';
      inversion Hc'; subst; [reflexivity |].
    f_equal; [congruence | apply IH; assumption]. }
  subst cents'. unfold st0 in Hcounts, Htotal.
  change (shown_total_cents calc_init) with 0 in Htotal.
  rewrite calc_init_counts in Hcounts. rewrite Z.add_0_l in Htotal.
  set (rows := map (fun c => fst (greedy MINOR_UNITS c)) cents) in *.
  assert (Hrows : Forall (Forall (fun c => 0 <= c)) rows).
  { unfold rows. apply Forall_forall. intros row Hrow.
    apply in_map_iff in Hrow. destruct Hrow as (c & <- & Hin).
    rewrite Forall_forall in Hn.
    apply (greedy_nonneg MINOR_UNITS c MINOR_UNITS_positive (Hn c Hin)). }
  assert (Hlens : Forall (fun row => List.length row = List.length MINOR_UNITS)
                    rows).
  { unfold rows. apply Forall_forall. intros row Hrow.
    apply in_map_iff in Hrow. destruct Hrow as (c & <- & _).
    apply greedy_length. }
  assert (Hagg : Forall (fun c => 0 <= c)
                   (counts_of (shown_summary_counts st))).
  { rewrite Hcounts. apply add_all_counts_nonneg; [exact Hrows |].
    apply Forall_forall. intros c Hin. apply in_map_iff in Hin.
    destruct Hin as (? & <- & _). lia. }
  assert (Hworth : weighted_sum (counts_of (shown_summary_counts st))
                     MINOR_UNITS = sum cents).
  { rewrite Hcounts, (add_all_counts_worth rows Hlens)
      by (apply length_map).
    replace (weighted_sum (map (fun _ => 0) MINOR_UNITS) MINOR_UNITS)
      with 0 by reflexivity.
    rewrite Z.add_0_l. unfold rows. rewrite map_map. f_equal.
    rewrite <- (map_id cents) at 2. apply map_ext. intros c.
    rewrite greedy_weighted_sum, greedy_MINOR_UNITS_left. lia. }
  destruct (shown_summary_runs (shown_summary_counts st) DENOMS_EUR
              MINOR_UNITS MINOR_UNITS_loaded DENOM_LABELS [] eq_refl)
    as (sum_rows & ->).
  { intros l Hl. rewrite Hkeys. exact Hl. }
  { apply (Forall2_map_left (fun c v => 0 <= c * v < 2 ^ 53)
             (fun l => get (shown_summary_counts st) l 0)).
    change (map (fun l => get (shown_summary_counts st) l 0) DENOM_LABELS)
      with (counts_of (shown_summary_counts st)).
    eapply Forall2_impl;
      [| exact (weighted_sum_terms _ MINOR_UNITS Hagg MINOR_UNITS_positive
                  (counts_of_length _))].
    cbn beta. intros c v Hcv. rewrite Hworth in Hcv. lia. }
  cbn [bind]. rewrite Htotal.
  destruct (shown_eur_below (sum cents) Hs) as (x & ->).
  cbn [bind]. eexists. reflexivity.
Qed.

(** X16: the calculation runs through whenever every amount converts to
    cents that are not negative and the cents of all persons together
    stay below [2^53]. *)
Theorem calculate_shown_runs (U : runtime) (persons : list person)
  (cents : list Z) :
  Forall2 (fun p c => to_cents (person_amount p) = Ok c) persons cents ->
  Forall (fun c => 0 <= c) cents ->
  sum cents < 2 ^ 53 ->
  exists res, calculate_shown U persons = Ok res.
Proof.
  intros Hc Hn Hs.
  apply (calculate_shown_returns U persons cents Hc).
  - eapply Forall_impl; [| exact (sum_bounds cents Hn)]. cbn beta.
    intros c Hcb. lia.
  - split; [apply sum_nonneg; exact Hn | exact Hs].
Qed.

Lemma calculate_shown_runs_witness :
  Forall2 (fun p c => to_cents (person_amount p) = Ok c)
    [ {| person_id := 1; person_code := lit "A";
         person_amount := strtod false 1234 2 |};
      {| person_id := 2; person_code := lit "B";
         person_amount := strtod false 705 2 |} ]
    [1234; 705]
  /\ exists res,
       calculate_shown ascii_runtime
         [ {| person_id := 1; person_code := lit "A";
              person_amount := strtod false 1234 2 |};
           {| person_id := 2; person_code := lit "B";
              person_amount := strtod false 705 2 |} ]
       = Ok res.
Proof.
  assert (H : Forall2 (fun p c => to_cents (person_amount p) = Ok c)
                [ {| person_id := 1; person_code := lit "A";
                     person_amount := strtod false 1234 2 |};
                  {| person_id := 2; person_code := lit "B";
                     person_amount := strtod false 705 2 |} ]
                [1234; 705])
    by (repeat constructor; vm_compute; reflexivity).
  split; [exact H |].
  apply (calculate_shown_runs ascii_runtime _ [1234; 705] H).
  - repeat constructor; lia.
  - vm_compute. reflexivity.
Defined.

(** ** The amount that is shown *)

Lemma cents_shown_below_100_euros :
  forallb cents_shown below_100_euros = true.
Proof. vm_cast_no_check (eq_refl true). Qed.

(** X17: for every amount of whole cents below 100 euros, the
    float nearest to [n / 100] converts to [n] cents and the tables show
    [round(cents_to_eur(n), 2)] as that very float: the amount column
    repeats the amount of the person. *)
Theorem shown_amount_is_the_amount (n : Z) :
  0 <= n < 10000 ->
  to_cents (strtod false n 2) = Ok n
  /\ shown_eur n = Ok (strtod false n 2).
Proof.
  intros Hn.
  assert (Hin : In n below_100_euros).
  { apply in_map_iff. exists (Z.to_nat n). split; [apply Z2Nat.id; lia |].
    apply in_seq. split; [apply Nat.le_0_l |]. apply Z2Nat.inj_lt; lia. }
  split.
  - pose proof (cents_kept_below n Hn) as Hk. unfold cents_kept in Hk.
    cbn zeta in Hk. apply andb_prop in Hk as [_ Hc].
    destruct (to_cents (strtod false n 2)) as [c |]; [| discriminate].
    apply Z.eqb_eq in Hc. congruence.
  - pose proof cents_shown_below_100_euros as H.
    rewrite forallb_forall in H. specialize (H n Hin).
    unfold cents_shown in H.
    destruct (shown_eur n) as [x |]; [| discriminate].
    apply float_same_eq in H. congruence.
Qed.

Lemma shown_amount_is_the_amount_witness :
  0 <= 705 < 10000
  /\ to_cents (strtod false 705 2) = Ok 705
  /\ shown_eur 705 = Ok (strtod false 705 2).
Proof.
  split; [lia | apply (shown_amount_is_the_amount 705); lia].
Defined.

(** ** What a run can raise and what it leaves alone *)

Lemma parse_amount_sk_returns U raw :
  exists ok val err, parse_amount_sk U raw = Ok (ok, val, err).
Proof.
  destruct raw as [raw |]; [| do 3 eexists; reflexivity].
  destruct (list_eq_dec Z.eq_dec (replace 32 [] (strip raw)) []) as [E | Hne].
  { rewrite (parse_amount_sk_empty U raw E). do 3 eexists. reflexivity. }
  destruct (fullmatch (AMOUNT_PATTERN U) (replace 32 [] (strip raw))) eqn:Em.
  - apply AMOUNT_PATTERN_shape in Em.
    destruct (parse_amount_sk_shape U raw Em) as (n & k & _ & ->).
    do 3 eexists. reflexivity.
  - rewrite (parse_amount_sk_other U raw Hne).
    + do 3 eexists. reflexivity.
    + intros H. apply AMOUNT_PATTERN_shape in H. congruence.
Qed.

(** The loop over the persons raises nothing; it notes the ids whose
    delete button is clicked, and an error for every field it rejects,
    whose person it leaves alone. *)
Lemma form_loop_lists U w ps : forall calc dels errs,
  form_raised (form_loop U w ps calc dels errs) = None
  /\ to_delete_ids (form_loop U w ps calc dels errs)
     = dels ++ filter (delete_clicked w) (map person_id ps)
  /\ (errs <> [] -> validation_errors (form_loop U w ps calc dels errs) <> [])
  /\ (forall p val err,
        In p ps ->
        parse_amount_sk U (amount_text w (person_id p)) = Ok (false, val, err) ->
        validation_errors (form_loop U w ps calc dels errs) <> []
        /\ In p (form_persons (form_loop U w ps calc dels errs))).
Proof.
  induction ps as [| p ps IH]; intros calc dels errs; cbn [form_loop].
  - cbn [form_raised to_delete_ids validation_errors form_persons map filter].
    rewrite app_nil_r. split; [reflexivity |]. split; [reflexivity |].
    split; [auto | intros ? ? ? []].
  - destruct (parse_amount_sk_returns U (amount_text w (person_id p)))
      as (ok & val & err & Ep).
    rewrite Ep. cbn zeta.
    cbn [form_raised to_delete_ids validation_errors form_persons map filter].
    match goal with
    | |- context [form_loop U w ps ?c ?d ?e] =>
        destruct (IH c d e) as (H1 & H2 & H3 & H4)
    end.
    split; [exact H1 |]. split.
    { rewrite H2. destruct (delete_clicked w (person_id p));
        [rewrite <- app_assoc |]; reflexivity. }
    split.
    { intros Hne. apply H3. destruct ok; [exact Hne |].
      intros E. apply app_eq_nil in E as [E _]. contradiction. }
    intros q v e [<- | Hin] Hq.
    + rewrite Ep in Hq. injection Hq as -> _ _. cbn [andb].
      split; [| left; reflexivity].
      apply H3. intros E. apply app_eq_nil in E as [_ E]. discriminate.
    + destruct (H4 q v e Hin Hq) as [Hv Hp]. split; [exact Hv |].
      right. exact Hp.
Qed.

Lemma append_persons_results n : forall st,
  results (append_persons n st) = results st.
Proof.
  induction n as [| n IH]; intros st; [reflexivity |].
  cbn [append_persons]. rewrite IH. reflexivity.
Qed.

Lemma add_person_results st : results (add_person st) = results st.
Proof.
  unfold add_person.
  destruct (Z.of_nat (List.length (persons st)) <? 100); reflexivity.
Qed.

Lemma add_ten_persons_results st : results (add_ten_persons st) = results st.
Proof.
  unfold add_ten_persons. cbn zeta.
  destruct (Z.min 10 (100 - Z.of_nat (List.length (persons st))) <=? 0);
    [reflexivity |].
  cbn [set_calculated results]. apply append_persons_results.
Qed.

Lemma after_buttons_results w st : results (after_buttons w st) = results st.
Proof.
  unfold after_buttons. cbn zeta.
  destruct (add_ten_clicked w); [rewrite add_ten_persons_results |];
    destruct (add_clicked w); try reflexivity; apply add_person_results.
Qed.

Lemma id_in_filter (f : Z -> bool) ids x :
  In x ids -> id_in (filter f ids) x = f x.
Proof.
  intros Hin. unfold id_in. destruct (f x) eqn:E.
  - apply existsb_exists. exists x. split; [| apply Z.eqb_refl].
    apply filter_In. split; assumption.
  - destruct (existsb (Z.eqb x) (filter f ids)) eqn:Ex; [| reflexivity].
    apply existsb_exists in Ex. destruct Ex as (y & Hy & Hxy).
    apply Z.eqb_eq in Hxy. subst y. apply filter_In in Hy as [_ Hy].
    congruence.
Qed.

Lemma map_filter_ids (f : Z -> bool) (ps : list person) :
  map person_id (filter (fun p => f (person_id p)) ps)
  = filter f (map person_id ps).
Proof.
  induction ps as [| p ps IH]; [reflexivity |]. cbn [filter map].
  destruct (f (person_id p)); cbn [map]; rewrite IH; reflexivity.
Qed.

Section RaiseFacts.
Variable U : runtime.

Lemma shown_eur_raise c e : shown_eur c = Raise e -> e = OverflowError.
Proof.
  unfold shown_eur, cents_to_eur, float_of_Z.
  destruct (binary_normalize prec emax c 0 false); cbn [bind]; congruence.
Qed.

Lemma shown_person_raise (st : shown_state) (p : person) e :
  map fst (shown_summary_counts st) = DENOM_LABELS ->
  unsigned (person_amount p) = true ->
  shown_person U st p = Raise e -> e = OverflowError.
Proof.
  intros Hkeys Hu. unfold shown_person.
  destruct (to_cents (person_amount p)) as [c | e0] eqn:Ec; cbn [bind];
    [| intros [= <-]; exact (to_cents_raise _ _ Hu Ec)].
  rewrite compute_breakdown_eq. cbn [bind].
  rewrite (breakdown_value_cents_counts U). cbn [bind].
  rewrite greedy_weighted_sum, greedy_MINOR_UNITS_left, Z.sub_0_r, Z.sub_diag.
  destruct (shown_eur c) as [suma | e0] eqn:Es; cbn [bind];
    [| intros [= <-]; exact (shown_eur_raise _ _ Es)].
  set (b := combine DENOM_LABELS (fst (greedy MINOR_UNITS c))).
  destruct (calc_label_loop b DENOM_LABELS DENOM_LABELS_NoDup []
              (shown_summary_counts st))
    as (row' & counts' & Hrun & _).
  { intros l Hl. rewrite Hkeys. exact Hl. }
  match goal with
  | |- context [bind ?c _] =>
      replace c with (Ok (row', counts')) by (symmetry; exact Hrun)
  end.
  cbn [bind]. rewrite shown_eur_zero. cbn [bind]. discriminate.
Qed.

Lemma shown_persons_raise (persons : list person) e :
  Forall (fun p => unsigned (person_amount p) = true) persons ->
  forall st,
    map fst (shown_summary_counts st) = DENOM_LABELS ->
    for_each (shown_person U) persons st = Raise e -> e = OverflowError.
Proof.
  induction 1 as [| p persons Hp _ IH]; intros st Hkeys; cbn [for_each];
    [discriminate |].
  destruct (shown_person U st p) as [st1 | e0] eqn:E1; cbn [bind].
  - destruct (shown_person_step U st st1 p Hkeys E1)
      as (_ & _ & _ & _ & _ & Hk1 & _).
    exact (IH st1 Hk1).
  - intros [= <-]. exact (shown_person_raise st p _ Hkeys Hp E1).
Qed.

Lemma shown_summary_raise (counts : dict Z) denoms e :
  forall units,
    comprehension (fun denom => round (mul_int denom 100)) denoms = Ok units ->
    forall labels sum_rows,
      List.length labels = List.length denoms ->
      (forall l, In l labels -> In l (map fst counts)) ->
      for_each (shown_summary_body counts) (combine denoms labels) sum_rows
      = Raise e ->
      e = OverflowError.
Proof.
  induction denoms as [| d denoms IH];
    intros units Hu labels sum_rows Hlen Hkeys.
  - destruct labels; discriminate.
  - cbn [comprehension] in Hu.
    destruct (round (mul_int d 100)) as [v |] eqn:Ev; [| discriminate].
    cbn [bind] in Hu.
    destruct (comprehension _ denoms) as [vs |] eqn:Evs; [| discriminate].
    destruct labels as [| l labels]; [discriminate |].
    injection Hlen as Hlen.
    cbn [combine for_each]. unfold shown_summary_body at 1.
    rewrite (getitem_present counts l) by (apply Hkeys; left; reflexivity).
    cbn [bind]. rewrite Ev. cbn [bind].
    destruct (shown_eur _) as [x | e0] eqn:Es; cbn [bind];
      [| intros [= <-]; exact (shown_eur_raise _ _ Es)].
    apply (IH vs eq_refl labels _ Hlen).
    intros l' Hl'. apply Hkeys. right. exact Hl'.
Qed.

Lemma calculate_shown_raise (persons : list person) e :
  Forall (fun p => unsigned (person_amount p) = true) persons ->
  calculate_shown U persons = Raise e -> e = OverflowError.
Proof.
  intros Hu. unfold calculate_shown.
  set (st0 := calc_init).
  destruct (for_each (shown_person U) persons st0) as [st | e0] eqn:Erun;
    cbn [bind];
    [| intros [= <-];
       exact (shown_persons_raise persons _ Hu st0 calc_init_keys Erun)].
  destruct (shown_persons_run U persons st0 st calc_init_keys Erun)
    as (_ & _ & _ & _ & _ & Hkeys & _).
  destruct (for_each (shown_summary_body (shown_summary_counts st)) _ [])
    as [sum_rows | e0] eqn:Esum; cbn [bind].
  - destruct (shown_eur _) as [x | e0] eqn:Es; cbn [bind]; [discriminate |].
    intros [= <-]. exact (shown_eur_raise _ _ Es).
  - intros [= <-].
    apply (shown_summary_raise (shown_summary_counts st) DENOMS_EUR e0
             MINOR_UNITS MINOR_UNITS_loaded DENOM_LABELS [] eq_refl);
      [| exact Esum].
    intros l Hl. rewrite Hkeys. exact Hl.
Qed.

End RaiseFacts.

(** ** One run of the script *)

Lemma after_buttons_ok U w st :
  session_ok U st -> session_ok U (after_buttons w st).
Proof.
  intros H. unfold after_buttons. cbn zeta.
  destruct (add_ten_clicked w); [apply add_ten_persons_ok |];
    destruct (add_clicked w); try exact H; apply add_person_ok, H.
Qed.

Lemma run_after_buttons U w st :
  run U w st
  = match persons (after_buttons w st) with
    | [] => (after_buttons w st, None)
    | _ :: _ =>
        let f := form_loop U w (persons (after_buttons w st))
                   (calculated (after_buttons w st)) [] [] in
        let st2 := {| persons := form_persons f;
                      next_id := next_id (after_buttons w st);
                      calculated := form_calculated f;
                      results := results (after_buttons w st) |} in
        match to_delete_ids f with
        | _ :: _ =>
            ({| persons :=
                  filter (fun p => negb (id_in (to_delete_ids f) (person_id p)))
                    (form_persons f);
                next_id := next_id (after_buttons w st);
                calculated := false;
                results := results (after_buttons w st) |}, None)
        | [] =>
            if calc_clicked w
               && negb match validation_errors f with
                       | [] => false
                       | _ => true
                       end
            then
              match calculate_shown U (form_persons f) with
              | Raise e => (st2, Some e)
              | Ok res =>
                  ({| persons := form_persons f;
                      next_id := next_id (after_buttons w st);
                      calculated := true;
                      results := Some res |}, None)
              end
            else (st2, None)
        end
    end.
Proof.
  unfold run.
  change (if add_ten_clicked w
          then add_ten_persons (if add_clicked w then add_person st else st)
          else if add_clicked w then add_person st else st)
    with (after_buttons w st).
  destruct (persons (after_buttons w st)) as [| p0 ps0] eqn:Eps;
    [reflexivity |].
  rewrite <- Eps. clear Eps. cbn zeta.
  destruct (form_loop_lists U w (persons (after_buttons w st))
              (calculated (after_buttons w st)) [] []) as (-> & _).
  cbn [persons next_id calculated results].
  destruct (to_delete_ids _); reflexivity.
Qed.

(** X18: in a session the script can reach, a run raises only in the
    calculation, so only when the button that calculates is clicked, and
    what it raises is [OverflowError]; the session then keeps the persons
    of the form, on which the calculation raises again. *)
Theorem run_raises_only_in_calculation (U : runtime) (w : widgets)
  (st : session) (e : exn) :
  reachable U st ->
  snd (run U w st) = Some e ->
  calc_clicked w = true
  /\ e = OverflowError
  /\ calculate_shown U (persons (fst (run U w st))) = Raise e.
Proof.
  intros Hreach. rewrite run_after_buttons.
  pose proof (after_buttons_ok U w st (reachable_ok U st Hreach))
    as (_ & (_ & _ & _ & Hu) & _).
  destruct (persons (after_buttons w st)) as [| p0 ps0] eqn:Eps;
    [discriminate |].
  rewrite <- Eps in *. clear Eps p0 ps0. cbn zeta.
  destruct (form_loop_facts U w (persons (after_buttons w st))
              (calculated (after_buttons w st)) [] []) as (_ & _ & F3 & _).
  specialize (F3 Hu).
  destruct (to_delete_ids _); [| discriminate].
  destruct (calc_clicked w); [| discriminate]. cbn [andb].
  destruct (negb _); [| discriminate].
  destruct (calculate_shown U (form_persons _)) as [res | e0] eqn:Ecalc;
    [discriminate |].
  cbn [fst snd persons]. intros [= <-].
  split; [reflexivity |].
  split; [exact (calculate_shown_raise U _ _ F3 Ecalc) | exact Ecalc].
Qed.

Lemma run_raises_only_in_calculation_witness :
  reachable ascii_runtime (added ascii_runtime 1)
  /\ snd (run ascii_runtime (click_calc (repeat 57 400))
            (added ascii_runtime 1)) = Some OverflowError
  /\ calc_clicked (click_calc (repeat 57 400)) = true
  /\ OverflowError = OverflowError
  /\ calculate_shown ascii_runtime
       (persons (fst (run ascii_runtime (click_calc (repeat 57 400))
                        (added ascii_runtime 1))))
     = Raise OverflowError.
Proof.
  assert (H : reachable ascii_runtime (added ascii_runtime 1))
    by apply added_reachable.
  assert (He : snd (run ascii_runtime (click_calc (repeat 57 400))
                      (added ascii_runtime 1)) = Some OverflowError)
    by (vm_compute; reflexivity).
  split; [exact H |]. split; [exact He |].
  exact (run_raises_only_in_calculation ascii_runtime _ _ _ H He).
Defined.

(** X19: a field whose text is turned down blocks the calculation: the
    run raises nothing and leaves the stored tables as they are, and the
    person of the field stays as it is unless its delete button is
    clicked. *)
Theorem rejected_field_blocks_calculation (U : runtime) (w : widgets)
  (st : session) (p : person) (val : float) (err : str) :
  In p (persons (after_buttons w st)) ->
  parse_amount_sk U (amount_text w (person_id p)) = Ok (false, val, err) ->
  snd (run U w st) = None
  /\ results (fst (run U w st)) = results st
  /\ (delete_clicked w (person_id p) = false ->
      In p (persons (fst (run U w st)))).
Proof.
  intros Hin Hp. rewrite run_after_buttons.
  pose proof (after_buttons_results w st) as Hres.
  destruct (persons (after_buttons w st)) as [| p0 ps0] eqn:Eps;
    [contradiction |].
  rewrite <- Eps in *. clear Eps p0 ps0. cbn zeta.
  destruct (form_loop_lists U w (persons (after_buttons w st))
              (calculated (after_buttons w st)) [] [])
    as (_ & Hdel & _ & Herr).
  destruct (Herr p val err Hin Hp) as [Hne Hkept].
  destruct (to_delete_ids _) as [| d ds] eqn:Ed.
  - destruct (validation_errors _); [contradiction |].
    cbn [negb]. rewrite andb_false_r. cbn [fst snd persons results].
    split; [reflexivity |]. split; [exact Hres |]. intros _. exact Hkept.
  - cbn [fst snd persons results].
    split; [reflexivity |]. split; [exact Hres |]. intros Hd.
    apply filter_In. split; [exact Hkept |].
    rewrite Hdel. cbn [app].
    rewrite id_in_filter by (apply in_map; exact Hin).
    rewrite Hd. reflexivity.
Qed.

Lemma rejected_field_blocks_calculation_witness :
  In (fresh_person 0)
    (persons (after_buttons (click_calc (lit "1,234")) (added ascii_runtime 1)))
  /\ parse_amount_sk ascii_runtime
       (amount_text (click_calc (lit "1,234")) (person_id (fresh_person 0)))
     = Ok (false, S754_zero false, MSG_FORMAT)
  /\ snd (run ascii_runtime (click_calc (lit "1,234")) (added ascii_runtime 1))
     = None
  /\ results
       (fst (run ascii_runtime (click_calc (lit "1,234"))
               (added ascii_runtime 1)))
     = results (added ascii_runtime 1)
  /\ (delete_clicked (click_calc (lit "1,234")) (person_id (fresh_person 0))
      = false ->
      In (fresh_person 0)
        (persons
           (fst (run ascii_runtime (click_calc (lit "1,234"))
                   (added ascii_runtime 1))))).
Proof.
  assert (H : In (fresh_person 0)
                (persons (after_buttons (click_calc (lit "1,234"))
                            (added ascii_runtime 1))))
    by (vm_compute; left; reflexivity).
  assert (Hp : parse_amount_sk ascii_runtime
                 (amount_text (click_calc (lit "1,234"))
                    (person_id (fresh_person 0)))
               = Ok (false, S754_zero false, MSG_FORMAT))
    by (vm_compute; reflexivity).
  split; [exact H |]. split; [exact Hp |].
  exact (rejected_field_blocks_calculation ascii_runtime _ _ _ _ _ H Hp).
Defined.

(** X20: when the delete button of a person is clicked, the run removes
    exactly the persons whose button is clicked, keeps the others in
    their order, clears [calculated], leaves the stored tables alone and
    does not calculate, whatever else is clicked or typed. *)
Theorem delete_removes_the_clicked (U : runtime) (w : widgets) (st : session)
  (p : person) :
  In p (persons (after_buttons w st)) ->
  delete_clicked w (person_id p) = true ->
  snd (run U w st) = None
  /\ calculated (fst (run U w st)) = false
  /\ results (fst (run U w st)) = results st
  /\ map person_id (persons (fst (run U w st)))
     = filter (fun i => negb (delete_clicked w i))
         (map person_id (persons (after_buttons w st))).
Proof.
  intros Hin Hd. rewrite run_after_buttons.
  pose proof (after_buttons_results w st) as Hres.
  destruct (persons (after_buttons w st)) as [| p0 ps0] eqn:Eps;
    [contradiction |].
  rewrite <- Eps in *. clear Eps p0 ps0. cbn zeta.
  destruct (form_loop_lists U w (persons (after_buttons w st))
              (calculated (after_buttons w st)) [] [])
    as (_ & Hdel & _ & _).
  destruct (form_loop_facts U w (persons (after_buttons w st))
              (calculated (after_buttons w st)) [] []) as (F1 & _).
  cbn [app] in Hdel.
  destruct (to_delete_ids _) as [| d ds] eqn:Ed.
  - exfalso.
    assert (H : In (person_id p)
                  (filter (delete_clicked w)
                     (map person_id (persons (after_buttons w st)))))
      by (apply filter_In; split; [apply in_map; exact Hin | exact Hd]).
    rewrite <- Hdel in H. exact H.
  - cbn [fst snd persons results calculated].
    split; [reflexivity |]. split; [reflexivity |]. split; [exact Hres |].
    rewrite (map_filter_ids (fun i => negb (id_in (d :: ds) i))), F1, Hdel.
    apply filter_ext_in. intros i Hi.
    rewrite id_in_filter by exact Hi. reflexivity.
Qed.

Lemma delete_removes_the_clicked_witness :
  In (fresh_person 0)
    (persons (after_buttons (click_delete 1) (added ascii_runtime 3)))
  /\ delete_clicked (click_delete 1) (person_id (fresh_person 0)) = true
  /\ snd (run ascii_runtime (click_delete 1) (added ascii_runtime 3)) = None
  /\ calculated (fst (run ascii_runtime (click_delete 1)
                        (added ascii_runtime 3))) = false
  /\ results (fst (run ascii_runtime (click_delete 1) (added ascii_runtime 3)))
     = results (added ascii_runtime 3)
  /\ map person_id
       (persons (fst (run ascii_runtime (click_delete 1)
                        (added ascii_runtime 3))))
     = filter (fun i => negb (delete_clicked (click_delete 1) i))
         (map person_id
            (persons (after_buttons (click_delete 1) (added ascii_runtime 3)))).
Proof.
  assert (H : In (fresh_person 0)
                (persons (after_buttons (click_delete 1)
                            (added ascii_runtime 3))))
    by (vm_compute; left; reflexivity).
  assert (Hd : delete_clicked (click_delete 1) (person_id (fresh_person 0))
               = true) by reflexivity.
  split; [exact H |]. split; [exact Hd |].
  exact (delete_removes_the_clicked ascii_runtime _ _ _ H Hd).
Defined.

(** ** The calculation of a session *)

Lemma Forall_Forall2_exists {A B} (R : A -> B -> Prop) (l : list A) :
  Forall (fun a => exists b, R a b) l -> exists bs, Forall2 R l bs.
Proof.
  induction 1 as [| a l (b & Hb) _ (bs & Hbs)].
  - exists []. constructor.
  - exists (b :: bs). constructor; assumption.
Qed.

Lemma sum_below bound xs :
  Forall (fun x => x < bound) xs ->
  sum xs <= bound * Z.of_nat (List.length xs).
Proof.
  induction 1 as [| x xs Hx _ IH]; [cbn; lia |].
  rewrite sum_cons. cbn [List.length]. lia.
Qed.

Lemma cents_shown_below n :
  0 <= n < 10000 -> shown_eur n = Ok (strtod false n 2).
Proof.
  intros Hn. pose proof cents_shown_below_100_euros as H.
  rewrite forallb_forall in H.
  assert (Hin : In n below_100_euros).
  { apply in_map_iff. exists (Z.to_nat n). split; [apply Z2Nat.id; lia |].
    apply in_seq. split; [apply Nat.le_0_l |]. apply Z2Nat.inj_lt; lia. }
  specialize (H n Hin). unfold cents_shown in H.
  destruct (shown_eur n) as [x |]; [| discriminate].
  apply float_same_eq in H. congruence.
Qed.

Lemma cents_kept_to_cents n :
  0 <= n < 10000 -> to_cents (strtod false n 2) = Ok n.
Proof.
  intros Hn. pose proof (cents_kept_below n Hn) as Hk.
  unfold cents_kept in Hk. cbn zeta in Hk. apply andb_prop in Hk as [_ Hc].
  destruct (to_cents (strtod false n 2)) as [c |]; [| discriminate].
  apply Z.eqb_eq in Hc. congruence.
Qed.

(** X21: in a session the script can reach, with at least one person and
    amounts of whole cents below 100 euros, a click on the button that
    calculates, the form left as it is shown, runs through: the persons
    stay as they are, [calculated] is set and the tables are stored; the
    row of each person carries the code and the very amount of the person,
    the check column repeats the amount and the difference is [0.0]. *)
Theorem calculation_on_untouched_form (U : runtime) (w : widgets)
  (st : session) :
  reachable U st ->
  add_clicked w = false ->
  add_ten_clicked w = false ->
  calc_clicked w = true ->
  persons st <> [] ->
  Forall (fun p => delete_clicked w (person_id p) = false) (persons st) ->
  Forall (untouched w) (persons st) ->
  exists res,
    run U w st
    = ({| persons := persons st; next_id := next_id st;
          calculated := true; results := Some res |}, None)
    /\ Forall2
         (fun p row =>
            shown_code row = person_code p
            /\ shown_amount row = person_amount p
            /\ shown_check row = person_amount p
            /\ shown_difference row = S754_zero false)
         (persons st) (shown_persons res).
Proof.
  intros Hreach Ha Ht Hc Hne Hd Hu.
  destruct (reachable_ok U st Hreach) as (Hlen & _).
  assert (Hst : after_buttons w st = st)
    by (unfold after_buttons; rewrite Ha, Ht; reflexivity).
  rewrite run_untouched_form; rewrite Hst; [| exact Hne | exact Hu].
  replace (filter (delete_clicked w) (map person_id (persons st)))
    with (@nil Z)
    by (clear - Hd; induction Hd as [| p ps Hp _ IH]; [reflexivity |];
        cbn [map filter]; rewrite Hp; exact IH).
  rewrite Hc.
  destruct (Forall_Forall2_exists
              (fun p c => 0 <= c < 10000 /\ person_amount p = strtod false c 2)
              (persons st)) as (cents & Hcents).
  { eapply Forall_impl; [| exact Hu]. cbn beta.
    intros p (_ & n & Hn & Hp). exists n. split; assumption. }
  assert (Hto : Forall2 (fun p c => to_cents (person_amount p) = Ok c)
                  (persons st) cents).
  { eapply Forall2_impl; [| exact Hcents]. cbn beta.
    intros p c (Hb & ->). apply cents_kept_to_cents, Hb. }
  assert (Hb : Forall (fun c => 0 <= c < 10000) cents).
  { clear - Hcents. induction Hcents as [| p c ps cs (Hc & _) _ IH];
      constructor; assumption. }
  assert (H53 : 10000 * 100 < 2 ^ 53) by reflexivity.
  assert (Hsum : 0 <= sum cents < 2 ^ 53).
  { pose proof (sum_below 10000 cents
                  ltac:(eapply Forall_impl; [| exact Hb]; cbn beta; lia)) as H.
    rewrite <- (Forall2_length Hcents) in H.
    pose proof (sum_nonneg cents
                  ltac:(eapply Forall_impl; [| exact Hb]; cbn beta; lia)).
    lia. }
  destruct (calculate_shown_returns U (persons st) cents Hto
              ltac:(eapply Forall_impl; [| exact Hb]; cbn beta; lia) Hsum)
    as (res & Hres).
  rewrite Hres. exists res. split; [reflexivity |].
  destruct (calculate_shown_parts U (persons st) res Hres)
    as (cents' & sums & Hc' & Hs' & Hparts & _).
  pose proof (shown_rows_Forall2 (persons st) cents' sums Hc' Hs') as Hrows.
  rewrite <- Hparts in Hrows.
  clear - Hrows Hcents.
  revert cents Hcents.
  induction Hrows as [| p row ps rows (Hcode & c & Hc & _ & Hs & Hk & Hdf) _ IH];
    intros cents Hcents; [constructor |].
  inversion Hcents as [| ? n ? cs (Hn & Hp) Hcs]; subst.
  constructor; [| exact (IH cs Hcs)].
  assert (c = n)
    by (rewrite Hp, (cents_kept_to_cents n Hn) in Hc; congruence).
  subst c. rewrite (cents_shown_below n Hn) in Hs.
  assert (Hrow : shown_amount row = person_amount p) by congruence.
  split; [exact Hcode |]. split; [exact Hrow |].
  split; [rewrite Hk; exact Hrow | exact Hdf].
Qed.

Lemma calculation_on_untouched_form_witness :
  reachable ascii_runtime
    (fst (run ascii_runtime (click_calc (lit "12,34")) (added ascii_runtime 2)))
  /\ Forall (untouched (click_calc (lit "12,34")))
       (persons
          (fst (run ascii_runtime (click_calc (lit "12,34"))
                  (added ascii_runtime 2))))
  /\ exists res,
       run ascii_runtime (click_calc (lit "12,34"))
         (fst (run ascii_runtime (click_calc (lit "12,34"))
                 (added ascii_runtime 2)))
       = ({| persons :=
               persons
                 (fst (run ascii_runtime (click_calc (lit "12,34"))
                         (added ascii_runtime 2)));
             next_id :=
               next_id
                 (fst (run ascii_runtime (click_calc (lit "12,34"))
                         (added ascii_runtime 2)));
             calculated := true;
             results := Some res |}, None).
Proof.
  assert (H : reachable ascii_runtime
                (fst (run ascii_runtime (click_calc (lit "12,34"))
                        (added ascii_runtime 2))))
    by apply reach_run, added_reachable.
  assert (Hu : Forall (untouched (click_calc (lit "12,34")))
                 (persons
                    (fst (run ascii_runtime (click_calc (lit "12,34"))
                            (added ascii_runtime 2))))).
  { assert (E : persons
                  (fst (run ascii_runtime (click_calc (lit "12,34"))
                          (added ascii_runtime 2)))
                = [ {| person_id := 1; person_code := lit "A";
                       person_amount := strtod false 1234 2 |};
                    {| person_id := 2; person_code := lit "B";
                       person_amount := strtod false 1234 2 |} ])
      by (vm_compute; reflexivity).
    rewrite E.
    repeat constructor; try (exists 1234; split; [lia | reflexivity]);
      vm_compute; reflexivity. }
  split; [exact H |]. split; [exact Hu |].
  destruct (calculation_on_untouched_form ascii_runtime
              (click_calc (lit "12,34")) _ H eq_refl eq_refl eq_refl)
    as (res & Hres & _); [| | exact Hu | exists res; exact Hres].
  - vm_compute. discriminate.
  - vm_compute. repeat constructor.
Defined.

(** ** The total of the summary *)

Lemma aggregate_counts_worth cents :
  weighted_sum
    (aggregate_counts (map (fun c => fst (greedy MINOR_UNITS c)) cents))
    MINOR_UNITS
  = sum cents.
Proof.
  unfold aggregate_counts.
  rewrite add_all_counts_worth.
  - replace (weighted_sum (map (fun _ => 0) MINOR_UNITS) MINOR_UNITS)
      with 0 by reflexivity.
    rewrite Z.add_0_l, map_map. f_equal.
    rewrite <- (map_id cents) at 2. apply map_ext. intros c.
    rewrite greedy_weighted_sum, greedy_MINOR_UNITS_left. lia.
  - apply Forall_forall. intros row Hrow.
    apply in_map_iff in Hrow. destruct Hrow as (c & <- & _).
    apply greedy_length.
  - apply length_map.
Qed.

(** X22: in the summary the calculation shows, every row carries the
    euros of its pieces times the cents of its denomination, and the
    [SPOLU] row carries the euros of the cents of these rows added up: the
    total is converted from the sum in cents, not added up from the
    amounts shown. *)
Theorem shown_total_of_summary (U : runtime) (persons : list person)
  (res : shown_result) :
  calculate_shown U persons = Ok res ->
  Forall2 (fun row v =>
             shown_eur (shown_pieces row * v) = Ok (shown_value row))
    (shown_summary res) MINOR_UNITS
  /\ shown_eur (weighted_sum (map shown_pieces (shown_summary res)) MINOR_UNITS)
     = Ok (shown_total res).
Proof.
  intros H.
  destruct (calculate_shown_parts U persons res H)
    as (cents & _ & _ & _ & _ & _ & Hv & Hp & Ht).
  split; [exact Hv |].
  rewrite Hp, aggregate_counts_worth. exact Ht.
Qed.

Lemma shown_total_of_summary_witness :
  exists res,
    calculate_shown ascii_runtime
      [ {| person_id := 1; person_code := lit "A";
           person_amount := strtod false 1234 2 |};
        {| person_id := 2; person_code := lit "B";
           person_amount := strtod false 705 2 |} ]
    = Ok res
    /\ shown_eur
         (weighted_sum (map shown_pieces (shown_summary res)) MINOR_UNITS)
       = Ok (shown_total res).
Proof.
  destruct (calculate_shown ascii_runtime
              [ {| person_id := 1; person_code := lit "A";
                   person_amount := strtod false 1234 2 |};
                {| person_id := 2; person_code := lit "B";
                   person_amount := strtod false 705 2 |} ])
    as [res | e] eqn:E; [| vm_compute in E; discriminate].
  exists res. split; [reflexivity |].
  exact (proj2 (shown_total_of_summary ascii_runtime _ res E)).
Defined.

(** ** Spaces are ignored *)

Lemma lstrip_app a b :
  lstrip (a ++ b) = if forallb isspace a then lstrip b else lstrip a ++ b.
Proof.
  induction a as [| c a IH]; cbn [app forallb lstrip]; [reflexivity |].
  destruct (isspace c); cbn [andb]; [exact IH | reflexivity].
Qed.

Lemma forallb_isspace_rev s : forallb isspace (rev s) = forallb isspace s.
Proof.
  destruct (forallb isspace s) eqn:E.
  - apply forallb_rev. exact E.
  - destruct (forallb isspace (rev s)) eqn:Er; [| reflexivity].
    apply forallb_rev in Er. rewrite rev_involutive in Er. congruence.
Qed.

Lemma rstrip_app a b :
  rstrip (a ++ b) = if forallb isspace b then rstrip a else a ++ rstrip b.
Proof.
  unfold rstrip. rewrite rev_app_distr, lstrip_app, forallb_isspace_rev.
  destruct (forallb isspace b); [reflexivity |].
  rewrite rev_app_distr, rev_involutive. reflexivity.
Qed.

Lemma lstrip_white s : forallb isspace s = true -> lstrip s = [].
Proof.
  induction s as [| c s IH]; cbn [forallb lstrip]; [reflexivity |].
  intros H. apply andb_prop in H as [-> H]. exact (IH H).
Qed.

Lemma rstrip_white s : forallb isspace s = true -> rstrip s = [].
Proof.
  intros H. unfold rstrip. rewrite lstrip_white; [reflexivity |].
  rewrite forallb_isspace_rev. exact H.
Qed.

(** A space put anywhere into a text is gone once the text is stripped
    and its spaces are taken out. *)
Lemma strip_with_space s1 s2 :
  replace 32 [] (strip (s1 ++ 32 :: s2)) = replace 32 [] (strip (s1 ++ s2)).
Proof.
  unfold strip. rewrite !lstrip_app.
  destruct (forallb isspace s1); [reflexivity |].
  rewrite !rstrip_app. cbn [forallb]. change (isspace 32) with true.
  cbn [andb].
  destruct (forallb isspace s2) eqn:E2; [reflexivity |].
  change (32 :: s2) with ([32] ++ s2). rewrite rstrip_app, E2.
  rewrite !replace_app. reflexivity.
Qed.

(** White space around a text is stripped. *)
Lemma strip_white_around ws1 s ws2 :
  forallb isspace ws1 = true -> forallb isspace ws2 = true ->
  strip (ws1 ++ s ++ ws2) = strip s.
Proof.
  intros H1 H2. unfold strip. rewrite lstrip_app, H1, lstrip_app.
  destruct (forallb isspace s) eqn:Es.
  - rewrite (lstrip_white ws2 H2), (lstrip_white s Es). reflexivity.
  - rewrite rstrip_app, H2. reflexivity.
Qed.

Lemma parse_amount_sk_stripped U raw1 raw2 :
  replace 32 [] (strip raw1) = replace 32 [] (strip raw2) ->
  parse_amount_sk U (Some raw1) = parse_amount_sk U (Some raw2).
Proof. intros H. unfold parse_amount_sk. rewrite H. reflexivity. Qed.

(** X23: [parse_amount_sk] ignores a space wherever it stands in the text,
    and white space of any kind before and after the text. *)
Theorem parse_amount_sk_spaces (U : runtime) :
  (forall s1 s2,
     parse_amount_sk U (Some (s1 ++ 32 :: s2))
     = parse_amount_sk U (Some (s1 ++ s2)))
  /\ (forall ws1 s ws2,
        forallb isspace ws1 = true -> forallb isspace ws2 = true ->
        parse_amount_sk U (Some (ws1 ++ s ++ ws2))
        = parse_amount_sk U (Some s)).
Proof.
  split.
  - intros s1 s2. apply parse_amount_sk_stripped, strip_with_space.
  - intros ws1 s ws2 H1 H2. apply parse_amount_sk_stripped.
    rewrite (strip_white_around ws1 s ws2 H1 H2). reflexivity.
Qed.

Lemma parse_amount_sk_spaces_witness :
  forallb isspace [9; 160] = true
  /\ forallb isspace [10] = true
  /\ parse_amount_sk ascii_runtime (Some ([9; 160] ++ lit "1 234,5" ++ [10]))
     = parse_amount_sk ascii_runtime (Some (lit "1 234,5")).
Proof.
  assert (H1 : forallb isspace [9; 160] = true) by reflexivity.
  assert (H2 : forallb isspace [10] = true) by reflexivity.
  split; [exact H1 |]. split; [exact H2 |].
  exact (proj2 (parse_amount_sk_spaces ascii_runtime) _ (lit "1 234,5") _ H1 H2).
Defined.

(** ** The calculation on given breakdowns *)



Section EntryFacts.
Variable U : runtime.





End EntryFacts.

(** The block on persons is the block on their breakdowns: the body of
    the loop converts the amount to cents, breaks the cents down and goes
    on as [calc_entry] does. *)
Lemma shown_person_entry (U : runtime) (st : shown_state) (p : person) :
  shown_person U st p
  = (amt_cents <- to_cents (person_amount p) ;;
     breakdown <- compute_breakdown amt_cents ;;
     calc_entry U st (person_code p, amt_cents, breakdown)).
Proof.
  unfold shown_person, calc_entry.
  destruct (to_cents (person_amount p)) as [amt |]; cbn [bind];
    [| reflexivity].
  destruct (compute_breakdown amt) as [b |]; cbn [bind]; reflexivity.
Qed.

Lemma shown_persons_entries (U : runtime) (persons : list person) :
  forall cents st,
    Forall2 (fun p c => to_cents (person_amount p) = Ok c) persons cents ->
    for_each (shown_person U) persons st
    = for_each (calc_entry U)
        (map (fun pc =>
                (person_code (fst pc), snd pc,
                 combine DENOM_LABELS (fst (greedy MINOR_UNITS (snd pc)))))
           (combine persons cents))
        st.
Proof.
  induction persons as [| p persons IH]; intros cents st Hc.
  - inversion Hc; subst. reflexivity.
  - inversion Hc as [| ? c ? cents' Hpc Hc']; subst.
    cbn [combine]. rewrite map_cons. cbn [for_each fst snd].
    rewrite shown_person_entry, Hpc. cbn [bind].
    rewrite compute_breakdown_eq. cbn [bind].
    destruct (calc_entry U st _) as [st1 |]; cbn [bind]; [| reflexivity].
    apply IH. exact Hc'.
Qed.

Lemma calculate_shown_aggregate (U : runtime) (persons : list person)
  (cents : list Z) :
  Forall2 (fun p c => to_cents (person_amount p) = Ok c) persons cents ->
  calculate_shown U persons
  = aggregate U
      (map (fun pc =>
              (person_code (fst pc), snd pc,
               combine DENOM_LABELS (fst (greedy MINOR_UNITS (snd pc)))))
         (combine persons cents)).
Proof.
  intros Hc. unfold calculate_shown, aggregate.
  rewrite (shown_persons_entries U persons cents calc_init Hc).
  destruct (for_each (calc_entry U) _ calc_init) as [st |]; cbn [bind];
    reflexivity.
Qed.







(** The block on two persons of 1e306 euros: each amount converts to
    cents and to euros again, the cents of both together do not. *)
Lemma calculate_shown_beyond_floats :
  calculate_shown ascii_runtime
    [ {| person_id := 1; person_code := lit "A";
         person_amount := strtod false (10 ^ 306) 0 |};
      {| person_id := 2; person_code := lit "B";
         person_amount := strtod false (10 ^ 306) 0 |} ]
  = Raise OverflowError.
Proof. vm_compute. reflexivity. Qed.
